(** * Clipov: chunked upload sessions, segmentation and analysis orchestration

    A shallow embedding of the server side of the Clipov video pipeline:
    the upload route handlers (progress, resume, finalize), the video
    segmenter, the retry loop of the self-hosted visual analyzer and the
    background analysis run of the trigger route.

    Conventions of the embedding.
    - Firestore collections are finite maps from document id to a record;
      [update] merges the given fields into the stored record.
    - The storage bucket is the finite set of object paths it holds.
    - JavaScript numbers that hold counts and indices are [nat]; durations
      are exact rationals ([Q]).  The percentages and rates the code rounds
      or compares are computed as the engine does, every operation rounded
      to IEEE binary64 ([Binary64]).
    - Timestamps ([lastUpdated], [createdAt], [resumedAt], ...) and console
      output are left out: no handler reads them back.  The expiry instant
      of a session is kept because [resume] tests it. *)

From Stdlib Require Import ZArith QArith Qround Qminmax Qpower String Ascii DecimalString List Lia Bool.
From Stdlib Require Import Floats Uint63 Sorted Lqa DecimalNat.
From stdpp Require Import gmap strings list.
Import ListNotations.

Local Open Scope string_scope.
Local Open Scope nat_scope.

(** ** Shared helpers *)

(** [String(n)] for a non-negative integer. *)
Definition showNat (n : nat) : string :=
  NilEmpty.string_of_uint (Nat.to_uint n).

(** [s.padStart(width, '0')]. *)
Definition padStart0 (width : nat) (s : string) : string :=
  String.concat "" (List.repeat "0" (width - String.length s)) ++ s.

(** [haystack.includes(needle)]. *)
Fixpoint str_includes (needle haystack : string) : bool :=
  String.prefix needle haystack ||
  match haystack with
  | EmptyString => false
  | String _ rest => str_includes needle rest
  end.

(** [s.toLowerCase()] on the ASCII range: a string is kept as its
    sequence of bytes, and the letters [A] to [Z] are folded.  The engine
    also folds letters outside ASCII; where a statement depends on the
    folding of a text that is not fixed by the code, it is stated for
    strings of ASCII characters ([isAscii]). *)
Definition lower_ascii (c : ascii) : ascii :=
  let n := nat_of_ascii c in
  if (65 <=? n) && (n <=? 90) then ascii_of_nat (n + 32) else c.

Fixpoint isAscii (s : string) : bool :=
  match s with
  | EmptyString => true
  | String c rest => (nat_of_ascii c <? 128) && isAscii rest
  end.

Fixpoint toLowerCase (s : string) : string :=
  match s with
  | EmptyString => EmptyString
  | String c rest => String (lower_ascii c) (toLowerCase rest)
  end.

(** [l.join(sep)] for a list of numbers. *)
Definition joinNats (sep : string) (l : list nat) : string :=
  String.concat sep (List.map showNat l).

(** ** IEEE binary64 arithmetic

    A finite binary64 number is kept as the rational it denotes.  Every
    operation of the engine returns the binary64 number nearest to the
    exact result, a tie going to the even significand.  The numbers that
    occur here lie far inside the normal range, so neither overflow nor
    gradual underflow is modelled. *)

Module Binary64.

Local Open Scope Q_scope.

Definition pow2 (e : Z) : Q := 2 ^ e.

(** The exponent of a positive rational: the [e] with
    [2^e <= q < 2^(e+1)]. *)
Definition exponent (q : Q) : Z :=
  let e := (Z.log2 (Qnum q) - Z.log2 (Z.pos (Qden q)))%Z in
  if Qle_bool (pow2 e) q then e else (e - 1)%Z.

(** The nearest integer, a tie going to the even one. *)
Definition nearestEven (x : Q) : Z :=
  let k := Qfloor x in
  match Qcompare (x - inject_Z k) (1 # 2) with
  | Lt => k
  | Gt => (k + 1)%Z
  | Eq => if Z.even k then k else (k + 1)%Z
  end.

(** The nearest number with a significand of 53 bits: a multiple of
    [2^(e-52)], where [e] is the exponent of [q]. *)
Definition roundPositive (q : Q) : Q :=
  let ulp := pow2 (exponent q - 52) in
  inject_Z (nearestEven (q / ulp)) * ulp.

Definition round (q : Q) : Q :=
  Qred (match Qnum q with
        | Z0 => 0
        | Zpos _ => roundPositive q
        | Zneg _ => - roundPositive (- q)
        end).

(** The number a count denotes, and the operators [/] and [*]. *)
Definition ofNat (n : nat) : Q := round (inject_Z (Z.of_nat n)).
Definition div (x y : Q) : Q := round (x / y).
Definition mul (x y : Q) : Q := round (x * y).

(** [Math.round(x)]: the nearest integer, a tie going upwards. *)
Definition mathRound (x : Q) : Z := Qfloor (x + (1 # 2)).

(** [Math.round((a / b) * k)] for counts [a], [b] and a whole number
    [k]. *)
Definition roundScaled (a b : nat) (k : Z) : Z :=
  mathRound (mul (div (ofNat a) (ofNat b)) (inject_Z k)).

End Binary64.

(** [Math.round((a / b) * 100)] for counts [a], [b] with [0 < b]. *)
Definition roundPercent (a b : nat) : nat :=
  Z.to_nat (Binary64.roundScaled a b 100).

(** [generateChunkPath(userId, sessionId, chunkIndex)] and
    [generateVideoPath(userId, videoId, fileName)] of the shared upload
    utilities. *)
Definition generateChunkPath (userId sessionId : string) (chunkIndex : nat) : string :=
  "uploads/" ++ userId ++ "/" ++ sessionId ++ "/chunk_" ++ padStart0 3 (showNat chunkIndex).

(** The text after the last ['.'] of [s] ([s.split('.').pop()]). *)
Fixpoint afterLastDot (acc s : string) : string :=
  match s with
  | EmptyString => acc
  | String c rest =>
      if Ascii.eqb c "."%char then afterLastDot EmptyString rest
      else afterLastDot (acc ++ String c EmptyString) rest
  end.

Definition generateVideoPath (userId videoId fileName : string) : string :=
  let ext := afterLastDot EmptyString fileName in
  let extension := if String.eqb ext "" then "mp4" else ext in
  "videos/" ++ userId ++ "/" ++ videoId ++ "." ++ extension.

(** ** Data model of the upload session documents *)

Inductive SessionStatus :=
| initializing
| uploading
| uploading_with_errors
| uploading_complete
| assembling
| completed
| failed.

#[global] Instance SessionStatus_eq_dec : EqDecision SessionStatus.
Proof. solve_decision. Defined.

(** One document of the [upload_sessions] collection.  [completedChunks] is
    the separate field that [resume] writes; the progress route keeps its
    own [chunksCompleted] / [chunksFailed]. *)
Record UploadSession := mkSession {
  userId : string;
  fileName : string;
  fileSize : N;
  fileType : string;
  totalChunks : nat;
  chunkSize : N;
  chunksCompleted : list nat;
  chunksFailed : list nat;
  completedChunks : list nat;
  status : SessionStatus;
  progress : nat;
  videoId : option string;
  error : option string;
  expiresAt : nat
}.

(** Field updates of a session document ([sessionRef.update({...})]). *)
Definition setChunkState (done failedSet : list nat) (st : SessionStatus) (pct : nat)
    (s : UploadSession) : UploadSession :=
  mkSession (userId s) (fileName s) (fileSize s) (fileType s) (totalChunks s)
    (chunkSize s) done failedSet (completedChunks s) st pct (videoId s) (error s)
    (expiresAt s).

Definition setStatus (st : SessionStatus) (s : UploadSession) : UploadSession :=
  mkSession (userId s) (fileName s) (fileSize s) (fileType s) (totalChunks s)
    (chunkSize s) (chunksCompleted s) (chunksFailed s) (completedChunks s) st
    (progress s) (videoId s) (error s) (expiresAt s).

Definition setError (msg : string) (s : UploadSession) : UploadSession :=
  mkSession (userId s) (fileName s) (fileSize s) (fileType s) (totalChunks s)
    (chunkSize s) (chunksCompleted s) (chunksFailed s) (completedChunks s) (status s)
    (progress s) (videoId s) (Some msg) (expiresAt s).

Definition setVideoId (vid : string) (s : UploadSession) : UploadSession :=
  mkSession (userId s) (fileName s) (fileSize s) (fileType s) (totalChunks s)
    (chunkSize s) (chunksCompleted s) (chunksFailed s) (completedChunks s) (status s)
    (progress s) (Some vid) (error s) (expiresAt s).

Definition setCompletedChunks (existing : list nat) (s : UploadSession) : UploadSession :=
  mkSession (userId s) (fileName s) (fileSize s) (fileType s) (totalChunks s)
    (chunkSize s) (chunksCompleted s) (chunksFailed s) existing (status s)
    (progress s) (videoId s) (error s) (expiresAt s).

(** Results of calls that can throw: the value, or the message of the
    thrown [Error]. *)
Inductive Result (A : Type) :=
| Ok (a : A)
| Throw (message : string).
Arguments Ok {A} a.
Arguments Throw {A} message.

(** The storage bucket: the object paths it holds, and the paths for which
    the existence check itself fails (the request to the storage service
    throws). *)
Record Bucket := mkBucket {
  objects : gset string;
  failing : gset string
}.

(** [bucket.file(path).exists()]. *)
Definition fileExists (b : Bucket) (path : string) : Result bool :=
  if decide (path ∈ failing b) then Throw "storage request failed"
  else Ok (bool_decide (path ∈ objects b)).

(** An HTTP answer: an error with its status code and message, or the
    success payload. *)
Inductive Response (A : Type) :=
| RespError (code : nat) (message : string)
| RespOk (data : A).
Arguments RespError {A} code message.
Arguments RespOk {A} data.

(** The caller's identity: [verifyIdToken] either yields the uid of the
    token or throws ['Invalid token']. *)
Definition Verifier := string -> option string.

(** [authHeader.split(' ')[1]] for a header that starts with ['Bearer ']. *)
Fixpoint untilSpace (s : string) : string :=
  match s with
  | EmptyString => EmptyString
  | String c rest =>
      if Ascii.eqb c " "%char then EmptyString else String c (untilSpace rest)
  end.

Definition bearerToken (authHeader : string) : string :=
  untilSpace (String.substring 7 (String.length authHeader - 7) authHeader).

(** The authentication prologue shared by the upload routes: the uid of
    the caller, or the status code and message of the rejection. *)
Definition authenticate (verifyIdToken : Verifier) (authorization : option string)
    : (nat * string) + string :=
  match authorization with
  | None => inl (401, "Missing or invalid authorization header")
  | Some h =>
      if String.prefix "Bearer " h then
        match verifyIdToken (bearerToken h) with
        | Some uid => inr uid
        | None => inl (401, "Invalid authentication token")
        end
      else inl (401, "Missing or invalid authorization header")
  end.

(** The same prologue in a route whose only [catch] does not tell a
    rejected token from any other failure: it answers with status 500. *)
Definition authenticatePlain (verifyIdToken : Verifier) (authorization : option string)
    : (nat * string) + string :=
  match authorization with
  | None => inl (401, "Missing or invalid authorization header")
  | Some h =>
      if String.prefix "Bearer " h then
        match verifyIdToken (bearerToken h) with
        | Some uid => inr uid
        | None => inl (500, "Internal server error")
        end
      else inl (401, "Missing or invalid authorization header")
  end.

(** [file.getSignedUrl({version: 'v4', action: 'write', expires, ...})]:
    the upload URL for the object at a path, valid until the instant
    [expires] (milliseconds).  Signing is local and does not fail. *)
Definition Signer := string -> nat -> string.

Definition SIGNED_URL_EXPIRY_HOURS : nat := 1.

(** [SIGNED_URL_EXPIRY_HOURS * 60 * 60 * 1000]. *)
Definition signedUrlLifetime : nat := SIGNED_URL_EXPIRY_HOURS * 60 * 60 * 1000.

(** ** The progress route ([upload/progress/route.ts]) *)

Module Progress.

Record Request := mkRequest {
  authorization : option string;
  sessionId : option string;
  chunkIndex : option nat;
  reported : option string
}.

Record Data := mkData {
  d_progress : nat;
  d_chunksCompleted : nat;
  d_chunksFailed : nat;
  d_totalChunks : nat;
  d_status : option SessionStatus
}.

(** [arr.includes(i)] and [arr.filter(idx => idx !== i)]. *)
Definition includes (arr : list nat) (i : nat) : bool :=
  List.existsb (Nat.eqb i) arr.

Definition without (arr : list nat) (i : nat) : list nat :=
  List.filter (fun idx => negb (Nat.eqb idx i)) arr.

Definition pushIfAbsent (arr : list nat) (i : nat) : list nat :=
  if includes arr i then arr else (arr ++ [i])%list.

(** The chunk-status update of the handler: the new
    [(chunksCompleted, chunksFailed)]. *)
Definition updateChunkStatus (reportedStatus : string) (i : nat)
    (done failedSet : list nat) : list nat * list nat :=
  if String.eqb reportedStatus "completed" then
    (pushIfAbsent done i, without failedSet i)
  else if String.eqb reportedStatus "failed" then
    (without done i, pushIfAbsent failedSet i)
  else (done, failedSet).

(** The session status derived from the new progress; [None] when the
    handler leaves [updates.status] unset. *)
Definition deriveStatus (progressPct : nat) (done failedSet : list nat)
    : option SessionStatus :=
  if Nat.eqb progressPct 100 then Some uploading_complete
  else if 0 <? List.length failedSet then Some uploading_with_errors
  else if 0 <? List.length done then Some uploading
  else None.

(** [POST]: the answer and the new contents of [upload_sessions].  The
    optional [uploadSpeed] and the remaining-time estimate derived from it
    are not modelled. *)
Definition POST (verifyIdToken : Verifier) (req : Request)
    (sessions : gmap string UploadSession)
    : Response Data * gmap string UploadSession :=
  match authenticate verifyIdToken (authorization req) with
  | inl (code, message) => (RespError code message, sessions)
  | inr uid =>
    match sessionId req, chunkIndex req, reported req with
    | Some sid, Some i, Some st =>
      if String.eqb sid "" || String.eqb st "" then
        (RespError 400 "Missing required fields: sessionId, chunkIndex, status", sessions)
      else
      match sessions !! sid with
      | None => (RespError 404 "Upload session not found", sessions)
      | Some s =>
        if negb (String.eqb (userId s) uid) then
          (RespError 403 "Unauthorized access to upload session", sessions)
        else
          let '(done, failedSet) :=
            updateChunkStatus st i (chunksCompleted s) (chunksFailed s) in
          let total := totalChunks s in
          let pct := if 0 <? total then roundPercent (List.length done) total else 0 in
          let newStatus := deriveStatus pct done failedSet in
          let s' := setChunkState done failedSet
                      (match newStatus with Some x => x | None => status s end) pct s in
          (RespOk (mkData pct (List.length done) (List.length failedSet) total newStatus),
           <[sid := s']> sessions)
      end
    | _, _, _ =>
        (RespError 400 "Missing required fields: sessionId, chunkIndex, status", sessions)
    end
  end.

(** The collection after a sequence of progress reports. *)
Definition reports (verifyIdToken : Verifier) (reqs : list Request)
    (sessions : gmap string UploadSession) : gmap string UploadSession :=
  List.fold_left (fun db r => snd (POST verifyIdToken r db)) reqs sessions.

(** The completed and the failed set of a session share no index. *)
Definition disjointSets (s : UploadSession) : Prop :=
  forall i, ~ (In i (chunksCompleted s) /\ In i (chunksFailed s)).

End Progress.

(** ** The resume route ([upload/resume/route.ts]) *)

Module Resume.

Record Request := mkRequest {
  authorization : option string;
  uploadSessionId : option string
}.

Inductive ResumeStatus := ready_to_finalize | resuming.

Record Data := mkData {
  d_uploadSessionId : string;
  d_totalChunks : nat;
  existingChunks : list nat;
  missingChunks : list nat;
  chunkUrls : gmap nat string;
  d_progress : option nat;
  d_status : ResumeStatus
}.

(** One turn of the existence loop: index [i] is pushed on [existing] when
    the check answers [true], on [missing] when it answers [false] or
    throws ("if we can't check existence, assume it's missing"). *)
Definition checkChunk (b : Bucket) (uid sid : string)
    (acc : list nat * list nat) (i : nat) : list nat * list nat :=
  let '(existing, missing) := acc in
  match fileExists b (generateChunkPath uid sid i) with
  | Ok true => ((existing ++ [i])%list, missing)
  | Ok false => (existing, (missing ++ [i])%list)
  | Throw _ => (existing, (missing ++ [i])%list)
  end.

Definition checkChunks (b : Bucket) (uid sid : string) (total : nat)
    : list nat * list nat :=
  List.fold_left (checkChunk b uid sid) (List.seq 0 total) ([], []).

(** The signed-URL loop over the missing indices: every URL expires
    [SIGNED_URL_EXPIRY_HOURS] after the instant [now] of the call. *)
Definition signMissing (signedUrl : Signer) (now : nat) (uid sid : string)
    (missing : list nat) : gmap nat string :=
  List.fold_left
    (fun urls i =>
       <[i := signedUrl (generateChunkPath uid sid i) (now + signedUrlLifetime)]> urls)
    missing ∅.

(** [POST] at instant [now] (milliseconds; the clock is read as one
    instant for the whole call). *)
Definition POST (verifyIdToken : Verifier) (signedUrl : Signer)
    (now : nat) (b : Bucket) (req : Request)
    (sessions : gmap string UploadSession)
    : Response Data * gmap string UploadSession :=
  match authenticatePlain verifyIdToken (authorization req) with
  | inl (code, message) => (RespError code message, sessions)
  | inr uid =>
    match uploadSessionId req with
    | None => (RespError 400 "Missing uploadSessionId", sessions)
    | Some sid =>
      if String.eqb sid "" then (RespError 400 "Missing uploadSessionId", sessions)
      else
      match sessions !! sid with
      | None => (RespError 404 "Upload session not found", sessions)
      | Some s =>
        if negb (String.eqb (userId s) uid) then
          (RespError 403 "Unauthorized access to upload session", sessions)
        else if expiresAt s <? now then
          (RespError 410 "Upload session has expired", sessions)
        else
          let total := totalChunks s in
          let '(existing, missing) := checkChunks b uid sid total in
          let urls := signMissing signedUrl now uid sid missing in
          let pct := if 0 <? total
                     then Some (roundPercent (List.length existing) total)
                     else None in
          (RespOk (mkData sid total existing missing urls pct
                     (if List.length existing =? total then ready_to_finalize
                      else resuming)),
           <[sid := setCompletedChunks existing s]> sessions)
      end
    end
  end.

End Resume.

(** ** The finalize route (the [POST] handler that assembles the chunks) *)

Inductive VideoStatus :=
| uploaded
| analyzing
| analysis_complete
| analysis_partial
| analysis_failed.

#[global] Instance VideoStatus_eq_dec : EqDecision VideoStatus.
Proof. solve_decision. Defined.

Module Finalize.

Record Request := mkRequest {
  authorization : option string;
  sessionId : option string
}.

(** The document written to the [videos] collection. *)
Record VideoDoc := mkVideoDoc {
  v_videoId : string;
  v_userId : string;
  v_name : string;
  v_fileName : string;
  v_fileSize : N;
  v_uploadSessionId : string;
  v_status : VideoStatus;
  v_storageLocation : string;
  v_analysisTriggered : bool;
  v_totalChunks : nat;
  v_chunkSize : N;
  v_fileType : string
}.

Record Data := mkData {
  d_videoId : string;
  d_status : VideoStatus;
  d_storageLocation : string;
  d_fileName : string;
  d_fileSize : N;
  d_analysisTriggered : bool
}.

(** What the handler asks of the outside world besides existence checks:
    the compose call, the detached chunk cleanup and the detached analysis
    trigger. *)
Inductive Effect :=
| Combine (sources : list string) (destination : string)
| CleanupChunks (paths : list string)
| TriggerAnalysis (videoId : string).

Definition isCombine (e : Effect) : bool :=
  match e with Combine _ _ => true | _ => false end.

Record State := mkState {
  sessions : gmap string UploadSession;
  videos : gmap string VideoDoc;
  bucket : Bucket
}.

(** The environment of one call: token verification, the id that
    [uuidv4()] draws, and whether [bucket.combine] throws (with which
    message). *)
Record Env := mkEnv {
  verifyIdToken : Verifier;
  uuidv4 : string;
  combineThrows : option string
}.

(** [fileName.replace(/\.[^/.]+$/, '')]: the name without its extension. *)
Fixpoint beforeLastDot (s : string) : option string :=
  match s with
  | EmptyString => None
  | String c rest =>
      match beforeLastDot rest with
      | Some p => Some (String c p)
      | None => if Ascii.eqb c "."%char then Some EmptyString else None
      end
  end.

Definition displayName (fileName : string) : string :=
  let ext := afterLastDot EmptyString fileName in
  match beforeLastDot fileName with
  | Some stem =>
      if String.eqb ext "" || str_includes "/" ext then fileName else stem
  | None => fileName
  end.

(** One turn of the verification loop.  The existence check is not
    guarded here: when it throws, the loop is left through the handler's
    outer [catch]. *)
Definition verifyChunk (b : Bucket) (uid sid : string)
    (acc : Result (list string * list nat)) (i : nat)
    : Result (list string * list nat) :=
  match acc with
  | Throw m => Throw m
  | Ok (chunkPaths, missingChunks) =>
      let chunkPath := generateChunkPath uid sid i in
      match fileExists b chunkPath with
      | Throw m => Throw m
      | Ok false => Ok (chunkPaths, (missingChunks ++ [i])%list)
      | Ok true => Ok ((chunkPaths ++ [chunkPath])%list, missingChunks)
      end
  end.

Definition verifyChunks (b : Bucket) (uid sid : string) (total : nat)
    : Result (list string * list nat) :=
  List.fold_left (verifyChunk b uid sid) (List.seq 0 total) (Ok ([], [])).

(** The handler's outer [catch]. *)
Definition outerCatch (message : string) : Response Data :=
  if str_includes "Invalid token" message then
    RespError 401 "Invalid authentication token"
  else if str_includes "compose" message then
    RespError 500 "Failed to merge video chunks"
  else RespError 500 "Internal server error".

Definition incompleteMessage (total : nat) (missingChunks : list nat) : string :=
  "Upload incomplete: " ++ showNat (total - List.length missingChunks) ++ "/"
  ++ showNat total ++ " chunks found in Cloud Storage. Missing chunks: "
  ++ joinNats ", " missingChunks.

(** The [catch] around the compose step: the session is marked [failed]. *)
Definition combineFailed (st : State) (sid : string) (s : UploadSession)
    (errorMessage : string) (effects : list Effect)
    : Response Data * State * list Effect :=
  (RespError 500 ("Failed to combine video chunks: " ++ errorMessage),
   mkState (<[sid := setError ("Failed to combine chunks: " ++ errorMessage)
                        (setStatus failed s)]> (sessions st))
           (videos st) (bucket st),
   effects).

(** [POST]: the answer, the new state and the effects issued, in order. *)
Definition POST (env : Env) (req : Request) (st : State)
    : Response Data * State * list Effect :=
  match authenticate (verifyIdToken env) (authorization req) with
  | inl (code, message) => (RespError code message, st, [])
  | inr uid =>
    match sessionId req with
    | None => (RespError 400 "Missing required field: sessionId", st, [])
    | Some sid =>
      if String.eqb sid "" then
        (RespError 400 "Missing required field: sessionId", st, [])
      else
      match sessions st !! sid with
      | None => (RespError 404 "Upload session not found", st, [])
      | Some s =>
        if negb (String.eqb (userId s) uid) then
          (RespError 403 "Unauthorized access to upload session", st, [])
        else
          let s1 := setStatus assembling s in
          let st1 := mkState (<[sid := s1]> (sessions st)) (videos st) (bucket st) in
          let total := totalChunks s in
          match verifyChunks (bucket st) uid sid total with
          | Throw m => (outerCatch m, st1, [])
          | Ok (chunkPaths, missingChunks) =>
            if 0 <? List.length missingChunks then
              (RespError 400 (incompleteMessage total missingChunks), st1, [])
            else
              let videoId := uuidv4 env in
              let ext := afterLastDot EmptyString (fileName s) in
              let fileExtension := if String.eqb ext "" then "mp4" else ext in
              let finalVideoPath := generateVideoPath uid videoId fileExtension in
              let composed := [Combine chunkPaths finalVideoPath] in
              match combineThrows env with
              | Some m => combineFailed st1 sid s1 m composed
              | None =>
                let b2 := mkBucket ({[finalVideoPath]} ∪ objects (bucket st))
                                   (failing (bucket st)) in
                let st2 := mkState (sessions st1) (videos st1) b2 in
                match fileExists b2 finalVideoPath with
                | Throw m => combineFailed st2 sid s1 m composed
                | Ok false =>
                    combineFailed st2 sid s1
                      ("Final video file was not created: " ++ finalVideoPath) composed
                | Ok true =>
                  let videoDoc :=
                    mkVideoDoc videoId uid (displayName (fileName s)) (fileName s)
                      (fileSize s) sid uploaded finalVideoPath true total
                      (chunkSize s) (fileType s) in
                  (RespOk (mkData videoId uploaded finalVideoPath (fileName s)
                             (fileSize s) true),
                   mkState (<[sid := setVideoId videoId (setStatus completed s1)]>
                              (sessions st1))
                           (<[videoId := videoDoc]> (videos st1)) b2,
                   (composed ++ [CleanupChunks chunkPaths; TriggerAnalysis videoId])%list)
                end
              end
          end
      end
    end
  end.

(** The detached [cleanupChunks]: every chunk object is deleted. *)
Definition cleanupChunks (paths : list string) (b : Bucket) : Bucket :=
  mkBucket (objects b ∖ list_to_set paths) (failing b).

(** The session document with another status and stored video id. *)
Definition restamp (st' : SessionStatus) (vid : option string) (s : UploadSession)
    : UploadSession :=
  mkSession (userId s) (fileName s) (fileSize s) (fileType s) (totalChunks s)
    (chunkSize s) (chunksCompleted s) (chunksFailed s) (completedChunks s) st'
    (progress s) vid (error s) (expiresAt s).

End Finalize.

(** ** Computations that log events and may throw

    [M E A] is a computation that has issued the listed events, in order,
    and then either returned a value or thrown.  Events issued before a
    throw stay in the log. *)

Definition M (E A : Type) : Type := (list E * Result A)%type.

Definition ret {E A} (a : A) : M E A := ([], Ok a).

Definition throw {E A} (message : string) : M E A := ([], Throw message).

Definition emit {E} (e : E) : M E unit := ([e], Ok tt).

Definition bind {E A B} (m : M E A) (f : A -> M E B) : M E B :=
  match m with
  | (t, Throw msg) => (t, Throw msg)
  | (t, Ok a) => let '(t', r) := f a in ((t ++ t')%list, r)
  end.

(** [try { m } catch (error) { handler(error.message) }]. *)
Definition tryCatch {E A} (m : M E A) (handler : string -> M E A) : M E A :=
  match m with
  | (t, Ok a) => (t, Ok a)
  | (t, Throw msg) => let '(t', r) := handler msg in ((t ++ t')%list, r)
  end.

(** [try { m } finally { fin }]. *)
Definition tryFinally {E A} (m : M E A) (fin : M E unit) : M E A :=
  match m, fin with
  | (t, r), (t', Ok _) => ((t ++ t')%list, r)
  | (t, _), (t', Throw msg) => ((t ++ t')%list, Throw msg)
  end.

(** Lifting a call whose outcome the environment decides. *)
Definition call {E A} (outcome : Result A) : M E A := ([], outcome).

(** [Promise.all] over computations that have all been started: every log
    is kept; the value is the list of values unless one of them threw. *)
Fixpoint promiseAll {E A} (ms : list (M E A)) : M E (list A) :=
  match ms with
  | [] => ret []
  | (t, r) :: rest =>
      let '(t', rs) := promiseAll rest in
      ((t ++ t')%list,
       match r, rs with
       | Throw msg, _ => Throw msg
       | Ok _, Throw msg => Throw msg
       | Ok a, Ok l => Ok (a :: l)
       end)
  end.

(** A loop that threads an accumulator through a list. *)
Fixpoint foldM {E A B} (f : B -> A -> M E B) (l : list A) (acc : B) : M E B :=
  match l with
  | [] => ret acc
  | a :: rest => bind (f acc a) (foldM f rest)
  end.

Declare Scope m_scope.
Delimit Scope m_scope with M.
Notation "'await' x <- m ;; k" := (bind m (fun x => k))
  (at level 10, x name, m at level 99, k at level 200, only parsing) : m_scope.

Definition traceOf {E A} (m : M E A) : list E := fst m.
Definition outcomeOf {E A} (m : M E A) : Result A := snd m.

(** ** The video segmenter ([VideoSegmenter]) *)

Module Segmenter.

Record VideoSegment := mkSegment {
  segmentNumber : nat;
  startTime : Q;
  endTime : Q;
  duration : Q;
  videoPath : string;
  audioPath : string;
  thumbnailPath : string;
  cloudStoragePath : string
}.

Definition outputDir : string := "/tmp/video-processing/segments".

Definition segmentFileName (segmentNumber : nat) : string :=
  "segment_" ++ padStart0 3 (showNat segmentNumber).

(** The environment of the segmenter: the duration that ffprobe reports for
    the file, and for each segment number whether cutting, thumbnailing,
    uploading and verifying it goes through. *)
Record Env := mkEnv {
  getVideoDuration : Result Q;
  extraction : nat -> Result unit
}.

(** [extractSegment]. *)
Definition extractSegment (env : Env) (userId videoId : string)
    (startTime duration : Q) (segmentNumber : nat) : Result VideoSegment :=
  match extraction env segmentNumber with
  | Throw m => Throw m
  | Ok _ =>
      let name := segmentFileName segmentNumber in
      let cloudDir := "videos/" ++ userId ++ "/" ++ videoId ++ "/segments/" in
      Ok (mkSegment segmentNumber startTime (startTime + duration)%Q duration
            (outputDir ++ "/" ++ name ++ ".mp4")
            (outputDir ++ "/" ++ name ++ ".wav")
            (cloudDir ++ name ++ "_thumbnail.jpg")
            (cloudDir ++ name ++ ".mp4"))
  end.

(** [Math.ceil(duration / 5)]. *)
Definition segmentCount (duration : Q) : Z := Qceiling (duration / 5)%Q.

(** The [for (let i = 0; i < segmentCount; i++)] loop, [remaining] turns
    from index [i] on. *)
Fixpoint segmentLoop (env : Env) (userId videoId : string) (duration : Q)
    (remaining i : nat) (segments : list VideoSegment)
    : Result (list VideoSegment) :=
  match remaining with
  | O => Ok segments
  | S remaining' =>
      let startTime := (inject_Z (Z.of_nat i) * 5)%Q in
      let endTime := Qmin (inject_Z (Z.of_nat (i + 1)) * 5)%Q duration in
      let actualDuration := (endTime - startTime)%Q in
      match extractSegment env userId videoId startTime actualDuration (i + 1) with
      | Throw m => Throw m
      | Ok segment =>
          segmentLoop env userId videoId duration remaining' (i + 1)
            (segments ++ [segment])%list
      end
  end.

(** [segmentVideo]. *)
Definition segmentVideo (env : Env) (userId videoId : string)
    : Result (list VideoSegment) :=
  let wrap m := Throw ("Video segmentation failed: Error: " ++ m) in
  match getVideoDuration env with
  | Throw m => wrap m
  | Ok duration =>
      match segmentLoop env userId videoId duration
              (Z.to_nat (segmentCount duration)) 0 [] with
      | Throw m => wrap m
      | Ok segments => Ok segments
      end
  end.

End Segmenter.

(** ** The retry loop of the self-hosted visual analyzer *)

Module VisualAnalyzer.

(** A value thrown inside the [try] block: the [name] and the [message] of
    the error object. *)
Record JsError := mkError {
  e_name : string;
  e_message : string
}.

(** [`${error}`], that is [Error.prototype.toString]. *)
Definition showError (error : JsError) : string :=
  if String.eqb (e_name error) "" then e_message error
  else if String.eqb (e_message error) "" then e_name error
  else e_name error ++ ": " ++ e_message error.

(** What one attempt meets.
    - [Responded]: an HTTP response; when its status is in the 2xx range
      its body parses ([response.json()]) and the transforms of the result
      go through.
    - [Unreadable]: an HTTP response with a 2xx status whose body
      [response.json()] or one of the transforms rejects, throwing
      [error].
    - [Failed]: an exception before the status of a response is looked at
      (file not readable, network failure, abort after the 90 s timeout) or
      while the text of an error response is read. *)
Inductive AttemptOutcome :=
| Responded (status : nat) (statusText errorText : string)
| Unreadable (error : JsError)
| Failed (error : JsError).

Inductive Event :=
| Attempt (attempt : nat)
| Wait (milliseconds : nat).

Definition maxRetries : nat := 3.
Definition baseDelay : nat := 2000.

(** [baseDelay * Math.pow(2, attempt - 1)]. *)
Definition backoff (attempt : nat) : nat := baseDelay * 2 ^ (attempt - 1).

Definition isRetryableError (status : nat) (errorText : string) : bool :=
  List.existsb (Nat.eqb status) [500; 502; 503; 504; 429]
  || str_includes "server encountered an error" errorText
  || str_includes "try again in 30 seconds" errorText
  || str_includes "temporarily unavailable" errorText
  || str_includes "timeout" errorText.

Definition isRetryableNetworkError (message : string) : bool :=
  let errorMessage := toLowerCase message in
  str_includes "timeout" errorMessage
  || str_includes "network" errorMessage
  || str_includes "econnreset" errorMessage
  || str_includes "enotfound" errorMessage
  || str_includes "aborted" errorMessage
  || str_includes "fetch" errorMessage.

(** How one turn of the loop ends. *)
Inductive Turn :=
| Return
| ContinueAfter (delay : nat)
| ContinueNow
| ThrowOut (message : string).

(** The [try] block of a turn; [inr error] is an error thrown inside
    it. *)
Definition tryBlock (outcome : AttemptOutcome) (attempt : nat) : Turn + JsError :=
  match outcome with
  | Failed error => inr error
  | Unreadable error => inr error
  | Responded status statusText errorText =>
      if (200 <=? status) && (status <? 300) then inl Return
      else if isRetryableError status errorText && (attempt <? maxRetries) then
        inl (ContinueAfter (backoff attempt))
      else
        inr (mkError "Error"
               ("AI service responded with status " ++ showNat status ++ ": "
                ++ statusText))
  end.

(** The [catch] block of a turn.  When neither of its two [if]s fires the
    block ends without throwing and the loop goes on to the next turn. *)
Definition catchBlock (error : JsError) (attempt : nat) : Turn :=
  if isRetryableNetworkError (e_message error) && (attempt <? maxRetries) then
    ContinueAfter (backoff attempt)
  else if attempt =? maxRetries then
    ThrowOut ("Self-hosted visual analysis failed after " ++ showNat maxRetries
              ++ " attempts: " ++ showError error)
  else ContinueNow.

Definition turn (outcome : AttemptOutcome) (attempt : nat) : Turn :=
  match tryBlock outcome attempt with
  | inl t => t
  | inr error => catchBlock error attempt
  end.

(** [for (let attempt = 1; attempt <= maxRetries; attempt++)], with
    [remaining] turns left. *)
Fixpoint attempts (service : nat -> AttemptOutcome) (remaining attempt : nat)
    : M Event unit :=
  match remaining with
  | O => throw "Visual analysis failed - should not reach here"
  | S remaining' =>
      bind (emit (Attempt attempt)) (fun _ =>
      match turn (service attempt) attempt with
      | Return => ret tt
      | ContinueAfter delay =>
          bind (emit (Wait delay)) (fun _ =>
          attempts service remaining' (attempt + 1))
      | ContinueNow => attempts service remaining' (attempt + 1)
      | ThrowOut message => throw message
      end)
  end.

(** [callVisualAnalysisService]: [service n] is what the [n]-th attempt
    meets. *)
Definition callVisualAnalysisService (service : nat -> AttemptOutcome)
    : M Event unit :=
  attempts service maxRetries 1.

(** [analyzeVideoSegment]: download the segment, call the service, wrap
    whatever is thrown.  [download] is the outcome of the [try] block of
    [downloadSegmentFromStorage]; a failure is given by the text
    [`${error}`] of the value thrown there. *)
Definition analyzeVideoSegment (download : Result unit)
    (service : nat -> AttemptOutcome) (cloudStoragePath : string)
    : M Event unit :=
  tryCatch
    (bind (call (match download with
                 | Ok _ => Ok tt
                 | Throw m => Throw ("Failed to download segment: " ++ m)
                 end)) (fun _ => callVisualAnalysisService service))
    (fun m => throw ("Self-hosted visual analysis failed for Cloud Storage path "
                     ++ cloudStoragePath ++ ": " ++ m)).

(** The attempts made and the delays waited, read off a log. *)
Definition attemptsMade (t : list Event) : list nat :=
  List.flat_map (fun e => match e with Attempt n => [n] | Wait _ => [] end) t.

Definition delaysWaited (t : list Event) : list nat :=
  List.flat_map (fun e => match e with Wait d => [d] | Attempt _ => [] end) t.

End VisualAnalyzer.

(** ** The analysis trigger route and its background run *)

Module Trigger.

Import Segmenter.

Record VideoMetadata := mkMetadata {
  md_duration : Q;
  md_resolution : string;
  md_format : string;
  md_frameRate : string;      (* as the template strings print it *)
  md_audioChannels : nat
}.

Inductive ProcessingMetadata :=
| Finished (totalDuration segmentCount successfulSegments failedSegments : nat)
    (successRate : option Q)
| Aborted (failureDuration : nat) (errorType : string).

(** The fields one [update] call on [videos/{videoId}] sets; a field left
    out of the call is [None].  A stored document is the merge of the
    patches applied to it. *)
Record VideoPatch := mkPatch {
  p_status : option VideoStatus;
  p_analysisProgress : option nat;
  p_currentStep : option string;
  p_stepDetails : option string;
  p_segmentCount : option Z;
  p_metadata : option VideoMetadata;
  p_processingMetadata : option ProcessingMetadata;
  p_analysisError : option string
}.

Definition noPatch : VideoPatch :=
  mkPatch None None None None None None None None.

Definition progressOnly (pct : nat) : VideoPatch :=
  mkPatch None (Some pct) None None None None None None.

Definition stepPatch (pct : nat) (currentStep stepDetails : string) : VideoPatch :=
  mkPatch None (Some pct) (Some currentStep) (Some stepDetails) None None None None.

Definition orElse {A} (new old : option A) : option A :=
  match new with Some _ => new | None => old end.

(** Firestore's [update]: the fields of the patch replace the stored
    ones, the others stay. *)
Definition applyPatch (doc p : VideoPatch) : VideoPatch :=
  mkPatch (orElse (p_status p) (p_status doc))
          (orElse (p_analysisProgress p) (p_analysisProgress doc))
          (orElse (p_currentStep p) (p_currentStep doc))
          (orElse (p_stepDetails p) (p_stepDetails doc))
          (orElse (p_segmentCount p) (p_segmentCount doc))
          (orElse (p_metadata p) (p_metadata doc))
          (orElse (p_processingMetadata p) (p_processingMetadata doc))
          (orElse (p_analysisError p) (p_analysisError doc)).

(** The calls whose start the log records. *)
Inductive Task :=
| DownloadVideo
| ValidateVideo
| StandardizeVideo
| ExtractAudioTrack
| SegmentVideo
| VerifySegments
| StoreSegments (placeholders : nat)
| InitAnalyzers
| AnalyzeAudio (segmentNumber : nat)
| AnalyzeVisual (segmentNumber : nat)
| SaveSegment (segmentNumber : nat).

Inductive Event :=
| Persist (p : VideoPatch)
| Start (t : Task)
| VisualCall (segmentNumber : nat) (e : VisualAnalyzer.Event)
| Cleanup.

(** What the run meets outside: the outcome of every external call.  The
    per-segment outcomes are indexed by segment number. *)
Record World := mkWorld {
  videoUpdate : VideoPatch -> Result unit;
  elapsedSeconds : nat;
  downloadVideo : Result unit;
  validateVideo : Result VideoMetadata;
  standardizeHardware : Result unit;
  standardizeCPU : Result unit;
  extractAudioTrack : Result unit;
  segmenter : Segmenter.Env;
  verifyAllSegmentsReady : Result unit;
  batchCommit : Result unit;
  initAnalyzers : Result unit;
  analyzeAudioSegment : nat -> Result unit;
  downloadSegment : nat -> Result unit;
  visualService : nat -> nat -> VisualAnalyzer.AttemptOutcome;
  segmentSet : nat -> Result unit
}.

Definition update (w : World) (p : VideoPatch) : M Event unit :=
  match videoUpdate w p with
  | Ok _ => emit (Persist p)
  | Throw m => throw m
  end.

Definition start {A} (t : Task) (outcome : Result A) : M Event A :=
  bind (emit (Start t)) (fun _ => call outcome).

(** [standardizeVideo]: hardware encoding first, CPU encoding when that
    throws. *)
Definition standardizeVideo (w : World) : Result unit :=
  match standardizeHardware w with
  | Ok _ => Ok tt
  | Throw _ => standardizeCPU w
  end.

Definition showZ (z : Z) : string :=
  if (z <? 0)%Z then "-" ++ showNat (Z.to_nat (- z)) else showNat (Z.to_nat z).

(** Step 5 of the run: [Math.ceil(metadata.duration / SEGMENT_DURATION)]. *)
Definition SEGMENT_DURATION : nat := 30.

Definition plannedSegmentCount (duration : Q) : Z :=
  Qceiling (duration / inject_Z (Z.of_nat SEGMENT_DURATION))%Q.

Definition PARALLEL_LIMIT : nat := 2.

(** [segments.slice(i, i + PARALLEL_LIMIT)] for [i = 0, 2, 4, ...]. *)
Fixpoint segmentChunks {A} (segments : list A) : list (list A) :=
  match segments with
  | [] => []
  | [a] => [[a]]
  | a :: b :: rest => [a; b] :: segmentChunks rest
  end.

(** [70 + Math.round((chunkIndex / chunks) * 25)]. *)
Definition chunkProgress (chunkIndex chunks : nat) : nat :=
  70 + Z.to_nat (Binary64.roundScaled chunkIndex chunks 25).

Record Counters := mkCounters {
  completedSegments : nat;
  successfulSegments : nat;
  failedSegments : nat
}.

Definition liftVisual {A} (segmentNumber : nat) (m : M VisualAnalyzer.Event A)
    : M Event A :=
  (List.map (VisualCall segmentNumber) (fst m), snd m).

(** The body of [chunk.map(async (segment) => ...)]: both analyses are
    started, the [catch] turns any failure into [success: false]. *)
Definition analyzeSegment (w : World) (segment : VideoSegment) : M Event bool :=
  let n := segmentNumber segment in
  let audio := start (AnalyzeAudio n) (analyzeAudioSegment w n) in
  let visual :=
    bind (emit (Start (AnalyzeVisual n))) (fun _ =>
    liftVisual n (VisualAnalyzer.analyzeVideoSegment (downloadSegment w n)
                    (visualService w n) (cloudStoragePath segment))) in
  tryCatch (bind (promiseAll [audio; visual]) (fun _ => ret true))
           (fun _ => ret false).

(** The body of [chunkResults.map(async (result) => ...)]. *)
Definition saveResult (w : World) (c : Counters) (result : VideoSegment * bool)
    : M Event Counters :=
  let '(segment, success) := result in
  if negb success then
    ret (mkCounters (completedSegments c) (successfulSegments c) (failedSegments c + 1))
  else
    tryCatch
      (bind (start (SaveSegment (segmentNumber segment))
                   (segmentSet w (segmentNumber segment))) (fun _ =>
       ret (mkCounters (completedSegments c) (successfulSegments c + 1)
                       (failedSegments c))))
      (fun _ =>
       ret (mkCounters (completedSegments c) (successfulSegments c)
                       (failedSegments c + 1))).

(** One turn of the batch loop.  The segments of a batch run concurrently
    in the source; the log lists them in segment order. *)
Definition processChunk (w : World) (chunks chunkIndex : nat)
    (chunk : list VideoSegment) (c : Counters) : M Event Counters :=
  bind (update w
          (mkPatch None (Some (chunkProgress chunkIndex chunks)) None
             (Some ("Parallel processing batch " ++ showNat (chunkIndex + 1) ++ "/"
                    ++ showNat chunks ++ ": " ++ showNat (List.length chunk)
                    ++ " segments simultaneously"))
             None None None None)) (fun _ =>
  bind (promiseAll
          (List.map (fun segment =>
                       bind (analyzeSegment w segment) (fun ok => ret (segment, ok)))
                    chunk)) (fun chunkResults =>
  bind (foldM (saveResult w) chunkResults c) (fun c' =>
  ret (mkCounters (completedSegments c' + List.length chunk)
                  (successfulSegments c') (failedSegments c'))))).

Fixpoint processChunks (w : World) (chunks chunkIndex : nat)
    (rest : list (list VideoSegment)) (c : Counters) : M Event Counters :=
  match rest with
  | [] => ret c
  | chunk :: rest' =>
      bind (processChunk w chunks chunkIndex chunk c)
           (processChunks w chunks (chunkIndex + 1) rest')
  end.

(** Step 9: the whole batch loop over the segments. *)
Definition analyzeSegments (w : World) (segments : list VideoSegment)
    : M Event Counters :=
  let chunks := segmentChunks segments in
  processChunks w (List.length chunks) 0 chunks (mkCounters 0 0 0).

(** The number [a / b] of two counts as JavaScript computes it. *)
Inductive JsNumber :=
| Finite (q : Q)
| PosInfinity
| NaN.

Definition jsDiv (a b : nat) : JsNumber :=
  if b =? 0 then (if a =? 0 then NaN else PosInfinity)
  else Finite (Binary64.div (Binary64.ofNat a) (Binary64.ofNat b)).

(** [x >= q]. *)
Definition jsGe (x : JsNumber) (q : Q) : bool :=
  match x with
  | Finite v => Qle_bool q v
  | PosInfinity => true
  | NaN => false
  end.

(** The literals [0.9] and [0.5], and the binary64 numbers next below
    them. *)
Definition ninetyPercent : Q := Binary64.round (9 # 10).
Definition fiftyPercent : Q := Binary64.round (1 # 2).
Definition belowNinety : Q := 8106479329266892 # 9007199254740992.
Definition belowFifty : Q := 9007199254740991 # 18014398509481984.

(** The final status chosen from the success rate. *)
Definition finalStatusOf (successRate : JsNumber) : VideoStatus :=
  if jsGe successRate ninetyPercent then analysis_complete
  else if jsGe successRate fiftyPercent then analysis_partial
  else analysis_failed.

Definition finalStatus (successful total : nat) : VideoStatus :=
  finalStatusOf (jsDiv successful total).

Definition percentText (successful total : nat) : string :=
  match jsDiv successful total with
  | Finite _ => showNat (roundPercent successful total)
  | PosInfinity => "Infinity"
  | NaN => "NaN"
  end.

Definition finalStepLabel (st : VideoStatus) : string :=
  match st with
  | analysis_complete => "Analysis complete"
  | analysis_partial => "Analysis partially complete"
  | _ => "Analysis failed"
  end.

(** The patch of step 10. *)
Definition finalPatch (w : World) (segments successful failedCount : nat) : VideoPatch :=
  let st := finalStatus successful segments in
  mkPatch (Some st) (Some 100) (Some (finalStepLabel st))
    (Some ("Analyzed " ++ showNat segments ++ " segments: " ++ showNat successful
           ++ " successful, " ++ showNat failedCount ++ " failed ("
           ++ percentText successful segments ++ "% success rate)"))
    None None
    (Some (Finished (elapsedSeconds w) segments successful failedCount
             (match jsDiv successful segments with
              | Finite _ =>
                  Some (Binary64.div
                          (Binary64.ofNat (roundPercent successful segments)) 100)
              | _ => None
              end)))
    None.

(** The patch written by the run's outer [catch]. *)
Definition failurePatch (w : World) (message : string) : VideoPatch :=
  mkPatch (Some analysis_failed) None (Some "Analysis failed")
    (Some ("Failed after " ++ showNat (elapsedSeconds w) ++ "s: " ++ message))
    None None (Some (Aborted (elapsedSeconds w) "Error")) (Some message).

(** The stages inside the inner [try]. *)
Definition stages (w : World) (videoId userId : string) : M Event unit :=
  (await _ <- update w (stepPatch 5 "Downloading video"
               "Retrieving video file from cloud storage") ;;
   await _ <- start DownloadVideo (downloadVideo w) ;;
   await _ <- update w (stepPatch 10 "Validating video"
               "Checking video format and extracting metadata") ;;
   await metadata <- start ValidateVideo (validateVideo w) ;;
   await _ <- update w (mkPatch None None None None None (Some metadata) None None) ;;
   await _ <- update w (stepPatch 15 "Standardizing video"
               ("Converting to standard format (" ++ md_resolution metadata
                ++ " → 1920x1080, " ++ md_frameRate metadata ++ "fps → 30fps)")) ;;
   await _ <- start StandardizeVideo (standardizeVideo w) ;;
   await _ <- update w (stepPatch 18 "Extracting audio"
               "Converting video audio to WAV format for speech analysis") ;;
   await _ <- start ExtractAudioTrack (extractAudioTrack w) ;;
   let segmentCount := plannedSegmentCount (md_duration metadata) in
   await _ <- update w (mkPatch None (Some 20) (Some "Planning segmentation (Speed Optimized)")
               (Some ("Will create " ++ showZ segmentCount ++ " segments of "
                      ++ showNat SEGMENT_DURATION
                      ++ " seconds each for faster processing"))
               (Some segmentCount) None None None) ;;
   await _ <- update w (stepPatch 25 "Creating video segments"
               ("Splitting video into " ++ showZ segmentCount ++ " optimized "
                ++ showNat SEGMENT_DURATION ++ "s segments for faster analysis")) ;;
   await segments <- start SegmentVideo (segmentVideo (segmenter w) userId videoId) ;;
   let n := List.length segments in
   await _ <- update w (stepPatch 35 "Verifying segment availability"
               ("Ensuring all " ++ showNat n ++ " segments are ready for AI analysis")) ;;
   await _ <- start VerifySegments (verifyAllSegmentsReady w) ;;
   await _ <- update w (progressOnly 40) ;;
   await _ <- update w (stepPatch 45 "Storing segment metadata"
               ("Saving " ++ showNat n ++ " segment records to database")) ;;
   await _ <- start (StoreSegments n) (batchCommit w) ;;
   await _ <- update w (progressOnly 60) ;;
   await _ <- update w (stepPatch 65 "Initializing AI services"
               "Setting up self-hosted AI service (Whisper + YOLO + CLIP)") ;;
   await _ <- start InitAnalyzers (initAnalyzers w) ;;
   await _ <- update w (progressOnly 70) ;;
   await _ <- update w (stepPatch 70 "AI Analysis (Self-Hosted Parallel Processing)"
               ("Running parallel self-hosted AI analysis on " ++ showNat n
                ++ " segments")) ;;
   await c <- analyzeSegments w segments ;;
   update w (finalPatch w n (successfulSegments c) (failedSegments c)))%M.

(** [downloadedVideoPath] is set: the download of step 1 was reached and
    has returned. *)
Definition downloaded (w : World) : bool :=
  match videoUpdate w (stepPatch 5 "Downloading video"
                         "Retrieving video file from cloud storage"),
        downloadVideo w with
  | Ok _, Ok _ => true
  | _, _ => false
  end.

(** The [finally] block: [videoProcessor.cleanup] is called when there is
    a local file to remove; it does not throw. *)
Definition cleanupFiles (w : World) : M Event unit :=
  if downloaded w then emit Cleanup else ret tt.

(** [processVideoInBackground]: the stages, the [finally] that cleans up
    the local files, and the outer [catch] that records the failure. *)
Definition processVideoInBackground (w : World) (videoId userId : string)
    : M Event unit :=
  tryCatch
    (tryFinally (stages w videoId userId) (cleanupFiles w))
    (fun message =>
       tryCatch (update w (failurePatch w message)) (fun _ => ret tt)).

(** The patch that [POST] writes before it answers. *)
Definition initialPatch : VideoPatch :=
  mkPatch (Some analyzing) (Some 0) (Some "Initializing analysis...")
    (Some "Setting up video processing pipeline") None None None None.

(** [POST]: the answer, and the log of the request together with the
    background run it starts (the run is detached in the source; the log
    lists its events after those of the request). *)
Definition POST (w : World) (videoId userId : option string)
    : Response unit * list Event :=
  match videoId, userId with
  | Some vid, Some uid =>
      if String.eqb vid "" || String.eqb uid "" then
        (RespError 400 "Missing required fields: videoId, userId", [])
      else
        match update w initialPatch with
        | (t, Throw _) => (RespError 500 "Analysis failed to start", t)
        | (t, Ok _) =>
            (RespOk tt, (t ++ traceOf (processVideoInBackground w vid uid))%list)
        end
  | _, _ => (RespError 400 "Missing required fields: videoId, userId", [])
  end.

(** *** Reading a log *)

(** The progress values persisted, in order. *)
Definition progressValues (t : list Event) : list nat :=
  List.flat_map (fun e => match e with
                          | Persist p => match p_analysisProgress p with
                                         | Some n => [n]
                                         | None => []
                                         end
                          | _ => []
                          end) t.

(** The stored document after the persists of a log. *)
Definition documentAfter (doc : VideoPatch) (t : list Event) : VideoPatch :=
  List.fold_left (fun d e => match e with Persist p => applyPatch d p | _ => d end)
                 t doc.

(** A persist carries a step description of its own. *)
Definition describesStep (p : VideoPatch) : bool :=
  match p_currentStep p, p_stepDetails p with
  | None, None => false
  | _, _ => true
  end.

(** The marker a stage persists before its work: the step label and the
    range of its progress value. *)
Definition stageLabel (t : Task) : string :=
  match t with
  | DownloadVideo => "Downloading video"
  | ValidateVideo => "Validating video"
  | StandardizeVideo => "Standardizing video"
  | ExtractAudioTrack => "Extracting audio"
  | SegmentVideo => "Creating video segments"
  | VerifySegments => "Verifying segment availability"
  | StoreSegments _ => "Storing segment metadata"
  | InitAnalyzers => "Initializing AI services"
  | AnalyzeAudio _ | AnalyzeVisual _ | SaveSegment _ =>
      "AI Analysis (Self-Hosted Parallel Processing)"
  end.

Definition stageProgress (t : Task) (pct : nat) : bool :=
  match t with
  | DownloadVideo => pct =? 5
  | ValidateVideo => pct =? 10
  | StandardizeVideo => pct =? 15
  | ExtractAudioTrack => pct =? 18
  | SegmentVideo => pct =? 25
  | VerifySegments => pct =? 35
  | StoreSegments _ => pct =? 45
  | InitAnalyzers => pct =? 65
  | AnalyzeAudio _ | AnalyzeVisual _ | SaveSegment _ => (70 <=? pct) && (pct <=? 95)
  end.

(** The document shows the marker of task [t]. *)
Definition showsMarker (doc : VideoPatch) (t : Task) : Prop :=
  p_currentStep doc = Some (stageLabel t) /\
  exists pct, p_analysisProgress doc = Some pct /\ stageProgress t pct = true.

(** The segments a log analyzed and the placeholders it stored. *)
Definition analysesStarted (t : list Event) : list nat :=
  List.flat_map (fun e => match e with Start (AnalyzeVisual n) => [n] | _ => [] end) t.

Definition storedBatches (t : list Event) : list nat :=
  List.flat_map (fun e => match e with Start (StoreSegments n) => [n] | _ => [] end) t.

Definition placeholdersStored (t : list Event) : nat :=
  list_sum (storedBatches t).

End Trigger.

(** ** Reading the state of a session's chunks off the bucket *)

(** Chunk [i] of the session is an object of the bucket. *)
Definition chunkPresent (b : Bucket) (uid sid : string) (i : nat) : bool :=
  bool_decide (generateChunkPath uid sid i ∈ objects b).

(** How many of the first [n] chunk objects the bucket holds. *)
Definition presentCount (b : Bucket) (uid sid : string) (n : nat) : nat :=
  List.length (List.filter (chunkPresent b uid sid) (List.seq 0 n)).

(** What the existence check says about chunk [i]: [true] only when it
    answers and finds the object. *)
Definition found (b : Bucket) (uid sid : string) (i : nat) : bool :=
  match fileExists b (generateChunkPath uid sid i) with
  | Ok true => true
  | _ => false
  end.

(** The session document with other stored counters. *)
Definition setCounters (done failedSet existing : list nat) (pct : nat)
    (s : UploadSession) : UploadSession :=
  mkSession (userId s) (fileName s) (fileSize s) (fileType s) (totalChunks s)
    (chunkSize s) done failedSet existing (status s) pct (videoId s) (error s)
    (expiresAt s).

(** ** Reading the outcome of a finalize call *)

(** The number of compose calls among the effects of a call. *)
Definition composeCalls (effects : list Finalize.Effect) : nat :=
  List.length (List.filter Finalize.isCombine effects).

(** The status and the stored video id of a session in a state. *)
Definition sessionStatus (st : Finalize.State) (sid : string) : option SessionStatus :=
  status <$> (Finalize.sessions st !! sid).

Definition sessionVideoId (st : Finalize.State) (sid : string) : option string :=
  Finalize.sessions st !! sid ≫= videoId.

(** The state with the status and stored video id of session [sid]
    replaced. *)
Definition restampSession (sid : string) (st' : SessionStatus) (vid : option string)
    (st : Finalize.State) : Finalize.State :=
  Finalize.mkState (alter (Finalize.restamp st' vid) sid (Finalize.sessions st))
                   (Finalize.videos st) (Finalize.bucket st).

(** ** The segment the loop produces at index [i] *)

(** The record pushed in turn [i] of the segmentation loop of a video of
    duration [D], when its extraction goes through. *)
Definition segmentAt (userId videoId : string) (D : Q) (i : nat)
    : Segmenter.VideoSegment :=
  let startTime := (inject_Z (Z.of_nat i) * 5)%Q in
  let endTime := Qmin (inject_Z (Z.of_nat (i + 1)) * 5)%Q D in
  let name := Segmenter.segmentFileName (i + 1) in
  let cloudDir := "videos/" ++ userId ++ "/" ++ videoId ++ "/segments/" in
  Segmenter.mkSegment (i + 1) startTime (startTime + (endTime - startTime))%Q
    (endTime - startTime)%Q
    (Segmenter.outputDir ++ "/" ++ name ++ ".mp4")
    (Segmenter.outputDir ++ "/" ++ name ++ ".wav")
    (cloudDir ++ name ++ "_thumbnail.jpg")
    (cloudDir ++ name ++ ".mp4").

(** ** Reading the outcome of the per-segment analysis *)

(** The audio call, the visual call (with its retries) and the save of a
    segment go through. *)
Definition audioSucceeds (w : Trigger.World) (segment : Segmenter.VideoSegment) : bool :=
  match Trigger.analyzeAudioSegment w (Segmenter.segmentNumber segment) with
  | Ok _ => true
  | Throw _ => false
  end.

Definition visualSucceeds (w : Trigger.World) (segment : Segmenter.VideoSegment) : bool :=
  match outcomeOf (VisualAnalyzer.analyzeVideoSegment
                     (Trigger.downloadSegment w (Segmenter.segmentNumber segment))
                     (Trigger.visualService w (Segmenter.segmentNumber segment))
                     (Segmenter.cloudStoragePath segment)) with
  | Ok _ => true
  | Throw _ => false
  end.

Definition analysisSucceeds (w : Trigger.World) (segment : Segmenter.VideoSegment) : bool :=
  audioSucceeds w segment && visualSucceeds w segment.

Definition saveSucceeds (w : Trigger.World) (segment : Segmenter.VideoSegment) : bool :=
  match Trigger.segmentSet w (Segmenter.segmentNumber segment) with
  | Ok _ => true
  | Throw _ => false
  end.

(** The segment is analyzed and its result persisted. *)
Definition segmentSucceeds (w : Trigger.World) (segment : Segmenter.VideoSegment) : bool :=
  analysisSucceeds w segment && saveSucceeds w segment.

(** The segment numbers whose audio analysis a log starts, in order. *)
Definition audioStarted (t : list Trigger.Event) : list nat :=
  List.flat_map (fun e => match e with
                          | Trigger.Start (Trigger.AnalyzeAudio n) => [n]
                          | _ => []
                          end) t.

(** The counters after the segments [l], starting from [c]. *)
Definition countSegments (w : Trigger.World) (l : list Segmenter.VideoSegment)
    (c : Trigger.Counters) : Trigger.Counters :=
  Trigger.mkCounters
    (Trigger.completedSegments c + List.length l)
    (Trigger.successfulSegments c + List.length (List.filter (segmentSucceeds w) l))
    (Trigger.failedSegments c
     + List.length (List.filter (fun s => negb (segmentSucceeds w s)) l)).

(** What saving one result does to the counters and to the log. *)
Definition saved (w : Trigger.World) (c : Trigger.Counters)
    (result : Segmenter.VideoSegment * bool) : Trigger.Counters :=
  if snd result && saveSucceeds w (fst result) then
    Trigger.mkCounters (Trigger.completedSegments c)
      (Trigger.successfulSegments c + 1) (Trigger.failedSegments c)
  else
    Trigger.mkCounters (Trigger.completedSegments c)
      (Trigger.successfulSegments c) (Trigger.failedSegments c + 1).

Definition savedLog (result : Segmenter.VideoSegment * bool) : list Trigger.Event :=
  if snd result
  then [Trigger.Start (Trigger.SaveSegment (Segmenter.segmentNumber (fst result)))]
  else [].

(** A segment paired with the verdict of its analysis. *)
Definition verdict (w : Trigger.World) (segment : Segmenter.VideoSegment)
    : Segmenter.VideoSegment * bool :=
  (segment, analysisSucceeds w segment).

(** ** The same computations on the hardware binary64 numbers

    The rounded quotients of [Binary64] computed once more with the
    primitive floating-point numbers ([PrimFloat], IEEE binary64), for
    comparison. *)

Definition binary64OfNat (n : nat) : float :=
  PrimFloat.of_uint63 (Uint63.of_Z (Z.of_nat n)).

(** The rational a finite floating-point number denotes. *)
Definition floatValue (x : float) : Q :=
  match Prim2SF x with
  | S754_finite negative m e =>
      let v := (inject_Z (Z.pos m) * Binary64.pow2 e)%Q in
      if negative then (- v)%Q else v
  | _ => 0%Q
  end.

(** [(a / b) * k] on floating-point numbers. *)
Definition scaledFloat (a b k : nat) : float :=
  PrimFloat.mul (PrimFloat.div (binary64OfNat a) (binary64OfNat b)) (binary64OfNat k).

Definition finalStatusBinary64 (successful total : nat) : VideoStatus :=
  let successRate := PrimFloat.div (binary64OfNat successful) (binary64OfNat total) in
  if PrimFloat.leb 0x1.ccccccccccccdp-1%float successRate then analysis_complete
  else if PrimFloat.leb 0x1p-1%float successRate then analysis_partial
  else analysis_failed.

(** Both computations agree on every pair of counts up to [bound]. *)
Definition agreeUpTo (bound : nat) : bool :=
  List.forallb
    (fun n => List.forallb
                (fun s => bool_decide (finalStatusBinary64 s n = Trigger.finalStatus s n))
                (List.seq 0 (S bound)))
    (List.seq 0 (S bound)).

(** [(a / b) * k] has the same value in both computations, for every
    [a <= b] with [1 <= b <= bound]. *)
Definition scaledAgreeUpTo (k bound : nat) : bool :=
  List.forallb
    (fun b => List.forallb
                (fun a => Qeq_bool
                            (floatValue (scaledFloat a b k))
                            (Binary64.mul
                               (Binary64.div (Binary64.ofNat a) (Binary64.ofNat b))
                               (inject_Z (Z.of_nat k))))
                (List.seq 0 (S b)))
    (List.seq 1 bound).

(** ** The progress contract, as a check on logs *)

(** The progress value a document shows (0 when it has none). *)
Definition docProgress (doc : Trigger.VideoPatch) : nat :=
  match Trigger.p_analysisProgress doc with
  | Some n => n
  | None => 0
  end.

(** A persist that carries a progress value is in order for a document
    when it does not lower the value the document shows, and either
    carries a step description of its own or is one of the bare bumps to
    40, 60 and 70. *)
Definition persistInOrder (doc p : Trigger.VideoPatch) : Prop :=
  match Trigger.p_analysisProgress p with
  | Some n =>
      docProgress doc <= n
      /\ (Trigger.describesStep p = true \/ n = 40 \/ n = 60 \/ n = 70)
  | None => True
  end.

(** A log keeps the contract from a document on: its persists are in
    order, and whenever a task starts the document shows the marker of
    that task. *)
Fixpoint keepsContract (doc : Trigger.VideoPatch) (t : list Trigger.Event) : Prop :=
  match t with
  | [] => True
  | Trigger.Persist p :: t' =>
      persistInOrder doc p /\ keepsContract (Trigger.applyPatch doc p) t'
  | Trigger.Start task :: t' =>
      Trigger.showsMarker doc task /\ keepsContract doc t'
  | _ :: t' => keepsContract doc t'
  end.

(** The document shows step [cur] at progress [n]. *)
Definition marker (cur : string) (n : nat) (doc : Trigger.VideoPatch) : Prop :=
  Trigger.p_currentStep doc = Some cur /\ Trigger.p_analysisProgress doc = Some n.

Definition analysisLabel : string := "AI Analysis (Self-Hosted Parallel Processing)".

(** The document shows the analysis step at a progress between 70 and
    [hi]. *)
Definition analysing (hi : nat) (doc : Trigger.VideoPatch) : Prop :=
  Trigger.p_currentStep doc = Some analysisLabel
  /\ exists n, Trigger.p_analysisProgress doc = Some n /\ 70 <= n /\ n <= hi.

(** A computation keeps the contract from every document that satisfies
    [P], and when it returns [a] the document satisfies [Q a]. *)
Definition keeps {A} (P : Trigger.VideoPatch -> Prop) (m : M Trigger.Event A)
    (Q : A -> Trigger.VideoPatch -> Prop) : Prop :=
  forall doc, P doc ->
    keepsContract doc (traceOf m)
    /\ forall a, outcomeOf m = Ok a -> Q a (Trigger.documentAfter doc (traceOf m)).

(** A log of the analysis stage proper: no persist, and only analysis and
    save tasks started. *)
Definition analysisEvent (e : Trigger.Event) : Prop :=
  match e with
  | Trigger.Persist _ => False
  | Trigger.Start task => Trigger.stageLabel task = analysisLabel
  | _ => True
  end.

(** A persist of a progress value without any step description. *)
Definition bareProgress (e : Trigger.Event) : bool :=
  match e with
  | Trigger.Persist p =>
      match Trigger.p_analysisProgress p with
      | Some _ => negb (Trigger.describesStep p)
      | None => false
      end
  | _ => false
  end.

(** ** Runs whose sequential stages all go through *)

(** Every persist and every call of the sequential stages succeeds, the
    validation probe and the segmenter's probe both report duration [D],
    and every segment extraction goes through.  Nothing is assumed of the
    per-segment analysis. *)
Definition stagesSucceed (w : Trigger.World) (D : Q) : Prop :=
  (forall p, Trigger.videoUpdate w p = Ok tt)
  /\ Trigger.downloadVideo w = Ok tt
  /\ (exists metadata, Trigger.validateVideo w = Ok metadata
                       /\ Trigger.md_duration metadata = D)
  /\ Trigger.standardizeVideo w = Ok tt
  /\ Trigger.extractAudioTrack w = Ok tt
  /\ Segmenter.getVideoDuration (Trigger.segmenter w) = Ok D
  /\ (forall n, Segmenter.extraction (Trigger.segmenter w) n = Ok tt)
  /\ Trigger.verifyAllSegmentsReady w = Ok tt
  /\ Trigger.batchCommit w = Ok tt
  /\ Trigger.initAnalyzers w = Ok tt.

(** The segments of a video of duration [D]. *)
Definition segmentsOf (userId videoId : string) (D : Q) : list Segmenter.VideoSegment :=
  List.map (segmentAt userId videoId D)
           (List.seq 0 (Z.to_nat (Segmenter.segmentCount D))).

(** An event that neither persists an expected segment count nor stores
    segment records. *)
Definition leavesPlanAlone (e : Trigger.Event) : Prop :=
  match e with
  | Trigger.Persist p => Trigger.p_segmentCount p = None
  | Trigger.Start (Trigger.StoreSegments _) => False
  | _ => True
  end.

(** ** The shared upload constants and the initiate route *)

(** [String(n)] for a byte count. *)
Definition showN (n : N) : string :=
  NilEmpty.string_of_uint (N.to_uint n).

(** The number a run of decimal digits denotes ([parseInt(s, 10)] on a
    string of digits); leading zeros do not count. *)
Definition digitsValue (s : string) : option nat :=
  option_map Nat.of_uint (NilEmpty.uint_of_string s).

Definition SUPPORTED_VIDEO_TYPES : list string :=
  ["video/mp4"; "video/quicktime"; "video/x-msvideo"; "video/webm"; "video/x-ms-wmv"].

Definition MAX_FILE_SIZE : N := 5 * 1024 * 1024 * 1024.
Definition MIN_FILE_SIZE : N := 1024.
Definition UPLOAD_SESSION_EXPIRY_DAYS : nat := 30.

(** [calculateChunkSize(fileSize)]: 5 MB chunks below 1 GB, 10 MB chunks
    from 1 GB on. *)
Definition calculateChunkSize (fileSize : N) : N :=
  if (fileSize <? 1024 * 1024 * 1024)%N then (5 * 1024 * 1024)%N
  else (10 * 1024 * 1024)%N.

(** [Math.ceil(a / b)] for byte counts with [0 < b].  For the sizes the
    route accepts the binary64 quotient lies within [2^-43] of the exact
    one, while a quotient that is not an integer is at least [2^-24] away
    from one, so the ceiling of the exact quotient is the one computed. *)
Definition ceilDiv (a b : N) : N := ((a + b - 1) / b)%N.

(** The object that [VideoProcessor.downloadVideo] reads. *)
Definition downloadSource (userId videoId : string) : string :=
  "videos/" ++ userId ++ "/" ++ videoId ++ ".mp4".

Module Initiate.

Record Request := mkRequest {
  authorization : option string;
  r_fileName : option string;
  r_fileSize : option N;
  r_fileType : option string
}.

Record Data := mkData {
  d_uploadSessionId : string;
  d_chunkUrls : list string;
  d_totalChunks : nat;
  d_chunkSize : N;
  d_expiresAt : nat
}.

(** The environment of one call: token verification, the id that
    [uuidv4()] draws, the signing of upload URLs, and the instant of the
    call in milliseconds (the clock is read as one instant for the whole
    call). *)
Record Env := mkEnv {
  verifyIdToken : Verifier;
  uuidv4 : string;
  signedUrl : Signer;
  now : nat
}.

(** [generateSignedUrls]: one URL per chunk index, in index order, each
    expiring [SIGNED_URL_EXPIRY_HOURS] after the instant [now]. *)
Definition generateSignedUrls (signedUrl : Signer) (now : nat)
    (userId sessionId : string) (totalChunks : nat) : list string :=
  List.map (fun i => signedUrl (generateChunkPath userId sessionId i)
                               (now + signedUrlLifetime))
           (List.seq 0 totalChunks).

Definition sessionLifetime : nat := UPLOAD_SESSION_EXPIRY_DAYS * 24 * 60 * 60 * 1000.
Definition urlLifetime : nat := SIGNED_URL_EXPIRY_HOURS * 60 * 60 * 1000.

Definition missingFields : string :=
  "Missing required fields: fileName, fileSize, fileType".

(** The session document the route creates. *)
Definition sessionDoc (env : Env) (uid fileName : string) (fileSize : N)
    (fileType : string) : UploadSession :=
  let chunkSize := calculateChunkSize fileSize in
  mkSession uid fileName fileSize fileType
    (N.to_nat (ceilDiv fileSize chunkSize)) chunkSize [] [] []
    initializing 0 None None (now env + sessionLifetime).

(** [POST]: the answer and the new contents of [upload_sessions].  File
    sizes are whole byte counts. *)
Definition POST (env : Env) (req : Request) (sessions : gmap string UploadSession)
    : Response Data * gmap string UploadSession :=
  match authenticate (verifyIdToken env) (authorization req) with
  | inl (code, message) => (RespError code message, sessions)
  | inr uid =>
    match r_fileName req, r_fileSize req, r_fileType req with
    | Some fileName, Some fileSize, Some fileType =>
      if String.eqb fileName "" || (fileSize =? 0)%N || String.eqb fileType "" then
        (RespError 400 missingFields, sessions)
      else if negb (List.existsb (String.eqb fileType) SUPPORTED_VIDEO_TYPES) then
        (RespError 400 ("Unsupported file type: " ++ fileType), sessions)
      else if (fileSize <? MIN_FILE_SIZE)%N || (MAX_FILE_SIZE <? fileSize)%N then
        (RespError 400 ("File size must be between " ++ showN MIN_FILE_SIZE
                        ++ " bytes and " ++ showN MAX_FILE_SIZE ++ " bytes"),
         sessions)
      else
        let doc := sessionDoc env uid fileName fileSize fileType in
        let uploadSessionId := uuidv4 env in
        let chunkUrls :=
          generateSignedUrls (signedUrl env) (now env) uid uploadSessionId (totalChunks doc) in
        (RespOk (mkData uploadSessionId chunkUrls (totalChunks doc) (chunkSize doc)
                   (now env + urlLifetime)),
         <[uploadSessionId := doc]> sessions)
    | _, _, _ => (RespError 400 missingFields, sessions)
    end
  end.

End Initiate.

(** ** The upload hook of the web client ([useUpload]) *)

Module Client.

(** Why [validateFile] turns a file down (the texts shown to the user are
    left out). *)
Inductive Rejection := UnsupportedType | TooLarge | TooSmall.

(** [validateFile(file)]: [None] when the file may be uploaded. *)
Definition validateFile (fileType : string) (fileSize : N) : option Rejection :=
  if negb (List.existsb (String.eqb fileType) SUPPORTED_VIDEO_TYPES) then
    Some UnsupportedType
  else if (MAX_FILE_SIZE <? fileSize)%N then Some TooLarge
  else if (fileSize <? MIN_FILE_SIZE)%N then Some TooSmall
  else None.

(** The byte range [file.slice(start, end)] that [uploadChunkWithProgress]
    sends as chunk [chunkIndex]. *)
Definition chunkStart (chunkSize : N) (chunkIndex : nat) : N :=
  (N.of_nat chunkIndex * chunkSize)%N.

Definition chunkEnd (chunkSize fileSize : N) (chunkIndex : nat) : N :=
  N.min (chunkStart chunkSize chunkIndex + chunkSize) fileSize.

(** A parsed JSON value, as far as the hook looks at one. *)
Inductive Json :=
| JBool (b : bool)
| JString (s : string)
| JNumber (n : N)
| JObject (fields : JsonFields)
with JsonFields :=
| NoField
| Field (name : string) (value : Json) (rest : JsonFields).

Definition statusName (st : VideoStatus) : string :=
  match st with
  | uploaded => "uploaded"
  | analyzing => "analyzing"
  | analysis_complete => "analysis_complete"
  | analysis_partial => "analysis_partial"
  | analysis_failed => "analysis_failed"
  end.

(** The body the finalize route sends with a success, as
    [apiClient.finalizeUpload] returns it: the fields [success], [message]
    and [data], the video id being a field of [data]. *)
Definition finalizeBody (d : Finalize.Data) : Json :=
  JObject
    (Field "success" (JBool true)
    (Field "message" (JString "Video uploaded successfully, analysis started")
    (Field "data"
       (JObject
          (Field "videoId" (JString (Finalize.d_videoId d))
          (Field "status" (JString (statusName (Finalize.d_status d)))
          (Field "storageLocation" (JString (Finalize.d_storageLocation d))
          (Field "fileName" (JString (Finalize.d_fileName d))
          (Field "fileSize" (JNumber (Finalize.d_fileSize d))
          (Field "analysisTriggered" (JBool (Finalize.d_analysisTriggered d))
           NoField)))))))
     NoField))).

Fixpoint lookupField (name : string) (fields : JsonFields) : option Json :=
  match fields with
  | NoField => None
  | Field n value rest => if String.eqb n name then Some value else lookupField name rest
  end.

(** [value.name]; [None] is [undefined]. *)
Definition field (name : string) (value : Json) : option Json :=
  match value with
  | JObject fields => lookupField name fields
  | _ => None
  end.

(** [if (value)]. *)
Definition truthy (value : option Json) : bool :=
  match value with
  | Some (JBool b) => b
  | Some (JString s) => negb (String.eqb s "")
  | Some (JNumber n) => negb (n =? 0)%N
  | Some (JObject _) => true
  | None => false
  end.

(** What [uploadFile] does once finalize has answered: it marks the upload
    as analyzing and starts [pollAnalysisProgress] for a video id, marks
    it as completed, or throws. *)
Inductive FinalizeStep :=
| StartPolling (videoId : Json)
| MarkCompleted
| ThrowError.

(** The steps of [uploadFile] after [apiClient.finalizeUpload], whose
    [makeRequest] throws on a status that is not ok. *)
Definition afterFinalize (answer : Response Finalize.Data) : FinalizeStep :=
  match answer with
  | RespError _ _ => ThrowError
  | RespOk d =>
      let finalizeResponse := finalizeBody d in
      if negb (truthy (field "success" finalizeResponse)) then ThrowError
      else
        let videoId := field "videoId" finalizeResponse in
        match videoId with
        | Some v => if truthy videoId then StartPolling v else MarkCompleted
        | None => MarkCompleted
        end
  end.

End Client.

(** The request carries every field, the caller is [uid], and type and
    size pass the route's validation. *)
Definition initiateAccepts (env : Initiate.Env) (req : Initiate.Request)
    (uid fileName : string) (fileSize : N) (fileType : string) : Prop :=
  authenticate (Initiate.verifyIdToken env) (Initiate.authorization req) = inr uid
  /\ Initiate.r_fileName req = Some fileName
  /\ fileName <> ""
  /\ Initiate.r_fileSize req = Some fileSize
  /\ Initiate.r_fileType req = Some fileType
  /\ In fileType SUPPORTED_VIDEO_TYPES
  /\ (MIN_FILE_SIZE <= fileSize <= MAX_FILE_SIZE)%N.

(** ** Sessions whose chunk sets stay within the planned chunks *)

(** Neither set lists an index twice, the two sets share none, every
    listed index is below [totalChunks], and the stored progress is a
    percentage. *)
Definition withinTotal (s : UploadSession) : Prop :=
  List.NoDup (chunksCompleted s)
  /\ List.NoDup (chunksFailed s)
  /\ (forall i, ~ (In i (chunksCompleted s) /\ In i (chunksFailed s)))
  /\ (forall i, In i (chunksCompleted s) \/ In i (chunksFailed s) -> i < totalChunks s)
  /\ progress s <= 100.

(** The requests that report on session [sid] report an index the
    session plans. *)
Definition reportsPlanned (sid : string) (total : nat) (reqs : list Progress.Request)
    : Prop :=
  forall r i, In r reqs -> Progress.sessionId r = Some sid ->
              Progress.chunkIndex r = Some i -> i < total.

(** ** Waiting for uploaded segments to become visible *)

Module Verify.

Inductive Event :=
| Check (attempt : nat)
| Wait (milliseconds : nat).

(** The [while (attempts < maxAttempts)] loop of
    [VideoSegmenter.verifySegmentUpload] ([maxAttempts = 5],
    [retryDelay = 1000]), with [remaining] turns left; [answers n] is
    what the [n]-th call of [file.exists()] meets. *)
Definition uploadAttempts : nat := 5.
Definition uploadRetryDelay : nat := 1000.

Fixpoint uploadLoop (answers : nat -> Result bool) (cloudPath : string)
    (remaining attempts : nat) : M Event unit :=
  match remaining with
  | O => throw ("Segment verification failed after " ++ showNat uploadAttempts
                ++ " attempts: " ++ cloudPath)
  | S remaining' =>
      bind (emit (Check (attempts + 1))) (fun _ =>
      bind (call (answers (attempts + 1))) (fun found =>
      if (found : bool) then ret tt
      else if attempts + 1 <? uploadAttempts then
        bind (emit (Wait uploadRetryDelay)) (fun _ =>
        uploadLoop answers cloudPath remaining' (attempts + 1))
      else uploadLoop answers cloudPath remaining' (attempts + 1)))
  end.

(** [verifySegmentUpload(cloudPath)] with the bucket configured: the loop
    inside the method's [try], and the [catch] that wraps what is
    thrown. *)
Definition verifySegmentUpload (answers : nat -> Result bool) (cloudPath : string)
    : M Event unit :=
  tryCatch (uploadLoop answers cloudPath uploadAttempts 0)
           (fun m => throw ("Segment verification failed: Error: " ++ m)).

(** What one probe of the trigger route's [verifyAllSegmentsReady] finds:
    no object, or an object of the given size. *)
Inductive Probe :=
| Absent
| Sized (bytes : N).

Definition readyAttempts : nat := 10.
Definition readyRetryDelay : nat := 2000.

(** The error thrown inside the [try] of one turn, if any. *)
Definition probeFailure (segmentPath : string) (probe : Result Probe) : option string :=
  match probe with
  | Throw m => Some m
  | Ok Absent => Some ("Segment file does not exist: " ++ segmentPath)
  | Ok (Sized bytes) =>
      if (1000 <? bytes)%N then None
      else Some ("Segment file too small: " ++ showN bytes ++ " bytes")
  end.

(** The body of [segments.map(async (segment) => ...)] in
    [verifyAllSegmentsReady]: the loop over at most ten probes of one
    segment; [probes n] is what the [n]-th probe meets ([exists] and
    [getMetadata] together). *)
Fixpoint readyLoop (probes : nat -> Result Probe) (segmentNumber : nat)
    (segmentPath : string) (remaining attempts : nat) : M Event unit :=
  match remaining with
  | O => ret tt
  | S remaining' =>
      bind (emit (Check (attempts + 1))) (fun _ =>
      match probeFailure segmentPath (probes (attempts + 1)) with
      | None => ret tt
      | Some m =>
          if attempts + 1 <? readyAttempts then
            bind (emit (Wait readyRetryDelay)) (fun _ =>
            readyLoop probes segmentNumber segmentPath remaining' (attempts + 1))
          else
            throw ("Segment " ++ showNat segmentNumber ++ " verification failed after "
                   ++ showNat readyAttempts ++ " attempts: Error: " ++ m)
      end)
  end.

Definition verifySegmentReady (probes : nat -> Result Probe) (segmentNumber : nat)
    (segmentPath : string) : M Event unit :=
  readyLoop probes segmentNumber segmentPath readyAttempts 0.



End Verify.

(** The thumbnail path that the run writes on the record of segment
    [segmentNumber] when it stores the segment metadata (step 7 of
    [processVideoInBackground]). *)
Definition recordedThumbnailPath (userId videoId : string) (segmentNumber : nat) : string :=
  "videos/" ++ userId ++ "/" ++ videoId ++ "/thumbnails/segment_"
  ++ padStart0 3 (showNat segmentNumber) ++ ".jpg".

(** Digits only. *)
Definition isDigit (c : ascii) : bool :=
  let n := nat_of_ascii c in (48 <=? n) && (n <=? 57).

Fixpoint digitsOnly (s : string) : bool :=
  match s with
  | EmptyString => true
  | String c rest => isDigit c && digitsOnly rest
  end.

(** ** Reading the outcome of an attempt of the visual analyzer *)

(** The attempt got a response with a status in the 2xx range
    ([response.ok]) whose body could be read: the [try] block returns the
    result. *)
Definition answersOk (outcome : VisualAnalyzer.AttemptOutcome) : bool :=
  match outcome with
  | VisualAnalyzer.Responded status _ _ => (200 <=? status) && (status <? 300)
  | VisualAnalyzer.Unreadable _ => false
  | VisualAnalyzer.Failed _ => false
  end.

(** The error the [catch] block of an attempt receives when the attempt
    is not served and does not [continue] from inside the [try] block. *)
Definition caughtError (outcome : VisualAnalyzer.AttemptOutcome) : VisualAnalyzer.JsError :=
  match outcome with
  | VisualAnalyzer.Responded status statusText _ =>
      VisualAnalyzer.mkError "Error"
        ("AI service responded with status " ++ showNat status ++ ": " ++ statusText)
  | VisualAnalyzer.Unreadable error => error
  | VisualAnalyzer.Failed error => error
  end.

(** The prefix of every error that leaves the retry loop, and of every
    error that leaves [analyzeVideoSegment]. *)
Definition exhaustedPrefix : string :=
  "Self-hosted visual analysis failed after 3 attempts: ".


(** ** Scene context and object categories of the visual analyzer *)

Module Scene.

(** [terms.some(term => name.includes(term))]. *)
Definition anyIncludes (terms : list string) (name : string) : bool :=
  List.existsb (fun term => str_includes term name) terms.

(** [categorizeObject(objectName)]. *)
Definition categorizeObject (objectName : string) : string :=
  let objectName_lower := toLowerCase objectName in
  if anyIncludes ["chair"; "table"; "desk"; "sofa"; "couch"; "bed"; "cabinet"]
       objectName_lower then "furniture"
  else if anyIncludes ["computer"; "laptop"; "phone"; "monitor"; "screen"; "keyboard";
                       "mouse"] objectName_lower then "technology"
  else if anyIncludes ["shirt"; "jacket"; "hat"; "glasses"; "bag"; "backpack"]
            objectName_lower then "clothing"
  else if anyIncludes ["cup"; "bottle"; "food"; "plate"; "bowl"; "kitchen"; "cooking"]
            objectName_lower then "kitchen"
  else "general".

Record SceneContext := mkSceneContext {
  location : string;
  setting : string;
  mood : string
}.

(** [names.some(name => terms.some(term => name.includes(term)))]. *)
Definition someNamed (terms names : list string) : bool :=
  List.existsb (anyIncludes terms) names.

(** [analyzeSceneContext(objects, activities)], on the names of the
    detected objects and activities. *)
Definition analyzeSceneContext (objects activities : list string) : SceneContext :=
  let objectNames := List.map toLowerCase objects in
  let location :=
    if someNamed ["kitchen"; "cooking"; "food"; "dining"] objectNames then "home"
    else if someNamed ["computer"; "monitor"; "desk"; "office"] objectNames then "office"
    else if someNamed ["outdoor"; "tree"; "sky"; "building"] objectNames then "outdoor"
    else if someNamed ["couch"; "tv"; "home"; "living"] objectNames then "home"
    else "indoor" in
  let activityNames := List.map toLowerCase activities in
  let setting :=
    if someNamed ["presentation"; "presenting"; "teaching"] activityNames
    then "presentation"
    else if someNamed ["meeting"; "discussion"; "talking"] activityNames then "meeting"
    else if someNamed ["interview"; "questioning"] activityNames then "interview"
    else "casual" in
  let mood :=
    if String.eqb setting "presentation" || String.eqb setting "meeting"
    then "professional"
    else if String.eqb setting "interview" then "serious"
    else "casual" in
  mkSceneContext location setting mood.

(** The [searchableText] the run stores with the analysis of a segment:
    the transcript, the object and activity names, the location and the
    setting, without the empty texts and the text ['unknown'] (the filter
    [text && text !== 'unknown']), joined by blanks. *)
Definition kept (text : string) : bool :=
  negb (String.eqb text "") && negb (String.eqb text "unknown").

Definition searchableText (transcript : string) (objects activities : list string)
    (context : SceneContext) : string :=
  String.concat " "
    (List.filter kept
       ((transcript :: objects) ++ activities ++ [location context; setting context])).

End Scene.

(** ** The search route ([POST] on the segments of one video) *)

Module Search.

(** One document of the [segments] subcollection, as far as the route reads
    it; a field the document lacks is [None]. *)
Record SegmentDoc := mkSegmentDoc {
  s_id : string;
  s_searchableText : option string;
  s_startTime : option Q;
  s_endTime : option Q;
  s_transcript : option string;
  s_objects : option (list (option string));
  s_activities : option (list (option string))
}.

Inductive Kind := scene | audio | object | activity.

Record Hit := mkHit {
  h_type : Kind;
  h_id : string;
  h_startTime : Q;
  h_endTime : Q;
  h_description : string;
  h_source : string
}.

Record Data := mkData {
  d_query : string;
  d_results : list Hit;
  d_total : nat
}.

Record Request := mkRequest {
  authorization : option string;
  videoId : string;
  searchQuery : option string
}.

Record State := mkState {
  videos : gmap string Finalize.VideoDoc;
  segments : gmap string (list SegmentDoc)
}.

(** [s.trim()] is empty: every character is white space (the white space
    characters of ASCII; the engine also strips those outside it). *)
Definition isSpace (c : ascii) : bool :=
  let n := nat_of_ascii c in ((9 <=? n) && (n <=? 13)) || (n =? 32).

Fixpoint isBlank (s : string) : bool :=
  match s with
  | EmptyString => true
  | String c rest => isSpace c && isBlank rest
  end.

(** [text?.toLowerCase().includes(searchLower)]. *)
Definition mentions (searchLower : string) (text : option string) : bool :=
  match text with
  | Some t => str_includes searchLower (toLowerCase t)
  | None => false
  end.

(** [value || fallback] for a number. *)
Definition orNumber (value : option Q) (fallback : Q) : Q :=
  match value with
  | Some q => if Qeq_bool q 0 then fallback else q
  | None => fallback
  end.

(** The names among [items] that mention the query, joined by [', ']. *)
Definition matchingNames (searchLower : string) (items : list (option string))
    : string :=
  String.concat ", "
    (List.map (fun name => match name with Some n => n | None => "" end)
       (List.filter (mentions searchLower) items)).

Definition someMentions (searchLower : string) (items : option (list (option string)))
    : bool :=
  match items with
  | Some l => List.existsb (mentions searchLower) l
  | None => false
  end.

Definition itemsOf (items : option (list (option string))) : list (option string) :=
  match items with Some l => l | None => [] end.

Definition textOf (text : option string) : string :=
  match text with Some t => t | None => "" end.

(** The body of [segmentsSnapshot.forEach]: the hits one segment
    contributes, in the order they are pushed. *)
Definition segmentHits (searchLower : string) (segment : SegmentDoc) : list Hit :=
  let hit kind prefix description source :=
    mkHit kind (prefix ++ s_id segment) (orNumber (s_startTime segment) 0)
          (orNumber (s_endTime segment) 30) description source in
  let sceneHits :=
    if mentions searchLower (s_searchableText segment)
    then [hit scene "scene_" (textOf (s_searchableText segment)) "Visual Scene"]
    else [] in
  let audioHits :=
    if mentions searchLower (s_transcript segment)
    then [hit audio "audio_" (textOf (s_transcript segment)) "Audio Transcription"]
    else [] in
  let objectHits :=
    if someMentions searchLower (s_objects segment)
    then [hit object "object_"
            ("Objects detected: "
             ++ matchingNames searchLower (itemsOf (s_objects segment)))
            "Object Detection"]
    else [] in
  let activityHits :=
    if someMentions searchLower (s_activities segment)
    then [hit activity "activity_"
            ("Activities: "
             ++ matchingNames searchLower (itemsOf (s_activities segment)))
            "Activity Recognition"]
    else [] in
  List.app sceneHits (List.app audioHits (List.app objectHits activityHits)).

(** The documents of the [segments] subcollection of a video. *)
Definition segmentsOf (st : State) (videoId : string) : list SegmentDoc :=
  match segments st !! videoId with Some l => l | None => [] end.

(** [POST] after the caller is known: the route reads the stored documents
    and writes nothing. *)
Definition search (userId : string) (req : Request) (st : State) : Response Data :=
  match searchQuery req with
  | None => RespError 400 "Search query is required"
  | Some query =>
    if isBlank query then RespError 400 "Search query is required"
    else
      match videos st !! videoId req with
      | None => RespError 404 "Video not found"
      | Some video =>
        if negb (String.eqb (Finalize.v_userId video) userId) then
          RespError 403 "Unauthorized access to video"
        else
          let searchLower := toLowerCase query in
          let results :=
            List.flat_map (segmentHits searchLower) (segmentsOf st (videoId req)) in
          RespOk (mkData query results (List.length results))
      end
  end.

(** A token that [verifyIdToken] rejects ends in the route's only [catch]:
    status 500. *)
Definition POST (verifyIdToken : Verifier) (req : Request) (st : State)
    : Response Data :=
  match authorization req with
  | None => RespError 401 "Missing or invalid authorization header"
  | Some authHeader =>
    if String.prefix "Bearer " authHeader then
      match verifyIdToken (bearerToken authHeader) with
      | None => RespError 500 "Internal server error"
      | Some userId => search userId req st
      end
    else RespError 401 "Missing or invalid authorization header"
  end.

(** The record of a segment as the run stores it before the analysis
    (step 7 of [processVideoInBackground]). *)
Definition placeholderDoc (segment : Segmenter.VideoSegment) : SegmentDoc :=
  mkSegmentDoc (Segmenter.segmentFileName (Segmenter.segmentNumber segment))
    (Some "") (Some (Segmenter.startTime segment)) (Some (Segmenter.endTime segment))
    (Some "") (Some []) (Some []).

(** The record the run stores for a segment whose analysis succeeded, with
    the transcript of the audio analysis and the names of the objects and
    activities of the visual analysis; the scene context is the one the
    visual analyzer derives from these objects and activities. *)
Definition analysedRecord (segment : Segmenter.VideoSegment) (transcript : string)
    (objects activities : list string) : SegmentDoc :=
  mkSegmentDoc (Segmenter.segmentFileName (Segmenter.segmentNumber segment))
    (Some (Scene.searchableText transcript objects activities
             (Scene.analyzeSceneContext objects activities)))
    (Some (Segmenter.startTime segment)) (Some (Segmenter.endTime segment))
    (Some transcript) (Some (List.map Some objects)) (Some (List.map Some activities)).

End Search.

(** ** Sample inputs *)

Module Samples.

Definition verifier : Verifier :=
  fun token => if String.eqb token "token-u1" then Some "u1" else None.

Definition bearer : option string := Some "Bearer token-u1".

(** A freshly initiated session of two chunks owned by [u1]. *)
Definition session : UploadSession :=
  mkSession "u1" "clip.mp4" 10485760%N "video/mp4" 2 5242880%N [] [] []
            initializing 0 None None 5000.

Definition sessions : gmap string UploadSession := {[ "s1" := session ]}.

Definition report (i : nat) (st : string) : Progress.Request :=
  Progress.mkRequest bearer (Some "s1") (Some i) (Some st).

Definition reportSequence : list Progress.Request :=
  [report 0 "completed"; report 1 "failed"; report 0 "failed";
   report 1 "completed"; report 1 "completed"; report 0 "completed"].


(** A bucket that holds chunk 1 of session [s1] only, and a session whose
    stored counters claim that both chunks arrived. *)
Definition bucketChunk1 : Bucket :=
  mkBucket {[ generateChunkPath "u1" "s1" 1 ]} ∅.

Definition staleSessions : gmap string UploadSession :=
  {[ "s1" := setCounters [0; 1] [] [0; 1] 100 session ]}.

(** A bucket that holds both chunks of session [s1] and whose existence
    check of chunk 1 throws. *)
Definition bucketUnchecked : Bucket :=
  mkBucket {[ generateChunkPath "u1" "s1" 0; generateChunkPath "u1" "s1" 1 ]}
           {[ generateChunkPath "u1" "s1" 1 ]}.

Definition signer : Signer :=
  fun path expires =>
    "https://storage.example/" ++ path ++ "?X-Goog-Expires=" ++ showNat expires.

Definition resumeRequest : Resume.Request :=
  Resume.mkRequest bearer (Some "s1").


(** The finalize request for session [s1], a bucket that holds both of its
    chunks, and the environments of two successive calls (each draws its
    own uuid). *)
Definition finalizeRequest : Finalize.Request :=
  Finalize.mkRequest bearer (Some "s1").

Definition bucketBoth : Bucket :=
  mkBucket {[ generateChunkPath "u1" "s1" 0; generateChunkPath "u1" "s1" 1 ]} ∅.

Definition uploadedState : Finalize.State :=
  Finalize.mkState sessions ∅ bucketBoth.

Definition partialState : Finalize.State :=
  Finalize.mkState sessions ∅ bucketChunk1.

Definition firstCall : Finalize.Env := Finalize.mkEnv verifier "v1" None.
Definition secondCall : Finalize.Env := Finalize.mkEnv verifier "v2" None.

(** The state in which the first finalize of [uploadedState] leaves the
    system while the detached chunk cleanup has not run (or has failed). *)
Definition completedState : Finalize.State :=
  snd (fst (Finalize.POST firstCall finalizeRequest uploadedState)).


(** A segmenter environment for a 47-second video whose extractions all go
    through. *)
Definition segmenter47 : Segmenter.Env :=
  Segmenter.mkEnv (Ok 47%Q) (fun _ => Ok tt).


(** Inference services: one that rejects the input on every attempt
    (HTTP 400), one that is overloaded on every attempt (HTTP 503), one
    that is rate-limited twice and then answers (HTTP 429, 429, 200), and
    one whose every request is aborted by the timeout. *)
Definition rejecting (attempt : nat) : VisualAnalyzer.AttemptOutcome :=
  VisualAnalyzer.Responded 400 "Bad Request" "Invalid video file".

Definition overloaded (attempt : nat) : VisualAnalyzer.AttemptOutcome :=
  VisualAnalyzer.Responded 503 "Service Unavailable" "".

Definition rateLimitedTwice (attempt : nat) : VisualAnalyzer.AttemptOutcome :=
  if attempt <=? 2 then VisualAnalyzer.Responded 429 "Too Many Requests" ""
  else VisualAnalyzer.Responded 200 "OK" "".

Definition timingOut (attempt : nat) : VisualAnalyzer.AttemptOutcome :=
  VisualAnalyzer.Failed
    (VisualAnalyzer.mkError "AbortError" "This operation was aborted").

(** A service that answers 200 with a body that is not JSON. *)
Definition garbled (attempt : nat) : VisualAnalyzer.AttemptOutcome :=
  VisualAnalyzer.Unreadable
    (VisualAnalyzer.mkError "SyntaxError" "Unexpected token < in JSON at position 0").


(** A run over the 47-second video in which every stage goes through (the
    hardware encoder is missing, the CPU encoder works), the visual
    service rejects segment 3 and the save of segment 7 fails. *)
Definition world : Trigger.World :=
  Trigger.mkWorld
    (fun _ => Ok tt) 12
    (Ok tt)
    (Ok (Trigger.mkMetadata 47 "1280x720" "mov,mp4,m4a,3gp,3g2,mj2" "30" 2))
    (Throw "Hardware-accelerated standardization failed: Unknown encoder")
    (Ok tt)
    (Ok tt)
    segmenter47
    (Ok tt) (Ok tt) (Ok tt)
    (fun _ => Ok tt)
    (fun _ => Ok tt)
    (fun n attempt => if n =? 3 then rejecting attempt
                      else VisualAnalyzer.Responded 200 "OK" "")
    (fun n => if n =? 7 then Throw "DEADLINE_EXCEEDED" else Ok tt).

(** The same run with a visual service that accepts every segment and a
    database that saves the first [k] segments only. *)
Definition worldSaving (k : nat) : Trigger.World :=
  Trigger.mkWorld
    (fun _ => Ok tt) 12
    (Ok tt)
    (Ok (Trigger.mkMetadata 47 "1280x720" "mov,mp4,m4a,3gp,3g2,mj2" "30" 2))
    (Throw "Hardware-accelerated standardization failed: Unknown encoder")
    (Ok tt)
    (Ok tt)
    segmenter47
    (Ok tt) (Ok tt) (Ok tt)
    (fun _ => Ok tt)
    (fun _ => Ok tt)
    (fun _ _ => VisualAnalyzer.Responded 200 "OK" "")
    (fun n => if n <=? k then Ok tt else Throw "DEADLINE_EXCEEDED").

(** The ten segments of the 47-second video. *)
Definition segments : list Segmenter.VideoSegment :=
  List.map (segmentAt "u1" "v1" 47) (List.seq 0 10).


(** An accepted initiate request for a 12 MB QuickTime file, and the
    environment of the call. *)
Definition initiateEnv : Initiate.Env := Initiate.mkEnv verifier "s2" signer 1000.

Definition initiateRequest : Initiate.Request :=
  Initiate.mkRequest bearer (Some "holiday.mov") (Some 12000000%N)
                     (Some "video/quicktime").

Definition resumeNew : Resume.Request := Resume.mkRequest bearer (Some "s2").


(** A session of 201 chunks of which chunks 0 to 198 have been reported
    completed, and the report that chunk 199 is completed. *)
Definition largeSession : UploadSession :=
  mkSession "u1" "long.mp4" 1053818880%N "video/mp4" 201 5242880%N
            (List.seq 0 199) [] [] uploading 99 None None 5000.

Definition largeSessions : gmap string UploadSession := {[ "s1" := largeSession ]}.


(** A QuickTime upload of three chunks, all of them in the bucket. *)
Definition movSession : UploadSession :=
  mkSession "u1" "holiday.mov" 12000000%N "video/quicktime" 3 5242880%N [] [] []
            uploading 0 None None 5000.

Definition movBucket : Bucket :=
  mkBucket (list_to_set (List.map (generateChunkPath "u1" "s2") (List.seq 0 3))) ∅.

Definition movState : Finalize.State :=
  Finalize.mkState {[ "s2" := movSession ]} ∅ movBucket.

Definition movRequest : Finalize.Request := Finalize.mkRequest bearer (Some "s2").

(** A caller other than the owner of the sample sessions. *)
Definition otherVerifier : Verifier :=
  fun token => if String.eqb token "token-u1" then Some "u9" else None.


(** A video of [u1] with one analysed segment and one segment that has
    only been stored. *)
Definition searchVideo : Finalize.VideoDoc :=
  Finalize.mkVideoDoc "v7" "u1" "talk" "talk.mp4" 12000000 "s7"
    analysis_partial "videos/u1/v7.mp4" true 2 10485760 "video/mp4".

Definition firstSegment : Segmenter.VideoSegment :=
  Segmenter.mkSegment 1 0%Q 5%Q 5%Q
    "/tmp/video-processing/segments/segment_001.mp4"
    "/tmp/video-processing/segments/segment_001.wav"
    "videos/u1/v7/segments/segment_001_thumbnail.jpg"
    "videos/u1/v7/segments/segment_001.mp4".

Definition analysedDoc : Search.SegmentDoc :=
  Search.analysedRecord firstSegment "Hello there" ["Laptop"] [].

Definition storedSegment : Segmenter.VideoSegment :=
  Segmenter.mkSegment 2 5%Q 10%Q 5%Q
    "/tmp/video-processing/segments/segment_002.mp4"
    "/tmp/video-processing/segments/segment_002.wav"
    "videos/u1/v7/segments/segment_002_thumbnail.jpg"
    "videos/u1/v7/segments/segment_002.mp4".

Definition searchState : Search.State :=
  Search.mkState {[ "v7" := searchVideo ]}
    {[ "v7" := [analysedDoc; Search.placeholderDoc storedSegment] ]}.

Definition searchRequest : Search.Request :=
  Search.mkRequest bearer "v7" (Some "LAPTOP").

End Samples.

(** * Properties *)

(** ** Binary64 rounding keeps the order *)

Module Binary64Facts.

Import Binary64.
Local Open Scope Q_scope.

Lemma two_nonzero : ~ 2 == 0.
Proof. discriminate. Qed.

Lemma pow2_pos (e : Z) : 0 < pow2 e.
Proof. apply Qpower_0_lt. reflexivity. Qed.

Lemma pow2_plus (a b : Z) : pow2 (a + b) == pow2 a * pow2 b.
Proof. apply Qpower_plus, two_nonzero. Qed.

Lemma pow2_le (a b : Z) : (a <= b)%Z -> pow2 a <= pow2 b.
Proof. intros H. apply Qpower_le_compat_l; [exact H | discriminate]. Qed.

Lemma pow2_lt_inv (a b : Z) : pow2 a < pow2 b -> (a < b)%Z.
Proof. intros H. apply (Qpower_lt_compat_l_inv 2); [exact H | reflexivity]. Qed.

Lemma pow2_Z (e : Z) : (0 <= e)%Z -> pow2 e == inject_Z (2 ^ e).
Proof. intros H. unfold pow2. now rewrite Zpower_Qpower. Qed.

Lemma inject_pos (z : Z) : (0 < z)%Z -> 0 < inject_Z z.
Proof. intros H. change 0 with (inject_Z 0). now rewrite <- Zlt_Qlt. Qed.

Lemma inject_pow2_pos (e : Z) : (0 <= e)%Z -> 0 < inject_Z (2 ^ e).
Proof. intros H. apply inject_pos. apply Z.pow_pos_nonneg; lia. Qed.

Lemma div_lt_div (n d a b : Q) :
  0 <= n -> 0 < b -> n < a -> b <= d -> n / d < a / b.
Proof.
  intros Hn Hb Hna Hbd. assert (Hd : 0 < d) by lra.
  apply Qlt_shift_div_r; [exact Hd |].
  setoid_replace (a / b * d) with (a * d / b) using relation Qeq by (field; lra).
  apply Qlt_shift_div_l; [exact Hb |]. nra.
Qed.

Lemma div_lt_div' (n d a b : Q) :
  0 < a -> 0 < d -> a <= n -> d < b -> a / b < n / d.
Proof.
  intros Ha Hd Han Hdb. assert (Hb : 0 < b) by lra.
  apply Qlt_shift_div_r; [exact Hb |].
  setoid_replace (n / d * b) with (n * b / d) using relation Qeq by (field; lra).
  apply Qlt_shift_div_l; [exact Hd |]. nra.
Qed.

(** A positive rational lies between the powers of two that its exponent
    names. *)
Lemma exponent_spec (q : Q) :
  0 < q -> pow2 (exponent q) <= q /\ q < pow2 (exponent q + 1).
Proof.
  intros Hq. destruct q as [n d]. unfold exponent. cbn [Qnum Qden].
  assert (Hn : (0 < n)%Z).
  { unfold Qlt in Hq. cbn in Hq. lia. }
  set (a := Z.log2 n). set (b := Z.log2 (Z.pos d)).
  destruct (Z.log2_spec n Hn) as [Ha1 Ha2]. fold a in Ha1, Ha2.
  destruct (Z.log2_spec (Z.pos d) ltac:(lia)) as [Hb1 Hb2]. fold b in Hb1, Hb2.
  assert (Ha0 : (0 <= a)%Z) by apply Z.log2_nonneg.
  assert (Hb0 : (0 <= b)%Z) by apply Z.log2_nonneg.
  assert (Hq' : n # d == inject_Z n / inject_Z (Z.pos d)) by apply Qmake_Qdiv.
  assert (Hd : 0 < inject_Z (Z.pos d)) by (apply inject_pos; lia).
  assert (HA : 0 < inject_Z (2 ^ a)) by (apply inject_pow2_pos; lia).
  assert (HB : 0 < inject_Z (2 ^ b)) by (apply inject_pow2_pos; lia).
  assert (HA' : inject_Z n < inject_Z (2 ^ (a + 1))) by (rewrite <- Zlt_Qlt; exact Ha2).
  assert (HB' : inject_Z (Z.pos d) < inject_Z (2 ^ (b + 1)))
    by (rewrite <- Zlt_Qlt; exact Hb2).
  assert (HA1 : inject_Z (2 ^ a) <= inject_Z n) by (rewrite <- Zle_Qle; exact Ha1).
  assert (HB1 : inject_Z (2 ^ b) <= inject_Z (Z.pos d)) by (rewrite <- Zle_Qle; exact Hb1).
  assert (Hup : n # d < pow2 (a - b + 1)).
  { rewrite Hq'. replace (a - b + 1)%Z with ((a + 1) - b)%Z by lia.
    unfold pow2. rewrite Qpower_minus by apply two_nonzero.
    fold (pow2 (a + 1)). fold (pow2 b).
    rewrite (pow2_Z (a + 1)), (pow2_Z b) by lia.
    apply div_lt_div; try assumption. lra. }
  assert (Hlow : pow2 (a - b - 1) < n # d).
  { rewrite Hq'. replace (a - b - 1)%Z with (a - (b + 1))%Z by lia.
    unfold pow2. rewrite Qpower_minus by apply two_nonzero.
    fold (pow2 a). fold (pow2 (b + 1)).
    rewrite (pow2_Z a), (pow2_Z (b + 1)) by lia.
    apply div_lt_div'; assumption. }
  destruct (Qle_bool (pow2 (a - b)) (n # d)) eqn:E.
  - apply Qle_bool_iff in E. split; assumption.
  - assert (Hlt : n # d < pow2 (a - b)).
    { apply Qnot_le_lt. intros H. apply Qle_bool_iff in H. congruence. }
    split.
    + apply Qlt_le_weak. exact Hlow.
    + replace (a - b - 1 + 1)%Z with (a - b)%Z by lia. exact Hlt.
Qed.


(** Rounding to the nearest integer. *)
Lemma nearestEven_floor (x : Q) :
  (Qfloor x <= nearestEven x <= Qfloor x + 1)%Z.
Proof.
  unfold nearestEven.
  destruct (Qcompare (x - inject_Z (Qfloor x)) (1 # 2)); [| lia | lia].
  destruct (Z.even (Qfloor x)); lia.
Qed.

Lemma nearestEven_mono (x y : Q) : x <= y -> (nearestEven x <= nearestEven y)%Z.
Proof.
  intros Hxy. pose proof (Qfloor_resp_le x y Hxy) as Hk.
  destruct (Z.eq_dec (Qfloor x) (Qfloor y)) as [E | E].
  - unfold nearestEven. rewrite <- E.
    destruct (Qcompare (x - inject_Z (Qfloor x)) (1 # 2)) eqn:Cx;
      destruct (Qcompare (y - inject_Z (Qfloor x)) (1 # 2)) eqn:Cy;
      try (destruct (Z.even (Qfloor x))); try lia; exfalso;
      repeat match goal with
             | H : Qcompare _ _ = Eq |- _ => apply Qeq_alt in H
             | H : Qcompare _ _ = Lt |- _ => apply Qlt_alt in H
             | H : Qcompare _ _ = Gt |- _ => apply Qgt_alt in H
             end; lra.
  - pose proof (nearestEven_floor x). pose proof (nearestEven_floor y). lia.
Qed.

Lemma nearestEven_inject (x : Q) (k : Z) : x == inject_Z k -> nearestEven x = k.
Proof.
  intros H. unfold nearestEven.
  assert (Hf : Qfloor x = k) by (rewrite H; apply Qfloor_Z).
  rewrite Hf.
  assert (C : Qcompare (x - inject_Z k) (1 # 2) = Lt) by (rewrite <- Qlt_alt; lra).
  now rewrite C.
Qed.

Lemma nearestEven_ge (x : Q) (k : Z) : inject_Z k <= x -> (k <= nearestEven x)%Z.
Proof.
  intros H. pose proof (nearestEven_mono _ _ H) as H'.
  now rewrite (nearestEven_inject (inject_Z k) k) in H' by reflexivity.
Qed.

Lemma nearestEven_le (x : Q) (k : Z) : x <= inject_Z k -> (nearestEven x <= k)%Z.
Proof.
  intros H. pose proof (nearestEven_mono _ _ H) as H'.
  now rewrite (nearestEven_inject (inject_Z k) k) in H' by reflexivity.
Qed.

(** The significand of a positive number has 53 bits. *)
Lemma scaled_range (q : Q) :
  0 < q ->
  inject_Z (2 ^ 52) <= q / pow2 (exponent q - 52)
  /\ q / pow2 (exponent q - 52) < inject_Z (2 ^ 53).
Proof.
  intros Hq. destruct (exponent_spec q Hq) as [H1 H2].
  set (e := exponent q) in *.
  pose proof (pow2_pos (e - 52)) as Hu.
  assert (E1 : pow2 e == inject_Z (2 ^ 52) * pow2 (e - 52)).
  { rewrite <- pow2_Z by lia. rewrite <- pow2_plus. now replace (52 + (e - 52))%Z with e by lia. }
  assert (E2 : pow2 (e + 1) == inject_Z (2 ^ 53) * pow2 (e - 52)).
  { rewrite <- pow2_Z by lia. rewrite <- pow2_plus.
    now replace (53 + (e - 52))%Z with (e + 1)%Z by lia. }
  split.
  - apply Qle_shift_div_l; [exact Hu |]. now rewrite <- E1.
  - apply Qlt_shift_div_r; [exact Hu |]. now rewrite <- E2.
Qed.

Lemma roundPositive_range (q : Q) :
  0 < q ->
  pow2 (exponent q) <= roundPositive q /\ roundPositive q <= pow2 (exponent q + 1).
Proof.
  intros Hq. destruct (scaled_range q Hq) as [H1 H2]. unfold roundPositive.
  set (e := exponent q) in *. set (u := pow2 (e - 52)) in *.
  pose proof (pow2_pos (e - 52)) as Hu. fold u in Hu.
  assert (E1 : pow2 e == inject_Z (2 ^ 52) * u).
  { unfold u. rewrite <- pow2_Z by lia. rewrite <- pow2_plus.
    now replace (52 + (e - 52))%Z with e by lia. }
  assert (E2 : pow2 (e + 1) == inject_Z (2 ^ 53) * u).
  { unfold u. rewrite <- pow2_Z by lia. rewrite <- pow2_plus.
    now replace (53 + (e - 52))%Z with (e + 1)%Z by lia. }
  rewrite E1, E2. split; apply Qmult_le_compat_r; try lra; rewrite <- Zle_Qle.
  - now apply nearestEven_ge.
  - apply nearestEven_le. lra.
Qed.

Lemma exponent_mono (x y : Q) : 0 < x -> x <= y -> (exponent x <= exponent y)%Z.
Proof.
  intros Hx Hxy.
  destruct (exponent_spec x Hx) as [Hx1 _].
  destruct (exponent_spec y ltac:(lra)) as [_ Hy2].
  assert (H : pow2 (exponent x) < pow2 (exponent y + 1)) by lra.
  apply pow2_lt_inv in H. lia.
Qed.

Lemma roundPositive_mono (x y : Q) :
  0 < x -> x <= y -> roundPositive x <= roundPositive y.
Proof.
  intros Hx Hxy. assert (Hy : 0 < y) by lra.
  pose proof (exponent_mono x y Hx Hxy) as He.
  destruct (Z.eq_dec (exponent x) (exponent y)) as [E | E].
  - unfold roundPositive. rewrite E.
    pose proof (pow2_pos (exponent y - 52)) as Hu.
    apply Qmult_le_compat_r; [| lra]. rewrite <- Zle_Qle.
    apply nearestEven_mono. apply Qmult_le_compat_r; [exact Hxy |].
    apply Qlt_le_weak, Qinv_lt_0_compat, Hu.
  - destruct (roundPositive_range x Hx) as [_ H1].
    destruct (roundPositive_range y Hy) as [H2 _].
    pose proof (pow2_le (exponent x + 1) (exponent y) ltac:(lia)). lra.
Qed.

Lemma roundPositive_pos (q : Q) : 0 < q -> 0 < roundPositive q.
Proof.
  intros Hq. destruct (roundPositive_range q Hq) as [H _].
  pose proof (pow2_pos (exponent q)). lra.
Qed.

Lemma round_positive (q : Q) : 0 < q -> round q == roundPositive q.
Proof.
  intros Hq. unfold round. rewrite Qred_correct.
  destruct q as [[| p | p] d]; [| reflexivity |]; unfold Qlt in Hq; cbn in Hq; lia.
Qed.

Lemma round_zero (q : Q) : q == 0 -> round q == 0.
Proof.
  intros Hq. unfold round. rewrite Qred_correct.
  destruct q as [[| p | p] d]; [reflexivity | |]; unfold Qeq in Hq; cbn in Hq; lia.
Qed.

(** Rounding keeps the order of non-negative numbers. *)
Lemma round_mono (x y : Q) : 0 <= x -> x <= y -> round x <= round y.
Proof.
  intros Hx Hxy.
  destruct (Qlt_le_dec 0 x) as [Hpos | Hzero].
  - rewrite (round_positive x Hpos), (round_positive y) by lra.
    now apply roundPositive_mono.
  - rewrite (round_zero x) by lra.
    destruct (Qlt_le_dec 0 y) as [Hy | Hy].
    + rewrite (round_positive y Hy). apply Qlt_le_weak, roundPositive_pos, Hy.
    + rewrite (round_zero y) by lra. lra.
Qed.

Lemma round_nonneg (x : Q) : 0 <= x -> 0 <= round x.
Proof.
  intros Hx. rewrite <- (round_zero 0) by reflexivity. apply round_mono; lra.
Qed.

Lemma round_pos (x : Q) : 0 < x -> 0 < round x.
Proof. intros Hx. rewrite round_positive by exact Hx. now apply roundPositive_pos. Qed.

Lemma round_comp (x y : Q) : 0 <= x -> x == y -> round x == round y.
Proof.
  intros Hx Hxy. apply Qle_antisym; apply round_mono; lra.
Qed.

(** The integers below [2^53] are binary64 numbers. *)
Lemma round_integer (z : Z) :
  (0 <= z < 2 ^ 53)%Z -> round (inject_Z z) == inject_Z z.
Proof.
  intros [H0 H53].
  destruct (Z.eq_dec z 0%Z) as [-> | Hz]; [apply round_zero; reflexivity |].
  assert (Hq : 0 < inject_Z z) by (apply inject_pos; lia).
  rewrite round_positive by exact Hq.
  destruct (exponent_spec _ Hq) as [H1 _].
  set (e := exponent (inject_Z z)) in *.
  assert (He : (e < 53)%Z).
  { apply pow2_lt_inv. rewrite (pow2_Z 53) by lia.
    assert (inject_Z z < inject_Z (2 ^ 53)) by (now rewrite <- Zlt_Qlt). lra. }
  unfold roundPositive. fold e.
  pose proof (pow2_pos (e - 52)) as Hu.
  assert (Hs : inject_Z z / pow2 (e - 52) == inject_Z (z * 2 ^ (52 - e))).
  { rewrite inject_Z_mult, <- pow2_Z by lia.
    replace (52 - e)%Z with (- (e - 52))%Z by lia.
    unfold pow2 at 2. rewrite Qpower_opp. reflexivity. }
  rewrite (nearestEven_inject _ _ Hs), <- Hs. field. lra.
Qed.

Lemma ofNat_mono (i j : nat) : (i <= j)%nat -> ofNat i <= ofNat j.
Proof.
  intros H. unfold ofNat. apply round_mono.
  - change 0 with (inject_Z 0). rewrite <- Zle_Qle. lia.
  - rewrite <- Zle_Qle. lia.
Qed.

Lemma ofNat_nonneg (i : nat) : 0 <= ofNat i.
Proof.
  unfold ofNat. apply round_nonneg. change 0 with (inject_Z 0).
  rewrite <- Zle_Qle. lia.
Qed.

Lemma ofNat_pos (i : nat) : (0 < i)%nat -> 0 < ofNat i.
Proof. intros H. unfold ofNat. apply round_pos, inject_pos. lia. Qed.

Lemma ofNat_exact (i : nat) : (Z.of_nat i < 2 ^ 53)%Z -> ofNat i == inject_Z (Z.of_nat i).
Proof. intros H. unfold ofNat. apply round_integer. lia. Qed.

Lemma div_le_cross (a b c d : Q) :
  0 < b -> 0 < d -> a * d <= c * b -> a / b <= c / d.
Proof.
  intros Hb Hd H. apply Qle_shift_div_l; [exact Hd |].
  setoid_replace (a / b * d) with (a * d / b) using relation Qeq by (field; lra).
  apply Qle_shift_div_r; assumption.
Qed.

Lemma div_lt_cross (a b c d : Q) :
  0 < b -> 0 < d -> a * d < c * b -> a / b < c / d.
Proof.
  intros Hb Hd H. apply Qlt_shift_div_l; [exact Hd |].
  setoid_replace (a / b * d) with (a * d / b) using relation Qeq by (field; lra).
  apply Qlt_shift_div_r; assumption.
Qed.

Lemma mathRound_mono (x y : Q) : x <= y -> (mathRound x <= mathRound y)%Z.
Proof. intros H. unfold mathRound. apply Qfloor_resp_le. lra. Qed.

Lemma mathRound_integer (k : Z) : mathRound (inject_Z k) = k.
Proof.
  unfold mathRound.
  assert (H1 : (k <= Qfloor (inject_Z k + (1 # 2)))%Z).
  { rewrite <- (Qfloor_Z k) at 1. apply Qfloor_resp_le. lra. }
  assert (H2 : (Qfloor (inject_Z k + (1 # 2)) < k + 1)%Z).
  { rewrite Zlt_Qlt. eapply Qle_lt_trans; [apply Qfloor_le |].
    rewrite inject_Z_plus. change (inject_Z 1) with 1. lra. }
  lia.
Qed.

Lemma quotient_mono (i j m : nat) :
  (i <= j)%nat -> div (ofNat i) (ofNat m) <= div (ofNat j) (ofNat m).
Proof.
  intros H. pose proof (ofNat_mono i j H) as Hij.
  pose proof (ofNat_nonneg i) as Hi. pose proof (ofNat_nonneg m) as Hm.
  unfold div. apply round_mono.
  - unfold Qdiv. apply Qmult_le_0_compat; [exact Hi |]. now apply Qinv_le_0_compat.
  - unfold Qdiv. apply Qmult_le_compat_r; [exact Hij |]. now apply Qinv_le_0_compat.
Qed.

Lemma quotient_nonneg (i m : nat) : 0 <= div (ofNat i) (ofNat m).
Proof.
  unfold div. apply round_nonneg. unfold Qdiv.
  apply Qmult_le_0_compat; [apply ofNat_nonneg |].
  apply Qinv_le_0_compat, ofNat_nonneg.
Qed.

Lemma quotient_le_1 (i m : nat) : (i <= m)%nat -> div (ofNat i) (ofNat m) <= 1.
Proof.
  intros H. pose proof (ofNat_mono i m H) as Him.
  pose proof (ofNat_nonneg i) as Hi.
  assert (E1 : round 1 == 1) by reflexivity.
  rewrite <- E1. unfold div. apply round_mono.
  - unfold Qdiv. apply Qmult_le_0_compat; [exact Hi |].
    apply Qinv_le_0_compat, ofNat_nonneg.
  - destruct (Qlt_le_dec 0 (ofNat m)) as [Hm | Hm].
    + apply Qle_shift_div_r; [exact Hm | lra].
    + assert (E : ofNat m == 0) by (pose proof (ofNat_nonneg m); lra).
      rewrite E. unfold Qdiv. rewrite Qmult_comm. cbn. lra.
Qed.

(** [Math.round((i / m) * k)] grows with [i] and stays between [0] and
    [k]. *)
Lemma roundScaled_mono (i j m : nat) (k : Z) :
  (i <= j)%nat -> (0 <= k)%Z -> (roundScaled i m k <= roundScaled j m k)%Z.
Proof.
  intros H Hk. unfold roundScaled. apply mathRound_mono.
  assert (Hk' : 0 <= inject_Z k) by (change 0 with (inject_Z 0); now rewrite <- Zle_Qle).
  pose proof (quotient_nonneg i m). pose proof (quotient_mono i j m H).
  unfold mul. apply round_mono.
  - now apply Qmult_le_0_compat.
  - now apply Qmult_le_compat_r.
Qed.


Lemma roundScaled_le (i m : nat) (k : Z) :
  (i <= m)%nat -> (0 <= k < 2 ^ 53)%Z -> (roundScaled i m k <= k)%Z.
Proof.
  intros H Hk. unfold roundScaled.
  rewrite <- (mathRound_integer k) at 2. apply mathRound_mono.
  assert (Hk' : 0 <= inject_Z k) by (change 0 with (inject_Z 0); rewrite <- Zle_Qle; lia).
  pose proof (quotient_nonneg i m). pose proof (quotient_le_1 i m H).
  pose proof (round_integer k Hk) as E.
  assert (Hm : mul (div (ofNat i) (ofNat m)) (inject_Z k) <= round (inject_Z k)).
  { unfold mul. apply round_mono.
    - now apply Qmult_le_0_compat.
    - rewrite <- (Qmult_1_l (inject_Z k)) at 2. now apply Qmult_le_compat_r. }
  lra.
Qed.


End Binary64Facts.


(** ** Progress reports keep the two chunk sets apart *)

Module ProgressFacts.

Import Progress.

Lemma includes_In (arr : list nat) (i : nat) :
  includes arr i = true <-> In i arr.
Proof.
  unfold includes. rewrite List.existsb_exists. split.
  - intros (x & Hx & Heq). apply Nat.eqb_eq in Heq. now subst.
  - intros H. exists i. split; [assumption | apply Nat.eqb_refl].
Qed.

Lemma In_without (arr : list nat) (i x : nat) :
  In x (without arr i) <-> In x arr /\ x <> i.
Proof.
  unfold without. rewrite List.filter_In, negb_true_iff, Nat.eqb_neq. tauto.
Qed.

Lemma In_pushIfAbsent (arr : list nat) (i x : nat) :
  In x (pushIfAbsent arr i) <-> In x arr \/ x = i.
Proof.
  unfold pushIfAbsent. destruct (includes arr i) eqn:E.
  - apply includes_In in E. split; [tauto | intros [H | ->]; assumption].
  - rewrite List.in_app_iff. simpl. intuition congruence.
Qed.

Lemma without_absent (arr : list nat) (i : nat) :
  ~ In i arr -> without arr i = arr.
Proof.
  induction arr as [| a arr IH]; intros Hn; [reflexivity |].
  unfold without in *. simpl. destruct (Nat.eqb_spec a i) as [-> | Hne]; simpl.
  - exfalso. apply Hn. now left.
  - f_equal. apply IH. intros H. apply Hn. now right.
Qed.

Lemma pushIfAbsent_present (arr : list nat) (i : nat) :
  In i arr -> pushIfAbsent arr i = arr.
Proof.
  intros H. unfold pushIfAbsent. apply includes_In in H. now rewrite H.
Qed.

Lemma without_twice (arr : list nat) (i : nat) :
  without (without arr i) i = without arr i.
Proof. apply without_absent. rewrite In_without. tauto. Qed.

Lemma pushIfAbsent_twice (arr : list nat) (i : nat) :
  pushIfAbsent (pushIfAbsent arr i) i = pushIfAbsent arr i.
Proof. apply pushIfAbsent_present. rewrite In_pushIfAbsent. now right. Qed.

(** A report never puts an index in both sets. *)
Lemma updateChunkStatus_disjoint (st : string) (i : nat) (c f : list nat) :
  (forall x, ~ (In x c /\ In x f)) ->
  forall x, ~ (In x (fst (updateChunkStatus st i c f))
               /\ In x (snd (updateChunkStatus st i c f))).
Proof.
  intros Hd x. unfold updateChunkStatus.
  destruct (String.eqb st "completed"); [| destruct (String.eqb st "failed")];
    simpl; rewrite ?In_pushIfAbsent, ?In_without; specialize (Hd x); tauto.
Qed.

(** Sending the same report again changes neither set. *)
Lemma updateChunkStatus_idempotent (st : string) (i : nat) (c f : list nat) :
  updateChunkStatus st i (fst (updateChunkStatus st i c f))
                         (snd (updateChunkStatus st i c f))
  = updateChunkStatus st i c f.
Proof.
  unfold updateChunkStatus.
  destruct (String.eqb st "completed"); simpl.
  - now rewrite pushIfAbsent_twice, without_twice.
  - destruct (String.eqb st "failed"); simpl;
      [now rewrite pushIfAbsent_twice, without_twice | reflexivity].
Qed.

(** What [POST] does to the collection: nothing, or one session rewritten
    by [updateChunkStatus]. *)
Lemma POST_sessions (verify : Verifier) (r : Request)
    (db : gmap string UploadSession) :
  snd (POST verify r db) = db \/
  exists sid s st i,
    sessionId r = Some sid /\ chunkIndex r = Some i /\ reported r = Some st /\
    db !! sid = Some s /\
    let c := fst (updateChunkStatus st i (chunksCompleted s) (chunksFailed s)) in
    let f := snd (updateChunkStatus st i (chunksCompleted s) (chunksFailed s)) in
    let pct := if 0 <? totalChunks s
               then roundPercent (List.length c) (totalChunks s) else 0 in
    snd (POST verify r db)
    = <[sid := setChunkState c f
                 (match deriveStatus pct c f with
                  | Some x => x
                  | None => status s
                  end) pct s]> db.
Proof.
  unfold POST.
  destruct (authenticate verify (authorization r)) as [[code msg] | uid]; [now left |].
  destruct (sessionId r) as [sid |]; [| now left].
  destruct (chunkIndex r) as [i |]; [| now left].
  destruct (reported r) as [st |]; [| now left].
  destruct (String.eqb sid "" || String.eqb st ""); [now left |].
  destruct (db !! sid) as [s |] eqn:Hs; [| now left].
  destruct (negb (String.eqb (userId s) uid)); [now left |].
  right. exists sid, s, st, i.
  do 3 (split; [reflexivity |]). split; [exact Hs |].
  cbv zeta.
  destruct (updateChunkStatus st i (chunksCompleted s) (chunksFailed s)) as [c f].
  reflexivity.
Qed.

(** One report keeps a session with disjoint sets in that state. *)
Lemma POST_keeps_disjoint (verify : Verifier) (r : Request)
    (db : gmap string UploadSession) (sid : string) :
  (exists s, db !! sid = Some s /\ disjointSets s) ->
  exists s', snd (POST verify r db) !! sid = Some s' /\ disjointSets s'.
Proof.
  intros (s & Hs & Hd).
  destruct (POST_sessions verify r db) as [-> | (sid' & s0 & st & i & _ & _ & _ & Hs0 & Heq)].
  - eauto.
  - cbv zeta in Heq. rewrite Heq.
    destruct (decide (sid' = sid)) as [-> | Hne].
    + rewrite lookup_insert_eq. eexists. split; [reflexivity |].
      assert (s0 = s) as -> by congruence.
      unfold disjointSets. simpl. apply updateChunkStatus_disjoint. exact Hd.
    + rewrite lookup_insert_ne by assumption. eauto.
Qed.

Lemma reports_keep_disjoint (verify : Verifier) (reqs : list Request) :
  forall (db : gmap string UploadSession) (sid : string),
    (exists s, db !! sid = Some s /\ disjointSets s) ->
    exists s', reports verify reqs db !! sid = Some s' /\ disjointSets s'.
Proof.
  induction reqs as [| r reqs IH]; intros db sid H; [exact H |].
  unfold reports. simpl. apply IH. now apply POST_keeps_disjoint.
Qed.

(** A report that is sent twice leaves the collection as the first one
    left it. *)
Lemma POST_twice (verify : Verifier) (r : Request)
    (db : gmap string UploadSession) :
  snd (POST verify r (snd (POST verify r db))) = snd (POST verify r db).
Proof.
  destruct (POST_sessions verify r db) as [E | (sid & s & st & i & Hsid & Hi & Hst & Hs & Heq)].
  - now rewrite E.
  - cbv zeta in Heq. rewrite Heq.
    set (c := fst (updateChunkStatus st i (chunksCompleted s) (chunksFailed s))) in *.
    set (f := snd (updateChunkStatus st i (chunksCompleted s) (chunksFailed s))) in *.
    set (pct := if 0 <? totalChunks s
                then roundPercent (List.length c) (totalChunks s) else 0) in *.
    set (s1 := setChunkState c f _ pct s).
    destruct (POST_sessions verify r (<[sid := s1]> db))
      as [E | (sid' & s' & st' & i' & Hsid' & Hi' & Hst' & Hs' & Heq')];
      [exact E |].
    assert (sid' = sid) as -> by congruence.
    assert (st' = st) as -> by congruence.
    assert (i' = i) as -> by congruence.
    rewrite lookup_insert_eq in Hs'. injection Hs' as <-.
    cbv zeta in Heq'. rewrite Heq'. rewrite insert_insert_eq.
    apply (f_equal (fun x => <[sid := x]> db)).
    simpl.
    pose proof (updateChunkStatus_idempotent st i (chunksCompleted s) (chunksFailed s)) as Hid.
    fold c f in Hid. rewrite Hid. fold c f. fold pct.
    unfold s1, setChunkState. simpl. f_equal.
    destruct (deriveStatus pct c f); reflexivity.
Qed.

(** C7. For a session whose completed and failed sets start empty, after
    any sequence of progress reports (any index, any status, any order,
    repetitions and rejected requests included) the stored completed and
    failed sets share no index; and a report that is repeated leaves the
    stored sessions, hence both sets, exactly as its first delivery left
    them. *)
Theorem progress_sets_disjoint_and_idempotent
    (verify : Verifier) (reqs : list Request)
    (db : gmap string UploadSession) (sid : string) (s : UploadSession) :
  db !! sid = Some s ->
  chunksCompleted s = [] ->
  chunksFailed s = [] ->
  (exists s', reports verify reqs db !! sid = Some s' /\ disjointSets s')
  /\ (forall r,
        snd (POST verify r (snd (POST verify r (reports verify reqs db))))
        = snd (POST verify r (reports verify reqs db))).
Proof.
  intros Hs Hc Hf. split.
  - apply reports_keep_disjoint. exists s. split; [exact Hs |].
    intros i [Hi _]. rewrite Hc in Hi. exact Hi.
  - intros r. apply POST_twice.
Qed.

(** The theorem applies to the sample session and report sequence. *)
Lemma progress_sets_disjoint_and_idempotent_witness :
  (exists s', Progress.reports Samples.verifier Samples.reportSequence Samples.sessions
                !! "s1" = Some s' /\ disjointSets s')
  /\ (forall r,
        snd (POST Samples.verifier r
               (snd (POST Samples.verifier r
                       (reports Samples.verifier Samples.reportSequence Samples.sessions))))
        = snd (POST Samples.verifier r
                 (reports Samples.verifier Samples.reportSequence Samples.sessions))).
Proof.
  apply (progress_sets_disjoint_and_idempotent Samples.verifier Samples.reportSequence
           Samples.sessions "s1" Samples.session); reflexivity.
Defined.

(** On the sample sequence the session ends with chunks 1 and 0 completed
    and none failed. *)
Example reportSequence_result :
  (fun s => (chunksCompleted s, chunksFailed s)) <$>
    (reports Samples.verifier Samples.reportSequence Samples.sessions !! "s1")
  = Some ([1; 0], []).
Proof. vm_compute. reflexivity. Qed.

End ProgressFacts.

(** ** Resume re-derives the chunk state from the bucket *)

Module ResumeFacts.

Import Resume.

Lemma checkChunk_step (b : Bucket) (uid sid : string)
    (existing missing : list nat) (i : nat) :
  checkChunk b uid sid (existing, missing) i
  = if found b uid sid i then ((existing ++ [i])%list, missing)
    else (existing, (missing ++ [i])%list).
Proof.
  unfold checkChunk, found.
  now destruct (fileExists b (generateChunkPath uid sid i)) as [[|] | m].
Qed.

Lemma checkChunk_fold (b : Bucket) (uid sid : string) (l : list nat) :
  forall existing missing,
    List.fold_left (checkChunk b uid sid) l (existing, missing)
    = ((existing ++ List.filter (found b uid sid) l)%list,
       (missing ++ List.filter (fun i => negb (found b uid sid i)) l)%list).
Proof.
  induction l as [| i l IH]; intros existing missing.
  - simpl. now rewrite !List.app_nil_r.
  - cbn [List.fold_left List.filter]. rewrite checkChunk_step.
    destruct (found b uid sid i); cbn [negb]; rewrite IH, <- ?List.app_assoc;
      reflexivity.
Qed.

Lemma checkChunks_filter (b : Bucket) (uid sid : string) (n : nat) :
  checkChunks b uid sid n
  = (List.filter (found b uid sid) (List.seq 0 n),
     List.filter (fun i => negb (found b uid sid i)) (List.seq 0 n)).
Proof. unfold checkChunks. now rewrite checkChunk_fold. Qed.

(** When the checks answer, they report what the bucket holds. *)
Lemma found_present (b : Bucket) (uid sid : string) (i : nat) :
  generateChunkPath uid sid i ∉ failing b ->
  found b uid sid i = chunkPresent b uid sid i.
Proof.
  intros H. unfold found, fileExists, chunkPresent.
  destruct (decide (generateChunkPath uid sid i ∈ failing b)); [contradiction |].
  now destruct (bool_decide _).
Qed.

Lemma filter_ext_seq (p q : nat -> bool) (a n : nat) :
  (forall i, a <= i < a + n -> p i = q i) ->
  List.filter p (List.seq a n) = List.filter q (List.seq a n).
Proof.
  intros H. apply List.filter_ext_in. intros i Hi.
  apply List.in_seq in Hi. now apply H.
Qed.

Lemma filter_split_length {A} (p : A -> bool) (l : list A) :
  List.length (List.filter p l)
  + List.length (List.filter (fun x => negb (p x)) l) = List.length l.
Proof.
  induction l as [| x l IH]; [reflexivity |]. simpl.
  destruct (p x); simpl; lia.
Qed.

Lemma signMissing_fold (signedUrl : Signer) (now : nat) (uid sid : string)
    (l : list nat) :
  forall (m : gmap nat string) (i : nat),
    List.fold_left
      (fun urls j =>
         <[j := signedUrl (generateChunkPath uid sid j) (now + signedUrlLifetime)]> urls)
      l m !! i
    = if decide (i ∈ l)
      then Some (signedUrl (generateChunkPath uid sid i) (now + signedUrlLifetime))
      else m !! i.
Proof.
  induction l as [| j l IH]; intros m i; cbn [List.fold_left].
  - destruct (decide (i ∈ [])) as [H | H]; [| reflexivity].
    now apply elem_of_nil in H.
  - rewrite IH.
    destruct (decide (i ∈ l)) as [Hin | Hnin].
    + rewrite decide_True by (apply elem_of_cons; now right). reflexivity.
    + destruct (decide (j = i)) as [-> | Hne].
      * rewrite lookup_insert_eq, decide_True by (apply elem_of_cons; now left).
        reflexivity.
      * rewrite lookup_insert_ne by assumption.
        rewrite decide_False; [reflexivity |].
        intros H. apply elem_of_cons in H as [-> | H]; [congruence | contradiction].
Qed.

(** One URL per missing index, none for another index. *)
Lemma signMissing_lookup (signedUrl : Signer) (now : nat) (uid sid : string)
    (l : list nat) (i : nat) :
  signMissing signedUrl now uid sid l !! i
  = if decide (i ∈ l)
    then Some (signedUrl (generateChunkPath uid sid i) (now + signedUrlLifetime))
    else None.
Proof.
  unfold signMissing. rewrite signMissing_fold.
  destruct (decide (i ∈ l)); [reflexivity | apply lookup_empty].
Qed.

Lemma signMissing_dom (signedUrl : Signer) (now : nat) (uid sid : string)
    (l : list nat) :
  dom (signMissing signedUrl now uid sid l) = list_to_set l.
Proof.
  apply set_eq. intros i. rewrite elem_of_dom, signMissing_lookup.
  rewrite elem_of_list_to_set.
  destruct (decide (i ∈ l)); split; intros H; try tauto.
  - eauto.
  - destruct H as [x Hx]. discriminate.
Qed.

Lemma signMissing_size (signedUrl : Signer) (now : nat) (uid sid : string)
    (l : list nat) :
  List.NoDup l -> size (signMissing signedUrl now uid sid l) = List.length l.
Proof.
  intros Hnd. rewrite <- size_dom, signMissing_dom.
  apply size_list_to_set. now apply NoDup_ListNoDup.
Qed.

(** A caller whom the shared prologue accepts is accepted here too. *)
Lemma authenticated_plain (verify : Verifier) (header : option string) (uid : string) :
  authenticate verify header = inr uid -> authenticatePlain verify header = inr uid.
Proof.
  unfold authenticate, authenticatePlain. intros H.
  destruct header as [h |]; [| discriminate].
  destruct (String.prefix "Bearer " h); [| discriminate].
  destruct (verify (bearerToken h)); [exact H | discriminate].
Qed.

(** The answer of [POST] once the guards are passed. *)
Lemma POST_answer (verify : Verifier) (signedUrl : Signer) (now : nat)
    (b : Bucket) (req : Request) (db : gmap string UploadSession)
    (uid sid : string) (s : UploadSession) :
  authenticate verify (authorization req) = inr uid ->
  uploadSessionId req = Some sid ->
  sid <> "" ->
  db !! sid = Some s ->
  userId s = uid ->
  now <= expiresAt s ->
  fst (POST verify signedUrl now b req db)
  = let n := totalChunks s in
    let existing := List.filter (found b uid sid) (List.seq 0 n) in
    let missing := List.filter (fun i => negb (found b uid sid i)) (List.seq 0 n) in
    RespOk (mkData sid n existing missing (signMissing signedUrl now uid sid missing)
              (if 0 <? n then Some (roundPercent (List.length existing) n) else None)
              (if List.length existing =? n then ready_to_finalize else resuming)).
Proof.
  intros Hauth Hsid Hne Hs Hu Hexp. unfold POST.
  rewrite (authenticated_plain _ _ _ Hauth), Hsid.
  apply String.eqb_neq in Hne. rewrite Hne, Hs.
  rewrite Hu, String.eqb_refl. simpl.
  assert ((expiresAt s <? now) = false) as -> by (apply Nat.ltb_ge; exact Hexp).
  rewrite checkChunks_filter. reflexivity.
Qed.

(** A check that reports an object finds it in the bucket. *)
Lemma found_is_present (b : Bucket) (uid sid : string) (i : nat) :
  found b uid sid i = true -> chunkPresent b uid sid i = true.
Proof.
  unfold found, fileExists, chunkPresent.
  destruct (decide (generateChunkPath uid sid i ∈ failing b)); [discriminate |].
  now destruct (bool_decide _).
Qed.

Lemma filter_length_impl {A} (p q : A -> bool) (l : list A) :
  (forall x, p x = true -> q x = true) ->
  List.length (List.filter p l) <= List.length (List.filter q l).
Proof.
  intros H. induction l as [| x l IH]; [reflexivity |]. cbn [List.filter].
  destruct (p x) eqn:Ep.
  - rewrite (H x Ep). cbn [List.length]. lia.
  - destruct (q x); cbn [List.length]; lia.
Qed.

(** An index whose existence check throws is reported as missing and gets
    a URL, whether or not the object is there. *)
Lemma unchecked_chunk_is_missing (b : Bucket) (uid sid : string) (n i : nat) :
  i < n ->
  generateChunkPath uid sid i ∈ failing b ->
  In i (snd (checkChunks b uid sid n)).
Proof.
  intros Hi Hf. rewrite checkChunks_filter. simpl.
  apply List.filter_In. split; [apply List.in_seq; lia |].
  unfold found, fileExists.
  destruct (decide (generateChunkPath uid sid i ∈ failing b)); [reflexivity | contradiction].
Qed.

(** C6, the claim as stated fails.  Both chunks of the sample session are
    objects of the bucket ([k = n = 2]), but the existence check of chunk 1
    throws: resume reports chunk 1 as missing and issues a signed URL for
    it, one URL instead of [n - k = 0]. *)
Lemma unchecked_chunk_gets_url :
  presentCount Samples.bucketUnchecked "u1" "s1" 2 = 2
  /\ exists d,
       fst (POST Samples.verifier Samples.signer 1000 Samples.bucketUnchecked
              Samples.resumeRequest Samples.sessions) = RespOk d
       /\ d_totalChunks d = 2
       /\ existingChunks d = [0]
       /\ missingChunks d = [1]
       /\ size (chunkUrls d) = 1
       /\ chunkUrls d !! 1
          = Some (Samples.signer (generateChunkPath "u1" "s1" 1)
                    (1000 + signedUrlLifetime)).
Proof.
  split; [vm_compute; reflexivity |].
  eexists. split.
  { apply (POST_answer Samples.verifier Samples.signer 1000 Samples.bucketUnchecked
             Samples.resumeRequest Samples.sessions "u1" "s1" Samples.session);
      try reflexivity; [discriminate | cbn; lia]. }
  cbv zeta. cbn [d_totalChunks existingChunks missingChunks chunkUrls].
  assert (He : List.filter (found Samples.bucketUnchecked "u1" "s1")
                 (List.seq 0 (totalChunks Samples.session)) = [0])
    by (vm_compute; reflexivity).
  assert (Hm : List.filter (fun i => negb (found Samples.bucketUnchecked "u1" "s1" i))
                 (List.seq 0 (totalChunks Samples.session)) = [1])
    by (vm_compute; reflexivity).
  rewrite He, Hm. repeat split.
Qed.

(** C6, amended.  For a session that exists, belongs to the caller and has
    not expired, with [n] chunks of which [k] are objects of the bucket,
    [resume] returns as existing exactly the indices whose existence check
    answers that the object is there, and as missing all the others (the
    object is absent, or the check throws), both in increasing order; it
    never reports more than [k] existing chunks; it issues one signed URL
    for each missing index and none for an existing one, each expiring one
    hour after the call; when every check answers, the existing indices
    are exactly those in the bucket and the URLs are [n - k]; and the
    answer is the same whatever completed/failed index lists and progress
    the session document stores. *)
Theorem resume_follows_existence_checks
    (verify : Verifier) (signedUrl : Signer) (now : nat) (b : Bucket)
    (req : Request) (db : gmap string UploadSession)
    (uid sid : string) (s : UploadSession) :
  authenticate verify (authorization req) = inr uid ->
  uploadSessionId req = Some sid ->
  sid <> "" ->
  db !! sid = Some s ->
  userId s = uid ->
  now <= expiresAt s ->
  let n := totalChunks s in
  let k := presentCount b uid sid n in
  exists d,
    fst (POST verify signedUrl now b req db) = RespOk d
    /\ existingChunks d = List.filter (found b uid sid) (List.seq 0 n)
    /\ missingChunks d
       = List.filter (fun i => negb (found b uid sid i)) (List.seq 0 n)
    /\ List.length (existingChunks d) <= k
    /\ size (chunkUrls d) = n - List.length (existingChunks d)
    /\ (forall i, chunkUrls d !! i
                  = if decide (i ∈ missingChunks d)
                    then Some (signedUrl (generateChunkPath uid sid i)
                                 (now + signedUrlLifetime))
                    else None)
    /\ (forall i, i < n -> generateChunkPath uid sid i ∈ failing b ->
          In i (missingChunks d))
    /\ ((forall i, i < n -> generateChunkPath uid sid i ∉ failing b) ->
        existingChunks d = List.filter (chunkPresent b uid sid) (List.seq 0 n)
        /\ missingChunks d
           = List.filter (fun i => negb (chunkPresent b uid sid i)) (List.seq 0 n)
        /\ size (chunkUrls d) = n - k)
    /\ (forall done failedSet existing pct,
          fst (POST verify signedUrl now b req
                 (<[sid := setCounters done failedSet existing pct s]> db))
          = RespOk d).
Proof.
  intros Hauth Hsid Hne Hs Hu Hexp n k.
  eexists. split.
  { rewrite (POST_answer verify signedUrl now b req db uid sid s) by assumption.
    cbv zeta. fold n. reflexivity. }
  cbn [existingChunks missingChunks chunkUrls].
  assert (Hsize : size (signMissing signedUrl now uid sid
                          (List.filter (fun i => negb (found b uid sid i)) (List.seq 0 n)))
                  = n - List.length (List.filter (found b uid sid) (List.seq 0 n))).
  { rewrite signMissing_size by apply List.NoDup_filter, List.seq_NoDup.
    pose proof (filter_split_length (found b uid sid) (List.seq 0 n)) as Hl.
    rewrite List.length_seq in Hl. lia. }
  split; [reflexivity |]. split; [reflexivity |].
  split; [apply filter_length_impl, found_is_present |].
  split; [exact Hsize |].
  split; [intros i; apply signMissing_lookup |].
  split.
  { intros i Hi Hf.
    pose proof (unchecked_chunk_is_missing b uid sid n i Hi Hf) as Hin.
    now rewrite checkChunks_filter in Hin. }
  split.
  { intros Hok.
    assert (He : List.filter (found b uid sid) (List.seq 0 n)
                 = List.filter (chunkPresent b uid sid) (List.seq 0 n)).
    { apply filter_ext_seq. intros i Hi. apply found_present, Hok. lia. }
    assert (Hm : List.filter (fun i => negb (found b uid sid i)) (List.seq 0 n)
                 = List.filter (fun i => negb (chunkPresent b uid sid i))
                     (List.seq 0 n)).
    { apply filter_ext_seq. intros i Hi. f_equal. apply found_present, Hok. lia. }
    split; [exact He |]. split; [exact Hm |].
    rewrite Hsize, He. reflexivity. }
  intros done failedSet existing pct.
  rewrite (POST_answer verify signedUrl now b req _ uid sid
             (setCounters done failedSet existing pct s));
    try assumption; [| apply lookup_insert_eq].
  reflexivity.
Qed.

(** The theorem applies to the sample session whose stored counters are
    stale: one URL, for chunk 0. *)
Lemma resume_follows_existence_checks_witness :
  exists d,
    fst (POST Samples.verifier Samples.signer 1000 Samples.bucketChunk1
           Samples.resumeRequest Samples.staleSessions) = RespOk d
    /\ existingChunks d
       = List.filter (found Samples.bucketChunk1 "u1" "s1") (List.seq 0 2)
    /\ missingChunks d
       = List.filter (fun i => negb (found Samples.bucketChunk1 "u1" "s1" i))
                     (List.seq 0 2)
    /\ List.length (existingChunks d) <= presentCount Samples.bucketChunk1 "u1" "s1" 2
    /\ size (chunkUrls d) = 2 - List.length (existingChunks d)
    /\ (forall i, chunkUrls d !! i
                  = if decide (i ∈ missingChunks d)
                    then Some (Samples.signer (generateChunkPath "u1" "s1" i)
                                 (1000 + signedUrlLifetime))
                    else None)
    /\ (forall i, i < 2 ->
          generateChunkPath "u1" "s1" i ∈ failing Samples.bucketChunk1 ->
          In i (missingChunks d))
    /\ ((forall i, i < 2 ->
           generateChunkPath "u1" "s1" i ∉ failing Samples.bucketChunk1) ->
        existingChunks d
        = List.filter (chunkPresent Samples.bucketChunk1 "u1" "s1") (List.seq 0 2)
        /\ missingChunks d
           = List.filter (fun i => negb (chunkPresent Samples.bucketChunk1 "u1" "s1" i))
                         (List.seq 0 2)
        /\ size (chunkUrls d) = 2 - presentCount Samples.bucketChunk1 "u1" "s1" 2)
    /\ (forall done failedSet existing pct,
          fst (POST Samples.verifier Samples.signer 1000 Samples.bucketChunk1
                 Samples.resumeRequest
                 (<["s1" := setCounters done failedSet existing pct
                              (setCounters [0; 1] [] [0; 1] 100 Samples.session)]>
                    Samples.staleSessions))
          = RespOk d).
Proof.
  apply (resume_follows_existence_checks Samples.verifier Samples.signer 1000
           Samples.bucketChunk1 Samples.resumeRequest Samples.staleSessions
           "u1" "s1" (setCounters [0; 1] [] [0; 1] 100 Samples.session)).
  - reflexivity.
  - reflexivity.
  - discriminate.
  - reflexivity.
  - reflexivity.
  - simpl. lia.
Defined.

End ResumeFacts.

(** ** Finalize: missing chunks, and finalizing again *)

Module FinalizeFacts.

Import Finalize.

(** The verification loop as two filters, when every check answers. *)
Lemma verifyChunk_fold (b : Bucket) (uid sid : string) (l : list nat) :
  (forall i, In i l -> generateChunkPath uid sid i ∉ failing b) ->
  forall chunkPaths missingChunks,
    List.fold_left (verifyChunk b uid sid) l (Ok (chunkPaths, missingChunks))
    = Ok ((chunkPaths
           ++ List.map (generateChunkPath uid sid)
                (List.filter (chunkPresent b uid sid) l))%list,
          (missingChunks
           ++ List.filter (fun i => negb (chunkPresent b uid sid i)) l)%list).
Proof.
  induction l as [| i l IH]; intros Hok chunkPaths missingChunks.
  - simpl. now rewrite !List.app_nil_r.
  - cbn [List.fold_left List.filter List.map].
    assert (Hi : generateChunkPath uid sid i ∉ failing b) by (apply Hok; now left).
    unfold verifyChunk at 2. unfold fileExists.
    rewrite decide_False by exact Hi.
    fold (chunkPresent b uid sid i).
    destruct (chunkPresent b uid sid i); cbn [negb List.map];
      rewrite IH by (intros j Hj; apply Hok; now right);
      rewrite <- ?List.app_assoc; reflexivity.
Qed.

Lemma verifyChunks_filter (b : Bucket) (uid sid : string) (n : nat) :
  (forall i, i < n -> generateChunkPath uid sid i ∉ failing b) ->
  verifyChunks b uid sid n
  = Ok (List.map (generateChunkPath uid sid)
          (List.filter (chunkPresent b uid sid) (List.seq 0 n)),
        List.filter (fun i => negb (chunkPresent b uid sid i)) (List.seq 0 n)).
Proof.
  intros Hok. unfold verifyChunks. rewrite verifyChunk_fold; [reflexivity |].
  intros i Hi. apply List.in_seq in Hi. apply Hok. lia.
Qed.

(** Whenever some chunk object is absent, finalize answers 400 with the
    list of the absent indices, issues no effect at all, and the session is
    left in status [assembling]. *)
Lemma POST_missing_chunks (env : Env) (req : Request) (st : State)
    (uid sid : string) (s : UploadSession) (i : nat) :
  authenticate (verifyIdToken env) (authorization req) = inr uid ->
  sessionId req = Some sid ->
  sid <> "" ->
  sessions st !! sid = Some s ->
  userId s = uid ->
  (forall j, j < totalChunks s -> generateChunkPath uid sid j ∉ failing (bucket st)) ->
  i < totalChunks s ->
  chunkPresent (bucket st) uid sid i = false ->
  let missing := List.filter (fun j => negb (chunkPresent (bucket st) uid sid j))
                             (List.seq 0 (totalChunks s)) in
  POST env req st
  = (RespError 400 (incompleteMessage (totalChunks s) missing),
     mkState (<[sid := setStatus assembling s]> (sessions st)) (videos st) (bucket st),
     [])
  /\ In i missing.
Proof.
  intros Hauth Hsid Hne Hs Hu Hok Hi Habs missing.
  assert (Hin : In i missing).
  { apply List.filter_In. split; [apply List.in_seq; lia | now rewrite Habs]. }
  split; [| exact Hin].
  unfold POST. rewrite Hauth, Hsid.
  apply String.eqb_neq in Hne. rewrite Hne, Hs, Hu, String.eqb_refl. cbn [negb].
  rewrite verifyChunks_filter by exact Hok. fold missing.
  destruct missing as [| j missing']; [contradiction |]. reflexivity.
Qed.

(** C2 (the code departs from the claim). On the sample session of two
    chunks with chunk 0 absent from the bucket, finalize answers 400 and
    names index 0 as the missing chunk, and no compose call is issued; but
    the session is left in status [assembling], not [failed]. *)
Theorem finalize_missing_chunk_leaves_assembling :
  POST Samples.firstCall Samples.finalizeRequest Samples.partialState
  = (RespError 400
       "Upload incomplete: 1/2 chunks found in Cloud Storage. Missing chunks: 0",
     mkState (<["s1" := setStatus assembling Samples.session]> Samples.sessions)
             ∅ Samples.bucketChunk1,
     [])
  /\ sessionStatus
       (snd (fst (POST Samples.firstCall Samples.finalizeRequest Samples.partialState)))
       "s1" = Some assembling
  /\ composeCalls
       (snd (POST Samples.firstCall Samples.finalizeRequest Samples.partialState)) = 0.
Proof.
  vm_compute. repeat split; reflexivity.
Qed.

(** The compose failure path of the same handler does mark the session
    [failed]. *)
Example finalize_compose_failure_marks_failed :
  sessionStatus
    (snd (fst (POST (mkEnv Samples.verifier "v1" (Some "backend unavailable"))
                 Samples.finalizeRequest Samples.uploadedState)))
    "s1" = Some failed.
Proof. vm_compute. reflexivity. Qed.


(** [POST] reads neither the status nor the stored video id of the
    session: replacing them changes neither the answer nor the effects. *)
Lemma POST_restamp (env : Env) (req : Request) (st : State)
    (sid : string) (st' : SessionStatus) (vid : option string) :
  fst (fst (POST env req (restampSession sid st' vid st))) = fst (fst (POST env req st))
  /\ snd (POST env req (restampSession sid st' vid st)) = snd (POST env req st).
Proof.
  unfold POST, restampSession. cbn [sessions videos bucket].
  destruct (authenticate (verifyIdToken env) (authorization req)) as [[code msg] | uid];
    [split; reflexivity |].
  destruct (sessionId req) as [sid' |]; [| split; reflexivity].
  destruct (String.eqb sid' ""); [split; reflexivity |].
  rewrite lookup_alter.
  destruct (decide (sid = sid')) as [-> | Hne];
    (destruct (sessions st !! sid') as [s |]; cbn [fmap option_fmap option_map];
       [| split; reflexivity]);
    cbn [restamp userId totalChunks fileName fileSize chunkSize fileType];
    (destruct (negb (String.eqb (userId s) uid)); [split; reflexivity |]);
    (destruct (verifyChunks (bucket st) uid sid' (totalChunks s))
       as [[paths missing] | m]; [| split; reflexivity]);
    (destruct (0 <? List.length missing); [split; reflexivity |]);
    (destruct (combineThrows env); [split; reflexivity |]);
    destruct (fileExists _ _) as [[|] | m]; split; reflexivity.
Qed.

(** A call composes at most once, and a successful call composes exactly
    once and returns the id drawn by that call. *)
Lemma POST_composes_once (env : Env) (req : Request) (st : State) :
  composeCalls (snd (POST env req st)) <= 1
  /\ (forall d, fst (fst (POST env req st)) = RespOk d ->
        d_videoId d = uuidv4 env /\ composeCalls (snd (POST env req st)) = 1).
Proof.
  unfold POST.
  destruct (authenticate (verifyIdToken env) (authorization req)) as [[code msg] | uid];
    [split; [unfold composeCalls; simpl; lia | discriminate] |].
  destruct (sessionId req) as [sid |]; [| split; [unfold composeCalls; simpl; lia | discriminate]].
  destruct (String.eqb sid ""); [split; [unfold composeCalls; simpl; lia | discriminate] |].
  destruct (sessions st !! sid) as [s |]; [| split; [unfold composeCalls; simpl; lia | discriminate]].
  destruct (negb (String.eqb (userId s) uid)); [split; [unfold composeCalls; simpl; lia | discriminate] |].
  destruct (verifyChunks (bucket st) uid sid (totalChunks s)) as [[paths missing] | m].
  - destruct (0 <? List.length missing); [split; [unfold composeCalls; simpl; lia | discriminate] |].
    destruct (combineThrows env); [split; [unfold composeCalls; simpl; lia | discriminate] |].
    destruct (fileExists _ _) as [[|] | m]; (split; [unfold composeCalls; simpl; lia |]); try discriminate.
    intros d Hd. injection Hd as <-. split; reflexivity.
  - split; [unfold composeCalls; simpl; lia |]. unfold outerCatch.
    destruct (str_includes "Invalid token" m); [discriminate |].
    destruct (str_includes "compose" m); discriminate.
Qed.

(** C1, the claim as stated fails. The sample session is finalized (the
    call draws id [v1]); while its chunk objects are still in the bucket it
    is in status [completed] with [v1] stored, and a second finalize
    composes again and returns the id [v2] that it draws. *)
Lemma refinalize_composes_again :
  sessionStatus Samples.completedState "s1" = Some completed
  /\ sessionVideoId Samples.completedState "s1" = Some "v1"
  /\ (d_videoId <$>
        match fst (fst (POST Samples.secondCall Samples.finalizeRequest
                          Samples.completedState)) with
        | RespOk d => Some d
        | RespError _ _ => None
        end) = Some "v2"
  /\ composeCalls
       (snd (POST Samples.secondCall Samples.finalizeRequest Samples.completedState)) = 1.
Proof. vm_compute. repeat split; reflexivity. Qed.

(** Once the detached cleanup has removed the chunks, a second finalize
    returns no video id at all: it answers 400 and lists every chunk. *)
Example refinalize_after_cleanup :
  fst (fst (POST Samples.secondCall Samples.finalizeRequest
              (mkState (sessions Samples.completedState) (videos Samples.completedState)
                 (cleanupChunks [generateChunkPath "u1" "s1" 0;
                                 generateChunkPath "u1" "s1" 1]
                    (bucket Samples.completedState)))))
  = RespError 400
      "Upload incomplete: 0/2 chunks found in Cloud Storage. Missing chunks: 0, 1".
Proof. vm_compute. reflexivity. Qed.

(** C1, amended. Finalize does not look at the status or the stored video
    id of the session: on a session stamped [completed] (with any stored
    id) it answers and acts exactly as on the same session in any other
    status.  One call issues at most one compose call; when it succeeds it
    has composed exactly once and returns the video id drawn by that
    call. *)
Theorem finalize_ignores_completion (env : Env) (req : Request) (st : State)
    (sid : string) (vid : option string) :
  fst (fst (POST env req (restampSession sid completed vid st)))
  = fst (fst (POST env req st))
  /\ snd (POST env req (restampSession sid completed vid st)) = snd (POST env req st)
  /\ composeCalls (snd (POST env req st)) <= 1
  /\ (forall d, fst (fst (POST env req st)) = RespOk d ->
        d_videoId d = uuidv4 env /\ composeCalls (snd (POST env req st)) = 1).
Proof.
  destruct (POST_restamp env req st sid completed vid) as [Hr He].
  destruct (POST_composes_once env req st) as [Hc Hs].
  split; [exact Hr |]. split; [exact He |]. split; [exact Hc | exact Hs].
Qed.

End FinalizeFacts.

(** ** Segmentation *)

Module SegmenterFacts.

Import Segmenter.

(** The loop, when every extraction goes through. *)
Lemma segmentLoop_all (env : Env) (uid vid : string) (D : Q) :
  (forall n, extraction env n = Ok tt) ->
  forall remaining i segments,
    segmentLoop env uid vid D remaining i segments
    = Ok (segments ++ List.map (segmentAt uid vid D) (List.seq i remaining))%list.
Proof.
  intros Hex. induction remaining as [| r IH]; intros i segments.
  - simpl. now rewrite List.app_nil_r.
  - cbn [segmentLoop List.seq List.map]. unfold extractSegment. rewrite Hex.
    rewrite IH. rewrite <- List.app_assoc. cbn [List.app].
    replace (List.seq (i + 1) r) with (List.seq (S i) r) by (f_equal; lia).
    reflexivity.
Qed.

Lemma segmentVideo_all (env : Env) (uid vid : string) (D : Q) :
  getVideoDuration env = Ok D ->
  (forall n, extraction env n = Ok tt) ->
  segmentVideo env uid vid
  = Ok (List.map (segmentAt uid vid D)
          (List.seq 0 (Z.to_nat (segmentCount D)))).
Proof.
  intros HD Hex. unfold segmentVideo. rewrite HD.
  now rewrite (segmentLoop_all env uid vid D Hex).
Qed.

Lemma segmentCount_nonneg (D : Q) : (0 <= D)%Q -> (0 <= segmentCount D)%Z.
Proof.
  intros HD. unfold segmentCount.
  assert (H : (0 <= D / 5)%Q).
  { apply Qle_shift_div_l; [reflexivity |]. now rewrite Qmult_0_l. }
  pose proof (Qle_ceiling (D / 5)) as Hc.
  assert (Hz : (inject_Z 0 <= inject_Z (Qceiling (D / 5)))%Q)
    by (eapply Qle_trans; [exact H | exact Hc]).
  now rewrite <- Zle_Qle in Hz.
Qed.

(** Before the last index the window of five seconds fits in the video. *)
Lemma window_inside (D : Q) (i : nat) :
  (Z.of_nat i + 1 < segmentCount D)%Z ->
  (inject_Z (Z.of_nat (i + 1)) * 5 <= D)%Q.
Proof.
  intros Hi. unfold segmentCount in Hi.
  pose proof (Qceiling_lt (D / 5)) as Hlt.
  assert (Hle : (inject_Z (Z.of_nat (i + 1)) <= inject_Z (Qceiling (D / 5) - 1))%Q).
  { rewrite <- Zle_Qle. lia. }
  assert (Hq : (inject_Z (Z.of_nat (i + 1)) < D / 5)%Q)
    by (eapply Qle_lt_trans; [exact Hle | exact Hlt]).
  apply Qlt_le_weak.
  assert (H5 : (D == D / 5 * 5)%Q) by (field; discriminate).
  rewrite H5 at 1. apply Qmult_lt_r; [reflexivity | exact Hq].
Qed.

(** At the last index the window reaches the end of the video. *)
Lemma window_last (D : Q) (i : nat) :
  (Z.of_nat i + 1 = segmentCount D)%Z ->
  (D <= inject_Z (Z.of_nat (i + 1)) * 5)%Q.
Proof.
  intros Hi. unfold segmentCount in Hi.
  pose proof (Qle_ceiling (D / 5)) as Hc.
  replace (Qceiling (D / 5)) with (Z.of_nat (i + 1)) in Hc by lia.
  assert (H5 : (D == D / 5 * 5)%Q) by (field; discriminate).
  rewrite H5 at 1. apply Qmult_le_r; [reflexivity | exact Hc].
Qed.

Lemma duration_inside (uid vid : string) (D : Q) (i : nat) :
  (Z.of_nat i + 1 < segmentCount D)%Z ->
  (duration (segmentAt uid vid D i) == 5)%Q
  /\ (endTime (segmentAt uid vid D i) == inject_Z (Z.of_nat (i + 1)) * 5)%Q.
Proof.
  intros Hi. pose proof (window_inside D i Hi) as Hw.
  cbn [segmentAt duration endTime].
  rewrite (Q.min_l _ _ Hw).
  replace (Z.of_nat (i + 1)) with (Z.of_nat i + 1)%Z by lia.
  rewrite inject_Z_plus. split; ring.
Qed.

Lemma duration_last (uid vid : string) (D : Q) (i : nat) :
  (Z.of_nat i + 1 = segmentCount D)%Z ->
  (duration (segmentAt uid vid D i) == D - 5 * (inject_Z (segmentCount D) - 1))%Q
  /\ (endTime (segmentAt uid vid D i) == D)%Q.
Proof.
  intros Hi. pose proof (window_last D i Hi) as Hw.
  cbn [segmentAt duration endTime].
  rewrite (Q.min_r _ _ Hw). rewrite <- Hi.
  rewrite inject_Z_plus. split; ring.
Qed.

(** C5. When the probe reports a duration [D >= 0] and every extraction
    goes through, segmentation (segment length 5 seconds, the constant of
    [segmentVideo]) returns exactly [ceil(D / 5)] segments; the segment at
    position [i] has number [i + 1] and starts at [5 * i]; every segment
    but the last lasts 5 seconds and the last lasts
    [D - 5 * (ceil(D / 5) - 1)] and ends at [D]; each segment ends where it
    starts plus its duration, and the next one starts where it ends. *)
Theorem segmentation_covers_video (env : Env) (uid vid : string) (D : Q) :
  getVideoDuration env = Ok D ->
  (forall n, extraction env n = Ok tt) ->
  (0 <= D)%Q ->
  exists segments,
    segmentVideo env uid vid = Ok segments
    /\ Z.of_nat (List.length segments) = Qceiling (D / 5)
    /\ forall i seg,
         List.nth_error segments i = Some seg ->
         segmentNumber seg = i + 1
         /\ (startTime seg == 5 * inject_Z (Z.of_nat i))%Q
         /\ (endTime seg == startTime seg + duration seg)%Q
         /\ (i + 1 < List.length segments -> (duration seg == 5)%Q)
         /\ (i + 1 = List.length segments ->
             (duration seg == D - 5 * (inject_Z (Qceiling (D / 5)) - 1))%Q
             /\ (endTime seg == D)%Q)
         /\ (forall next, List.nth_error segments (i + 1) = Some next ->
             (startTime next == endTime seg)%Q).
Proof.
  intros HD Hex Hpos.
  pose proof (segmentCount_nonneg D Hpos) as Hn.
  exists (List.map (segmentAt uid vid D) (List.seq 0 (Z.to_nat (segmentCount D)))).
  split; [now apply segmentVideo_all |].
  assert (Hlen : List.length (List.map (segmentAt uid vid D)
                    (List.seq 0 (Z.to_nat (segmentCount D))))
                 = Z.to_nat (segmentCount D))
    by now rewrite List.length_map, List.length_seq.
  rewrite Hlen. split; [unfold segmentCount in *; lia |].
  intros i seg Hnth.
  assert (Hi : i < Z.to_nat (segmentCount D)).
  { rewrite <- Hlen. apply List.nth_error_Some. congruence. }
  rewrite List.nth_error_map, List.nth_error_seq in Hnth.
  assert ((i <? Z.to_nat (segmentCount D)) = true) as Hb by (apply Nat.ltb_lt; lia).
  rewrite Hb in Hnth. cbn in Hnth. injection Hnth as <-.
  split; [reflexivity |].
  split; [cbn [segmentAt startTime]; ring |].
  split; [reflexivity |].
  split; [intros Hlt; apply duration_inside; lia |].
  split; [intros Hlast; apply duration_last; lia |].
  intros next Hnext.
  rewrite List.nth_error_map, List.nth_error_seq in Hnext.
  destruct (i + 1 <? Z.to_nat (segmentCount D)) eqn:Hb2; [| discriminate].
  cbn in Hnext. injection Hnext as <-.
  apply Nat.ltb_lt in Hb2.
  destruct (duration_inside uid vid D i) as [_ He]; [lia |].
  rewrite He. cbn [segmentAt startTime]. reflexivity.
Qed.

(** The theorem applies to the sample 47-second video. *)
Lemma segmentation_covers_video_witness :
  exists segments,
    segmentVideo Samples.segmenter47 "u1" "v1" = Ok segments
    /\ Z.of_nat (List.length segments) = Qceiling (47 / 5)
    /\ forall i seg,
         List.nth_error segments i = Some seg ->
         segmentNumber seg = i + 1
         /\ (startTime seg == 5 * inject_Z (Z.of_nat i))%Q
         /\ (endTime seg == startTime seg + duration seg)%Q
         /\ (i + 1 < List.length segments -> (duration seg == 5)%Q)
         /\ (i + 1 = List.length segments ->
             (duration seg == 47 - 5 * (inject_Z (Qceiling (47 / 5)) - 1))%Q
             /\ (endTime seg == 47)%Q)
         /\ (forall next, List.nth_error segments (i + 1) = Some next ->
             (startTime next == endTime seg)%Q).
Proof.
  apply (segmentation_covers_video Samples.segmenter47 "u1" "v1" 47%Q).
  - reflexivity.
  - intros n. reflexivity.
  - discriminate.
Defined.

(** The 47-second video gives ten segments, the last of two seconds. *)
Example segments_of_47_seconds :
  (fun l => (List.length l, List.map duration l)) <$>
    (match segmentVideo Samples.segmenter47 "u1" "v1" with
     | Ok l => Some l
     | Throw _ => None
     end)
  = Some (10, [5; 5; 5; 5; 5; 5; 5; 5; 5; 2]%Q).
Proof. vm_compute. reflexivity. Qed.

End SegmenterFacts.

(** ** The retry loop of the visual analyzer *)

Module VisualAnalyzerFacts.

Import VisualAnalyzer.

(** The loop never makes more than [maxRetries] attempts, and numbers them
    consecutively. *)
Lemma attempts_bounded (service : nat -> AttemptOutcome) :
  forall remaining attempt,
    exists k, k <= remaining
      /\ attemptsMade (traceOf (attempts service remaining attempt))
         = List.seq attempt k.
Proof.
  induction remaining as [| r IH]; intros attempt.
  - exists 0. split; [lia | reflexivity].
  - cbn [attempts].
    destruct (IH (attempt + 1)) as (k & Hk & Hseq).
    destruct (turn (service attempt) attempt) as [| delay | | message].
    + exists 1. split; [lia | reflexivity].
    + exists (S k). split; [lia |].
      unfold bind, emit. cbn [fst snd].
      destruct (attempts service r (attempt + 1)) as [t res] eqn:E.
      cbn. cbn in Hseq. rewrite Hseq. f_equal. f_equal. lia.
    + exists (S k). split; [lia |].
      unfold bind, emit.
      destruct (attempts service r (attempt + 1)) as [t res] eqn:E.
      cbn. cbn in Hseq. rewrite Hseq. f_equal. f_equal. lia.
    + exists 1. split; [lia | reflexivity].
Qed.

(** A retryable HTTP answer before the last attempt is followed by the
    backoff delay [2000 * 2^(attempt - 1)] and another attempt. *)
Lemma retryable_status_backs_off (status : nat) (statusText errorText : string)
    (attempt : nat) :
  isRetryableError status errorText = true ->
  (200 <=? status) && (status <? 300) = false ->
  attempt < maxRetries ->
  turn (Responded status statusText errorText) attempt
  = ContinueAfter (2000 * 2 ^ (attempt - 1)).
Proof.
  intros Hr Hok Hlt. unfold turn, tryBlock. rewrite Hok, Hr.
  apply Nat.ltb_lt in Hlt. rewrite Hlt. reflexivity.
Qed.

(** The five retryable status codes. *)
Lemma retryable_codes (errorText : string) :
  List.Forall (fun status => isRetryableError status errorText = true)
              [429; 500; 502; 503; 504].
Proof. repeat constructor. Qed.

(** The delays grow: each is twice the previous one. *)
Lemma backoff_doubles (attempt : nat) :
  1 <= attempt -> backoff (attempt + 1) = 2 * backoff attempt.
Proof.
  intros H. unfold backoff.
  replace (attempt + 1 - 1) with (S (attempt - 1)) by lia.
  rewrite Nat.pow_succ_r'. lia.
Qed.

(** A service that is overloaded throughout is tried three times, with
    delays of 2 and 4 seconds, and then the call fails. *)
Example overloaded_service :
  callVisualAnalysisService Samples.overloaded
  = ([Attempt 1; Wait 2000; Attempt 2; Wait 4000; Attempt 3],
     Throw ("Self-hosted visual analysis failed after 3 attempts: Error: "
            ++ "AI service responded with status 503: Service Unavailable")).
Proof. vm_compute. reflexivity. Qed.

Example rate_limited_then_served :
  callVisualAnalysisService Samples.rateLimitedTwice
  = ([Attempt 1; Wait 2000; Attempt 2; Wait 4000; Attempt 3], Ok tt).
Proof. vm_compute. reflexivity. Qed.

Example timeouts_are_retried :
  traceOf (callVisualAnalysisService Samples.timingOut)
  = [Attempt 1; Wait 2000; Attempt 2; Wait 4000; Attempt 3].
Proof. vm_compute. reflexivity. Qed.

(** An answer that is not retryable, whose status text names no network
    condition, does not end the loop before the last attempt: the [catch]
    block falls through and the next attempt follows at once. *)
Lemma nonretryable_status_falls_through (status : nat)
    (statusText errorText : string) (attempt : nat) :
  isRetryableError status errorText = false ->
  (200 <=? status) && (status <? 300) = false ->
  isRetryableNetworkError
    ("AI service responded with status " ++ showNat status ++ ": " ++ statusText)
  = false ->
  attempt < maxRetries ->
  turn (Responded status statusText errorText) attempt = ContinueNow.
Proof.
  intros Hr Hok Hn Hlt. unfold turn, tryBlock.
  rewrite Hok, Hr. cbn [andb]. unfold catchBlock. cbn [e_message].
  rewrite Hn. cbn [andb].
  assert ((attempt =? maxRetries) = false) as -> by (apply Nat.eqb_neq; lia).
  reflexivity.
Qed.

(** C9 (the code departs from the claim). A service that answers every
    request with HTTP 400, a response that [isRetryableError] classifies as
    not retryable, is nevertheless called three times, without any delay
    in between, before the call fails. *)
Theorem nonretryable_response_is_retried :
  isRetryableError 400 "Invalid video file" = false
  /\ attemptsMade (traceOf (callVisualAnalysisService Samples.rejecting)) = [1; 2; 3]
  /\ delaysWaited (traceOf (callVisualAnalysisService Samples.rejecting)) = []
  /\ outcomeOf (callVisualAnalysisService Samples.rejecting)
     = Throw ("Self-hosted visual analysis failed after 3 attempts: Error: "
              ++ "AI service responded with status 400: Bad Request").
Proof. vm_compute. repeat split; reflexivity. Qed.

End VisualAnalyzerFacts.

(** ** Logs and outcomes of composed computations *)

Module MFacts.

Section Laws.
Context {E A B : Type}.

Lemma traceOf_bind (m : M E A) (f : A -> M E B) :
  traceOf (bind m f)
  = (traceOf m ++ match outcomeOf m with
                  | Ok a => traceOf (f a)
                  | Throw _ => []
                  end)%list.
Proof.
  destruct m as [t [a | msg]]; unfold bind, traceOf, outcomeOf; cbn [fst snd].
  - now destruct (f a).
  - now rewrite List.app_nil_r.
Qed.

Lemma outcomeOf_bind (m : M E A) (f : A -> M E B) :
  outcomeOf (bind m f)
  = match outcomeOf m with
    | Ok a => outcomeOf (f a)
    | Throw msg => Throw msg
    end.
Proof.
  destruct m as [t [a | msg]]; unfold bind, outcomeOf; cbn [fst snd];
    [now destruct (f a) | reflexivity].
Qed.

Lemma traceOf_tryCatch (m : M E A) (h : string -> M E A) :
  traceOf (tryCatch m h)
  = (traceOf m ++ match outcomeOf m with
                  | Ok _ => []
                  | Throw msg => traceOf (h msg)
                  end)%list.
Proof.
  destruct m as [t [a | msg]]; unfold tryCatch, traceOf, outcomeOf; cbn [fst snd].
  - now rewrite List.app_nil_r.
  - now destruct (h msg).
Qed.

Lemma outcomeOf_tryCatch (m : M E A) (h : string -> M E A) :
  outcomeOf (tryCatch m h)
  = match outcomeOf m with
    | Ok a => Ok a
    | Throw msg => outcomeOf (h msg)
    end.
Proof.
  destruct m as [t [a | msg]]; unfold tryCatch, outcomeOf; cbn [fst snd];
    [reflexivity | now destruct (h msg)].
Qed.

Lemma traceOf_tryFinally (m : M E A) (fin : M E unit) :
  traceOf (tryFinally m fin) = (traceOf m ++ traceOf fin)%list.
Proof.
  destruct m as [t r], fin as [t' [u | msg]]; reflexivity.
Qed.

Lemma outcomeOf_tryFinally (m : M E A) (fin : M E unit) :
  outcomeOf (tryFinally m fin)
  = match outcomeOf fin with
    | Ok _ => outcomeOf m
    | Throw msg => Throw msg
    end.
Proof.
  destruct m as [t r], fin as [t' [u | msg]]; reflexivity.
Qed.

End Laws.

(** [Promise.all] over computations none of which throws. *)
Lemma promiseAll_total {E A} (ms : list (M E A)) (values : list A) :
  List.map outcomeOf ms = List.map Ok values ->
  promiseAll ms = (List.concat (List.map traceOf ms), Ok values).
Proof.
  revert values. induction ms as [| [t r] ms IH]; intros values H.
  - destruct values; [reflexivity | discriminate].
  - destruct values as [| v values]; [discriminate |].
    cbn in H. injection H as Hr Hrest. unfold outcomeOf in Hr. cbn in Hr. subst r.
    cbn [promiseAll]. rewrite (IH values Hrest). reflexivity.
Qed.

(** A loop whose body never throws. *)
Lemma foldM_total {E A B} (f : B -> A -> M E B) (step : B -> A -> B)
    (tr : B -> A -> list E) :
  (forall b a, f b a = (tr b a, Ok (step b a))) ->
  forall l b,
    outcomeOf (foldM f l b) = Ok (List.fold_left step l b).
Proof.
  intros Hf. induction l as [| a l IH]; intros b; [reflexivity |].
  cbn [foldM List.fold_left]. rewrite outcomeOf_bind, Hf.
  unfold outcomeOf at 1. cbn [snd]. apply IH.
Qed.

End MFacts.

(** ** The parallel-analysis stage absorbs segment failures *)

Module AnalysisFacts.

Import Segmenter Trigger MFacts.

(** The analysis of one segment never throws: its value tells whether both
    calls went through. *)
Lemma analyzeSegment_outcome (w : World) (segment : VideoSegment) :
  outcomeOf (analyzeSegment w segment) = Ok (analysisSucceeds w segment).
Proof.
  unfold analyzeSegment, analysisSucceeds, audioSucceeds, visualSucceeds.
  unfold start, liftVisual, call, emit, bind. cbn [fst snd].
  destruct (analyzeAudioSegment w (segmentNumber segment)) as [[] | ma];
    destruct (VisualAnalyzer.analyzeVideoSegment _ _ _) as [tv [[] | mv]];
    reflexivity.
Qed.

Lemma analyzeSegment_paired (w : World) (segment : VideoSegment) :
  outcomeOf (bind (analyzeSegment w segment) (fun ok => ret (segment, ok)))
  = Ok (verdict w segment).
Proof. now rewrite outcomeOf_bind, analyzeSegment_outcome. Qed.

Lemma analyzeSegment_paired_trace (w : World) (segment : VideoSegment) :
  traceOf (bind (analyzeSegment w segment) (fun ok => ret (segment, ok)))
  = traceOf (analyzeSegment w segment).
Proof.
  rewrite traceOf_bind, analyzeSegment_outcome. apply List.app_nil_r.
Qed.

(** Saving a result never throws; it bumps exactly one of the two
    counters. *)
Lemma saveResult_total (w : World) (c : Counters) (result : VideoSegment * bool) :
  saveResult w c result = (savedLog result, Ok (saved w c result)).
Proof.
  destruct result as [segment [|]]; unfold saveResult, saved, savedLog, saveSucceeds;
    cbn [fst snd negb andb]; [| reflexivity].
  unfold start, call, emit, bind, tryCatch, ret. cbn [fst snd].
  destruct (segmentSet w (segmentNumber segment)) as [[] | m]; reflexivity.
Qed.

Lemma saved_all (w : World) (l : list VideoSegment) :
  forall c,
    List.fold_left (saved w) (List.map (verdict w) l) c
    = mkCounters (completedSegments c)
        (successfulSegments c + List.length (List.filter (segmentSucceeds w) l))
        (failedSegments c
         + List.length (List.filter (fun s => negb (segmentSucceeds w s)) l)).
Proof.
  induction l as [| segment l IH]; intros c.
  - destruct c. cbn. f_equal; lia.
  - cbn [List.map List.fold_left List.filter]. rewrite IH.
    unfold saved, verdict. cbn [fst snd].
    change (analysisSucceeds w segment && saveSucceeds w segment)
      with (segmentSucceeds w segment).
    destruct (segmentSucceeds w segment); cbn [negb List.length
      completedSegments successfulSegments failedSegments]; f_equal; lia.
Qed.

Lemma countSegments_app (w : World) (l1 l2 : list VideoSegment) (c : Counters) :
  countSegments w l2 (countSegments w l1 c) = countSegments w (l1 ++ l2) c.
Proof.
  unfold countSegments. cbn [completedSegments successfulSegments failedSegments].
  rewrite !List.filter_app, !List.length_app. f_equal; lia.
Qed.

Lemma concat_segmentChunks {A} (l : list A) :
  List.concat (segmentChunks l) = l.
Proof.
  enough (H : List.concat (segmentChunks l) = l
              /\ forall a, List.concat (segmentChunks (a :: l)) = a :: l) by apply H.
  induction l as [| b l [IH1 IH2]].
  - split; [reflexivity | intros a; reflexivity].
  - split; [apply IH2 |]. intros a. cbn [segmentChunks List.concat List.app].
    now rewrite IH1.
Qed.

Section HealthyUpdates.

Variable w : World.
Hypothesis updates : forall p, videoUpdate w p = Ok tt.

Lemma update_persists (p : VideoPatch) : update w p = emit (Persist p).
Proof. unfold update. now rewrite updates. Qed.

Lemma chunkResults_total (chunk : list VideoSegment) :
  promiseAll (List.map (fun segment =>
                          bind (analyzeSegment w segment) (fun ok => ret (segment, ok)))
                       chunk)
  = (List.concat (List.map (fun segment => traceOf (analyzeSegment w segment)) chunk),
     Ok (List.map (verdict w) chunk)).
Proof.
  rewrite (promiseAll_total _ (List.map (verdict w) chunk)).
  - rewrite List.map_map. f_equal. f_equal. apply List.map_ext. intros segment.
    apply analyzeSegment_paired_trace.
  - rewrite !List.map_map. apply List.map_ext. intros segment.
    apply analyzeSegment_paired.
Qed.

(** One batch never throws and counts each of its segments once. *)
Lemma processChunk_outcome (chunks chunkIndex : nat) (chunk : list VideoSegment)
    (c : Counters) :
  outcomeOf (processChunk w chunks chunkIndex chunk c) = Ok (countSegments w chunk c).
Proof.
  unfold processChunk. rewrite update_persists.
  rewrite outcomeOf_bind. cbn [outcomeOf emit snd].
  rewrite outcomeOf_bind, chunkResults_total. cbn [outcomeOf snd].
  rewrite outcomeOf_bind.
  rewrite (foldM_total _ (saved w) (fun _ r => savedLog r))
    by (intros; apply saveResult_total).
  rewrite saved_all. reflexivity.
Qed.

(** The whole batch loop never throws. *)
Lemma processChunks_outcome (chunks : nat) (rest : list (list VideoSegment)) :
  forall chunkIndex c,
    outcomeOf (processChunks w chunks chunkIndex rest c)
    = Ok (countSegments w (List.concat rest) c).
Proof.
  induction rest as [| chunk rest IH]; intros chunkIndex c.
  - destruct c. unfold countSegments. cbn. f_equal. f_equal; lia.
  - cbn [processChunks List.concat]. rewrite outcomeOf_bind, processChunk_outcome.
    rewrite IH. now rewrite countSegments_app.
Qed.

Section Observed.

(** An observation of the log that reads the starts of the two analyses
    and nothing else. *)
Variable observe : Event -> list nat.
Variables onAudio onVisual : nat -> list nat.
Hypothesis observe_audio : forall n, observe (Start (AnalyzeAudio n)) = onAudio n.
Hypothesis observe_visual : forall n, observe (Start (AnalyzeVisual n)) = onVisual n.
Hypothesis observe_save : forall n, observe (Start (SaveSegment n)) = [].
Hypothesis observe_persist : forall p, observe (Persist p) = [].
Hypothesis observe_inner : forall n e, observe (VisualCall n e) = [].

Lemma flat_map_inner (n : nat) (t : list VisualAnalyzer.Event) :
  List.flat_map observe (List.map (VisualCall n) t) = [].
Proof.
  induction t as [| e t IH]; [reflexivity |].
  cbn [List.map List.flat_map]. now rewrite observe_inner, IH.
Qed.

(** Both calls of a segment are started, whatever their outcomes. *)
Lemma analyzeSegment_observed (segment : VideoSegment) :
  List.flat_map observe (traceOf (analyzeSegment w segment))
  = (onAudio (segmentNumber segment) ++ onVisual (segmentNumber segment))%list.
Proof.
  unfold analyzeSegment.
  unfold start, liftVisual, call, emit, bind. cbn [fst snd].
  destruct (analyzeAudioSegment w (segmentNumber segment)) as [[] | ma];
    destruct (VisualAnalyzer.analyzeVideoSegment _ _ _) as [tv [[] | mv]];
    unfold traceOf; cbn [promiseAll tryCatch ret fst snd List.app];
    rewrite ?List.app_nil_r; cbn [List.flat_map List.app];
    rewrite ?List.flat_map_app; cbn [List.flat_map];
    rewrite ?observe_audio, ?observe_visual, ?flat_map_inner, ?List.app_nil_r;
    reflexivity.
Qed.

Lemma saves_observed (results : list (VideoSegment * bool)) :
  forall c, List.flat_map observe (traceOf (foldM (saveResult w) results c)) = [].
Proof.
  induction results as [| r results IH]; intros c; [reflexivity |].
  cbn [foldM]. rewrite traceOf_bind, saveResult_total.
  cbn [traceOf outcomeOf fst snd]. rewrite List.flat_map_app.
  fold (traceOf (foldM (saveResult w) results (saved w c r))). rewrite IH.
  unfold savedLog. destruct (snd r); cbn [List.flat_map];
    rewrite ?observe_save; reflexivity.
Qed.

Lemma processChunk_observed (chunks chunkIndex : nat) (chunk : list VideoSegment)
    (c : Counters) :
  List.flat_map observe (traceOf (processChunk w chunks chunkIndex chunk c))
  = List.flat_map (fun segment => (onAudio (segmentNumber segment)
                                   ++ onVisual (segmentNumber segment))%list) chunk.
Proof.
  unfold processChunk. rewrite update_persists.
  rewrite traceOf_bind. cbn [traceOf outcomeOf emit fst snd].
  cbn [List.app List.flat_map]. rewrite observe_persist. cbn [List.app].
  fold (traceOf (bind (promiseAll
          (List.map (fun segment =>
                       bind (analyzeSegment w segment) (fun ok => ret (segment, ok)))
                    chunk))
          (fun chunkResults =>
             bind (foldM (saveResult w) chunkResults c)
               (fun c' => ret (mkCounters (completedSegments c' + List.length chunk)
                                 (successfulSegments c') (failedSegments c')))))).
  rewrite traceOf_bind, chunkResults_total. cbn [traceOf outcomeOf fst snd].
  rewrite List.flat_map_app.
  fold (traceOf (bind (foldM (saveResult w) (List.map (verdict w) chunk) c)
                   (fun c' => ret (mkCounters (completedSegments c' + List.length chunk)
                                     (successfulSegments c') (failedSegments c'))))).
  rewrite traceOf_bind, List.flat_map_app, saves_observed.
  rewrite (foldM_total _ (saved w) (fun _ r => savedLog r))
    by (intros; apply saveResult_total).
  cbn [ret traceOf fst List.flat_map]. rewrite !List.app_nil_r.
  induction chunk as [| segment chunk IH]; [reflexivity |].
  cbn [List.map List.concat List.flat_map]. rewrite List.flat_map_app.
  now rewrite analyzeSegment_observed, IH.
Qed.

Lemma processChunks_observed (chunks : nat) (rest : list (list VideoSegment)) :
  forall chunkIndex c,
    List.flat_map observe (traceOf (processChunks w chunks chunkIndex rest c))
    = List.flat_map (fun segment => (onAudio (segmentNumber segment)
                                     ++ onVisual (segmentNumber segment))%list)
                    (List.concat rest).
Proof.
  induction rest as [| chunk rest IH]; intros chunkIndex c; [reflexivity |].
  cbn [processChunks List.concat]. rewrite traceOf_bind, processChunk_outcome.
  rewrite !List.flat_map_app, processChunk_observed, IH. reflexivity.
Qed.

End Observed.

Lemma flat_map_singleton {A B} (f : A -> B) (l : list A) :
  List.flat_map (fun a => ([f a] ++ [])%list) l = List.map f l.
Proof. induction l as [| a l IH]; [reflexivity |]. cbn. now f_equal. Qed.

Lemma flat_map_singleton' {A B} (f : A -> B) (l : list A) :
  List.flat_map (fun a => ([] ++ [f a])%list) l = List.map f l.
Proof. induction l as [| a l IH]; [reflexivity |]. cbn. now f_equal. Qed.

(** Every segment has its audio analysis and its visual analysis started,
    in segment order. *)
Lemma analyzeSegments_starts (segments : list VideoSegment) :
  audioStarted (traceOf (analyzeSegments w segments)) = List.map segmentNumber segments
  /\ analysesStarted (traceOf (analyzeSegments w segments))
     = List.map segmentNumber segments.
Proof.
  unfold analyzeSegments, audioStarted, analysesStarted. split.
  - rewrite (processChunks_observed _ (fun n => [n]) (fun _ => []));
      try (intros; reflexivity).
    now rewrite concat_segmentChunks, flat_map_singleton.
  - rewrite (processChunks_observed _ (fun _ => []) (fun n => [n]));
      try (intros; reflexivity).
    now rewrite concat_segmentChunks, flat_map_singleton'.
Qed.

Lemma analyzeSegments_outcome (segments : list VideoSegment) :
  outcomeOf (analyzeSegments w segments)
  = Ok (countSegments w segments (mkCounters 0 0 0)).
Proof.
  unfold analyzeSegments. now rewrite processChunks_outcome, concat_segmentChunks.
Qed.

End HealthyUpdates.

(** C4. Provided the progress persists of the batches go through, the
    parallel-analysis stage returns normally for any outcome of the
    per-segment calls: no exception leaves it.  Every segment, of every
    batch, has both its audio and its visual analysis started; the counters
    end with every segment completed, the successful counter at the number
    of segments analyzed and saved, and the failed counter at the number of
    the others; in particular a segment whose audio or visual call fails
    (after the retries of the call) is counted as failed. *)
Theorem segment_failures_are_absorbed (w : World) (segments : list VideoSegment) :
  (forall p, videoUpdate w p = Ok tt) ->
  exists c,
    outcomeOf (analyzeSegments w segments) = Ok c
    /\ completedSegments c = List.length segments
    /\ successfulSegments c = List.length (List.filter (segmentSucceeds w) segments)
    /\ failedSegments c
       = List.length (List.filter (fun s => negb (segmentSucceeds w s)) segments)
    /\ successfulSegments c + failedSegments c = List.length segments
    /\ audioStarted (traceOf (analyzeSegments w segments))
       = List.map segmentNumber segments
    /\ analysesStarted (traceOf (analyzeSegments w segments))
       = List.map segmentNumber segments
    /\ (forall segment,
          In segment segments ->
          audioSucceeds w segment = false \/ visualSucceeds w segment = false ->
          In segment (List.filter (fun s => negb (segmentSucceeds w s)) segments)
          /\ 0 < failedSegments c).
Proof.
  intros Hupd. eexists. split; [now apply analyzeSegments_outcome |].
  cbn [countSegments completedSegments successfulSegments failedSegments].
  destruct (analyzeSegments_starts w Hupd segments) as [Ha Hv].
  repeat split; try reflexivity; try assumption.
  - pose proof (ResumeFacts.filter_split_length (segmentSucceeds w) segments). lia.
  - apply List.filter_In. split; [assumption |].
    unfold segmentSucceeds, analysisSucceeds.
    destruct H0 as [-> | ->]; [reflexivity |].
    now rewrite andb_false_r.
  - assert (Hin : In segment (List.filter (fun s => negb (segmentSucceeds w s)) segments)).
    { apply List.filter_In. split; [assumption |].
      unfold segmentSucceeds, analysisSucceeds.
      destruct H0 as [-> | ->]; [reflexivity |]. now rewrite andb_false_r. }
    destruct (List.filter (fun s => negb (segmentSucceeds w s)) segments);
      [contradiction | cbn; lia].
Qed.


(** The theorem applies to the sample run: ten segments, of which segment 3
    fails its visual analysis. *)
Lemma segment_failures_are_absorbed_witness :
  exists c,
    outcomeOf (analyzeSegments Samples.world Samples.segments) = Ok c
    /\ completedSegments c = List.length Samples.segments
    /\ successfulSegments c
       = List.length (List.filter (segmentSucceeds Samples.world) Samples.segments)
    /\ failedSegments c
       = List.length (List.filter (fun s => negb (segmentSucceeds Samples.world s))
                        Samples.segments)
    /\ successfulSegments c + failedSegments c = List.length Samples.segments
    /\ audioStarted (traceOf (analyzeSegments Samples.world Samples.segments))
       = List.map segmentNumber Samples.segments
    /\ analysesStarted (traceOf (analyzeSegments Samples.world Samples.segments))
       = List.map segmentNumber Samples.segments
    /\ (forall segment,
          In segment Samples.segments ->
          audioSucceeds Samples.world segment = false
          \/ visualSucceeds Samples.world segment = false ->
          In segment (List.filter (fun s => negb (segmentSucceeds Samples.world s))
                        Samples.segments)
          /\ 0 < failedSegments c).
Proof.
  apply (segment_failures_are_absorbed Samples.world Samples.segments).
  intros p. reflexivity.
Defined.

(** On the sample run the stage ends with ten segments completed, eight
    successful and two failed (segments 3 and 7). *)
Example sample_counters :
  outcomeOf (analyzeSegments Samples.world Samples.segments) = Ok (mkCounters 10 8 2).
Proof. vm_compute. reflexivity. Qed.

End AnalysisFacts.

(** ** The final status *)

Module StatusFacts.

Import Trigger.

Lemma jsDiv_finite (s n : nat) :
  0 < n ->
  jsDiv s n = Finite (Binary64.div (Binary64.ofNat s) (Binary64.ofNat n)).
Proof.
  intros H. unfold jsDiv. destruct (Nat.eqb_spec n 0); [lia | reflexivity].
Qed.

Lemma thresholds :
  (Binary64.round belowNinety == belowNinety)%Q
  /\ (belowNinety < ninetyPercent)%Q
  /\ (Binary64.round belowFifty == belowFifty)%Q
  /\ (belowFifty < fiftyPercent)%Q.
Proof. vm_compute. repeat split; reflexivity. Qed.

(** The rate of [s] out of [n] segments, for counts that binary64 holds
    exactly. *)
Lemma rate_value (s n : nat) :
  0 < n -> s <= n -> (Z.of_nat n < 2 ^ 50)%Z ->
  (Binary64.div (Binary64.ofNat s) (Binary64.ofNat n)
   == Binary64.round (inject_Z (Z.of_nat s) / inject_Z (Z.of_nat n)))%Q.
Proof.
  intros Hn Hs Hb. unfold Binary64.div.
  assert (Hs0 : (0 <= inject_Z (Z.of_nat s))%Q).
  { change 0%Q with (inject_Z 0). rewrite <- Zle_Qle. lia. }
  assert (Hn0 : (0 < inject_Z (Z.of_nat n))%Q)
    by (apply Binary64Facts.inject_pos; lia).
  pose proof (Binary64Facts.ofNat_exact s ltac:(lia)) as Es.
  pose proof (Binary64Facts.ofNat_exact n ltac:(lia)) as En.
  apply Binary64Facts.round_comp.
  - rewrite Es, En. apply Qle_shift_div_l; [exact Hn0 |]. now rewrite Qmult_0_l.
  - now rewrite Es, En.
Qed.

(** The thresholds in whole numbers: 90 % is [9 n <= 10 s], 50 % is
    [n <= 2 s].  The counts are lengths of arrays, which stay below
    [2^32]. *)
Lemma finalStatus_counts (s n : nat) :
  0 < n -> s <= n -> (Z.of_nat n < 2 ^ 32)%Z ->
  finalStatus s n
  = if 9 * n <=? 10 * s then analysis_complete
    else if n <=? 2 * s then analysis_partial
    else analysis_failed.
Proof.
  intros Hn Hs Hb. unfold finalStatus, finalStatusOf.
  rewrite jsDiv_finite by assumption. cbn [jsGe].
  pose proof (rate_value s n Hn Hs ltac:(lia)) as Hrate.
  set (v := Binary64.div (Binary64.ofNat s) (Binary64.ofNat n)) in *.
  set (q := (inject_Z (Z.of_nat s) / inject_Z (Z.of_nat n))%Q) in *.
  assert (Hn0 : (0 < inject_Z (Z.of_nat n))%Q)
    by (apply Binary64Facts.inject_pos; lia).
  assert (Hq0 : (0 <= q)%Q).
  { unfold q. apply Qle_shift_div_l; [exact Hn0 |]. rewrite Qmult_0_l.
    change 0%Q with (inject_Z 0). rewrite <- Zle_Qle. lia. }
  destruct thresholds as (E9 & L9 & E5 & L5).
  assert (Hge : forall a b : Z, (0 < b)%Z ->
            (a * Z.of_nat n <= b * Z.of_nat s)%Z -> (inject_Z a / inject_Z b <= q)%Q).
  { intros a b Hb0 H. unfold q.
    apply Binary64Facts.div_le_cross;
      [apply Binary64Facts.inject_pos; exact Hb0 | exact Hn0 |].
    rewrite <- !inject_Z_mult, <- Zle_Qle. lia. }
  assert (Hle : forall a b : Z, (0 < b)%Z ->
            (b * Z.of_nat s <= a * Z.of_nat n)%Z -> (q <= inject_Z a / inject_Z b)%Q).
  { intros a b Hb0 H. unfold q.
    apply Binary64Facts.div_le_cross;
      [exact Hn0 | apply Binary64Facts.inject_pos; exact Hb0 |].
    rewrite <- !inject_Z_mult, <- Zle_Qle. lia. }
  assert (H9 : Qle_bool ninetyPercent v = (9 * n <=? 10 * s)).
  { destruct (Nat.leb_spec (9 * n) (10 * s)) as [H | H].
    - apply Qle_bool_iff. rewrite Hrate. unfold ninetyPercent.
      apply Binary64Facts.round_mono; [discriminate |].
      rewrite (Qmake_Qdiv 9 10). apply Hge; lia.
    - destruct (Qle_bool ninetyPercent v) eqn:E; [| reflexivity].
      apply Qle_bool_iff in E. exfalso.
      assert (Hv : (v <= belowNinety)%Q).
      { rewrite Hrate, <- E9. apply Binary64Facts.round_mono; [exact Hq0 |].
        unfold belowNinety. rewrite Qmake_Qdiv. apply Hle; lia. }
      apply (Qlt_irrefl belowNinety).
      eapply Qlt_le_trans; [exact L9 |]. eapply Qle_trans; [exact E | exact Hv]. }
  assert (H5 : Qle_bool fiftyPercent v = (n <=? 2 * s)).
  { destruct (Nat.leb_spec n (2 * s)) as [H | H].
    - apply Qle_bool_iff. rewrite Hrate. unfold fiftyPercent.
      apply Binary64Facts.round_mono; [discriminate |].
      rewrite (Qmake_Qdiv 1 2). apply Hge; lia.
    - destruct (Qle_bool fiftyPercent v) eqn:E; [| reflexivity].
      apply Qle_bool_iff in E. exfalso.
      assert (Hv : (v <= belowFifty)%Q).
      { rewrite Hrate, <- E5. apply Binary64Facts.round_mono; [exact Hq0 |].
        unfold belowFifty. rewrite Qmake_Qdiv. apply Hle; lia. }
      apply (Qlt_irrefl belowFifty).
      eapply Qlt_le_trans; [exact L5 |]. eapply Qle_trans; [exact E | exact Hv]. }
  now rewrite H9, H5.
Qed.

(** A run without segments divides zero by zero: the rate is [NaN], both
    comparisons fail and the status is [analysis_failed]. *)
Example no_segments_fails : finalStatus 0 0 = analysis_failed.
Proof. reflexivity. Qed.


Lemma agreeUpTo_sound (bound : nat) :
  agreeUpTo bound = true ->
  forall s n, s <= bound -> n <= bound -> finalStatusBinary64 s n = finalStatus s n.
Proof.
  intros H s n Hs Hn.
  unfold agreeUpTo in H. rewrite List.forallb_forall in H.
  assert (Hin : forall k, k <= bound -> In k (List.seq 0 (S bound)))
    by (intros k Hk; apply List.in_seq; lia).
  specialize (H n (Hin n Hn)). rewrite List.forallb_forall in H.
  specialize (H s (Hin s Hs)). now apply bool_decide_eq_true in H.
Qed.

Lemma agreeUpTo_200 : agreeUpTo 200 = true.
Proof. vm_compute. reflexivity. Qed.

(** On counts up to 200 segments the exact quotient and its binary64
    rounding choose the same status, the boundaries at 90 % and 50 %
    included. *)
Lemma binary64_agrees (s n : nat) :
  s <= 200 -> n <= 200 -> finalStatusBinary64 s n = finalStatus s n.
Proof. exact (agreeUpTo_sound 200 agreeUpTo_200 s n). Qed.

(** The percentages of the progress and success rates, and the progress
    of the batches, have the value the hardware computes, for all counts up
    to 100. *)
Lemma scaled_agrees :
  scaledAgreeUpTo 100 100 = true /\ scaledAgreeUpTo 25 100 = true.
Proof. vm_compute. split; reflexivity. Qed.

Example binary64_ties :
  roundPercent 23 40 = 57 /\ chunkProgress 29 50 = 84 /\ roundPercent 199 200 = 100.
Proof. vm_compute. repeat split. Qed.

Example binary64_boundaries :
  List.map (fun s => finalStatusBinary64 s 10) [9; 8; 5; 4]
  = [analysis_complete; analysis_partial; analysis_partial; analysis_failed].
Proof. vm_compute. reflexivity. Qed.

End StatusFacts.

(** ** The progress contract of the background run *)

Module ContractFacts.

Import Segmenter Trigger MFacts.

(** *** Logs *)

Lemma documentAfter_app (doc : VideoPatch) (t1 t2 : list Event) :
  documentAfter doc (t1 ++ t2) = documentAfter (documentAfter doc t1) t2.
Proof. unfold documentAfter. apply List.fold_left_app. Qed.

Lemma documentAfter_cons (doc : VideoPatch) (e : Event) (t : list Event) :
  documentAfter doc (e :: t)
  = documentAfter (match e with Persist p => applyPatch doc p | _ => doc end) t.
Proof. reflexivity. Qed.

(** The [finally] block writes nothing and does not throw. *)
Lemma cleanup_outcome (w : World) : outcomeOf (cleanupFiles w) = Ok tt.
Proof. unfold cleanupFiles. now destruct (downloaded w). Qed.

Lemma cleanup_trace (w : World) :
  traceOf (cleanupFiles w) = if downloaded w then [Cleanup] else [].
Proof. unfold cleanupFiles. now destruct (downloaded w). Qed.

Lemma documentAfter_cleanup (w : World) (doc : VideoPatch) :
  documentAfter doc (traceOf (cleanupFiles w)) = doc.
Proof. rewrite cleanup_trace. now destruct (downloaded w). Qed.

Lemma keepsContract_app (t1 t2 : list Event) :
  forall doc,
    keepsContract doc (t1 ++ t2)
    <-> keepsContract doc t1 /\ keepsContract (documentAfter doc t1) t2.
Proof.
  induction t1 as [| e t1 IH]; intros doc.
  - cbn. tauto.
  - destruct e as [p | task | n e |]; cbn [List.app keepsContract];
      rewrite documentAfter_cons, IH; tauto.
Qed.

Lemma docProgress_applyPatch (doc p : VideoPatch) :
  docProgress (applyPatch doc p)
  = match p_analysisProgress p with
    | Some n => n
    | None => docProgress doc
    end.
Proof. unfold docProgress. cbn. now destruct (p_analysisProgress p). Qed.

(** A log that keeps the contract persists non-decreasing progress values,
    none below the value the document showed at the start. *)
Lemma keepsContract_sorted (t : list Event) :
  forall doc,
    keepsContract doc t ->
    StronglySorted le (progressValues t)
    /\ List.Forall (le (docProgress doc)) (progressValues t).
Proof.
  induction t as [| e t IH]; intros doc H.
  - split; constructor.
  - destruct e as [p | task | n e |]; cbn [keepsContract] in H;
      unfold progressValues; cbn [List.flat_map];
      fold (progressValues t).
    + destruct H as [Hp Ht]. apply IH in Ht as [Hs Hf].
      rewrite docProgress_applyPatch in Hf. unfold persistInOrder in Hp.
      destruct (p_analysisProgress p) as [n |]; cbn [List.app].
      * destruct Hp as [Hle _]. split.
        -- constructor; assumption.
        -- constructor; [exact Hle |].
           eapply List.Forall_impl; [| exact Hf]. intros x Hx. cbn in Hx. lia.
      * split; assumption.
    + destruct H as [_ Ht]. now apply IH.
    + now apply IH.
    + now apply IH.
Qed.

(** When a task starts, the document shows its marker. *)
Lemma keepsContract_marker (doc : VideoPatch) (pre post : list Event) (task : Task) :
  keepsContract doc (pre ++ Start task :: post) ->
  showsMarker (documentAfter doc pre) task.
Proof.
  intros H. apply keepsContract_app in H as [_ H]. cbn [keepsContract] in H. tauto.
Qed.

(** Every persisted progress value comes with a step description, the
    bumps to 40, 60 and 70 apart. *)
Lemma keepsContract_described (t : list Event) :
  forall doc p n,
    keepsContract doc t ->
    In (Persist p) t ->
    p_analysisProgress p = Some n ->
    describesStep p = true \/ n = 40 \/ n = 60 \/ n = 70.
Proof.
  induction t as [| e t IH]; intros doc p n H Hin Hn; [contradiction |].
  destruct Hin as [-> | Hin].
  - cbn [keepsContract] in H. destruct H as [Hp _].
    unfold persistInOrder in Hp. rewrite Hn in Hp. tauto.
  - destruct e as [q | task | k e |]; cbn [keepsContract] in H.
    + destruct H as [_ H]. eapply IH; eassumption.
    + destruct H as [_ H]. eapply IH; eassumption.
    + eapply IH; eassumption.
    + eapply IH; eassumption.
Qed.

(** *** Rules for the computations of the run *)

Lemma bind_emit {A} (e : Event) (k : unit -> M Event A) :
  bind (emit e) k = (e :: traceOf (k tt), outcomeOf (k tt)).
Proof. unfold bind, emit, traceOf, outcomeOf. now destruct (k tt). Qed.

Lemma keeps_ret {A} (P : VideoPatch -> Prop) (a : A) :
  keeps P (ret a) (fun _ => P).
Proof. intros doc HP. split; [exact I | intros a' _; exact HP]. Qed.

Lemma keeps_bind {A B} (P : VideoPatch -> Prop) (Q : A -> VideoPatch -> Prop)
    (R : B -> VideoPatch -> Prop) (m : M Event A) (f : A -> M Event B) :
  keeps P m Q ->
  (forall a, keeps (Q a) (f a) R) ->
  keeps P (bind m f) R.
Proof.
  intros Hm Hf doc HP. destruct (Hm doc HP) as [Hc Hq].
  rewrite traceOf_bind, outcomeOf_bind.
  destruct (outcomeOf m) as [a | msg].
  - specialize (Hq a eq_refl). destruct (Hf a _ Hq) as [Hc' Hr]. split.
    + apply keepsContract_app. split; assumption.
    + intros b Hb. rewrite documentAfter_app. now apply Hr.
  - rewrite List.app_nil_r. split; [assumption | discriminate].
Qed.

Lemma keeps_weaken {A} (P P' : VideoPatch -> Prop) (Q Q' : A -> VideoPatch -> Prop)
    (m : M Event A) :
  (forall doc, P doc -> P' doc) ->
  (forall a doc, Q' a doc -> Q a doc) ->
  keeps P' m Q' ->
  keeps P m Q.
Proof.
  intros HP HQ Hm doc Hd. destruct (Hm doc (HP doc Hd)) as [Hc Hq].
  split; [assumption | intros a Ha; apply HQ; now apply Hq].
Qed.

Section Rules.

Variable w : World.

(** A persist that names the step. *)
Lemma keeps_update_step (P : VideoPatch -> Prop) (p : VideoPatch)
    (cur : string) (n : nat) :
  p_analysisProgress p = Some n ->
  p_currentStep p = Some cur ->
  (forall doc, P doc -> docProgress doc <= n) ->
  keeps P (update w p) (fun _ => marker cur n).
Proof.
  intros Hn Hcur Hle doc HP. unfold update.
  destruct (videoUpdate w p) as [[] | msg].
  - cbn [emit traceOf outcomeOf fst snd keepsContract]. split.
    + split; [| exact I]. unfold persistInOrder. rewrite Hn.
      split; [now apply Hle |]. left. unfold describesStep. now rewrite Hcur.
    + intros _ _. unfold documentAfter, marker. cbn. now rewrite Hn, Hcur.
  - split; [exact I | discriminate].
Qed.

(** A bare bump of the progress value. *)
Lemma keeps_update_bare (cur : string) (m n : nat) :
  m <= n ->
  n = 40 \/ n = 60 \/ n = 70 ->
  keeps (marker cur m) (update w (progressOnly n)) (fun _ => marker cur n).
Proof.
  intros Hle Hn doc [Hc Hp]. unfold update.
  destruct (videoUpdate w (progressOnly n)) as [[] | msg].
  - cbn [emit traceOf outcomeOf fst snd keepsContract]. split.
    + split; [| exact I]. unfold persistInOrder, docProgress. cbn. rewrite Hp.
      split; [exact Hle | now right].
    + intros _ _. unfold documentAfter, marker. cbn. now rewrite Hc.
  - split; [exact I | discriminate].
Qed.

(** A persist that touches neither the progress nor the step. *)
Lemma keeps_update_neutral (P : VideoPatch -> Prop) (p : VideoPatch) :
  p_analysisProgress p = None ->
  (forall doc, P doc -> P (applyPatch doc p)) ->
  keeps P (update w p) (fun _ => P).
Proof.
  intros Hn Hstable doc HP. unfold update.
  destruct (videoUpdate w p) as [[] | msg].
  - cbn [emit traceOf outcomeOf fst snd keepsContract]. split.
    + split; [| exact I]. unfold persistInOrder. now rewrite Hn.
    + intros _ _. unfold documentAfter. cbn [List.fold_left]. now apply Hstable.
  - split; [exact I | discriminate].
Qed.

(** The start of a stage whose marker the document shows. *)
Lemma keeps_start {A} (cur : string) (n : nat) (task : Task) (outcome : Result A) :
  stageLabel task = cur ->
  stageProgress task n = true ->
  keeps (marker cur n) (start task outcome) (fun _ => marker cur n).
Proof.
  intros Hl Hp doc [Hc Hn]. unfold start, bind, emit, call.
  cbn [traceOf outcomeOf fst snd List.app keepsContract]. split.
  - split; [| exact I]. unfold showsMarker. rewrite Hl. split; [exact Hc |].
    exists n. split; assumption.
  - intros a _. unfold documentAfter. cbn. split; assumption.
Qed.

(** *** The analysis stage *)

Lemma analysisLog_keeps (hi : nat) (t : list Event) :
  hi <= 95 ->
  List.Forall analysisEvent t ->
  forall doc, analysing hi doc ->
    keepsContract doc t /\ documentAfter doc t = doc.
Proof.
  intros Hhi Ht doc Hd. induction Ht as [| e t He Ht IH]; [split; [exact I | reflexivity] |].
  destruct IH as [IH1 IH2].
  destruct e as [p | task | n e |]; cbn [keepsContract analysisEvent] in *;
    unfold documentAfter in *; cbn [List.fold_left]; try contradiction;
    try (split; assumption).
  split; [| assumption]. split; [| assumption].
  destruct Hd as [Hc (n & Hn & H70 & Hle)].
  unfold showsMarker. rewrite He. split; [exact Hc |].
  exists n. split; [exact Hn |].
  destruct task; try discriminate He; cbn [stageProgress];
    apply andb_true_iff; split; apply Nat.leb_le; lia.
Qed.

Lemma analyzeSegment_log (segment : VideoSegment) :
  List.Forall analysisEvent (traceOf (analyzeSegment w segment)).
Proof.
  unfold analyzeSegment, start, liftVisual, call, emit, bind. cbn [fst snd].
  destruct (analyzeAudioSegment w (segmentNumber segment)) as [[] | ma];
    destruct (VisualAnalyzer.analyzeVideoSegment _ _ _) as [tv [[] | mv]];
    unfold traceOf; cbn [promiseAll tryCatch ret fst snd List.app];
    rewrite ?List.app_nil_r;
    repeat (apply List.Forall_cons; [reflexivity |]);
    apply List.Forall_forall; intros e He;
    apply List.in_map_iff in He as (x & <- & _); exact I.
Qed.

Lemma saves_log (results : list (VideoSegment * bool)) :
  forall c, List.Forall analysisEvent (traceOf (foldM (saveResult w) results c)).
Proof.
  induction results as [| r results IH]; intros c; [constructor |].
  cbn [foldM]. rewrite traceOf_bind, AnalysisFacts.saveResult_total.
  cbn [traceOf outcomeOf fst snd]. apply List.Forall_app. split.
  - unfold savedLog. destruct (snd r); repeat constructor.
  - apply IH.
Qed.

Lemma promiseAll_log {A} (ms : list (M Event A)) :
  List.Forall (fun m => List.Forall analysisEvent (traceOf m)) ms ->
  List.Forall analysisEvent (traceOf (promiseAll ms)).
Proof.
  induction 1 as [| [t r] ms Hm Hms IH]; [constructor |].
  cbn [promiseAll]. destruct (promiseAll ms) as [t' rs].
  unfold traceOf in *. cbn [fst] in *. apply List.Forall_app. split; assumption.
Qed.

Lemma chunkResults_log (chunk : list VideoSegment) :
  List.Forall analysisEvent
    (traceOf (promiseAll
                (List.map (fun segment =>
                             bind (analyzeSegment w segment)
                                  (fun ok => ret (segment, ok))) chunk))).
Proof.
  apply promiseAll_log. apply List.Forall_map, List.Forall_forall.
  intros segment _. rewrite AnalysisFacts.analyzeSegment_paired_trace.
  apply analyzeSegment_log.
Qed.

(** The progress of batch [i] of [m] stays within 70..95 and does not
    decrease from batch to batch. *)
Lemma chunkProgress_bounds (i m : nat) :
  i <= m -> 70 <= chunkProgress i m /\ chunkProgress i m <= 95.
Proof.
  intros H. unfold chunkProgress. split; [lia |].
  pose proof (Binary64Facts.roundScaled_le i m 25 H ltac:(lia)). lia.
Qed.

Lemma chunkProgress_mono (i m : nat) :
  chunkProgress i m <= chunkProgress (i + 1) m.
Proof.
  unfold chunkProgress. apply Nat.add_le_mono_l.
  pose proof (Binary64Facts.roundScaled_mono i (i + 1) m 25 ltac:(lia) ltac:(lia)).
  lia.
Qed.

(** One batch keeps the contract. *)
Lemma keeps_processChunk (chunks chunkIndex : nat) (chunk : list VideoSegment)
    (c : Counters) :
  chunkIndex <= chunks ->
  keeps (analysing (chunkProgress chunkIndex chunks))
        (processChunk w chunks chunkIndex chunk c)
        (fun _ => analysing (chunkProgress chunkIndex chunks)).
Proof.
  intros Hi doc Hd.
  destruct (chunkProgress_bounds chunkIndex chunks Hi) as [H70 H95].
  unfold processChunk, update.
  match goal with |- context [videoUpdate w ?p] => set (patch := p) end.
  destruct (videoUpdate w patch) as [[] | msg];
    [| split; [exact I | discriminate]].
  rewrite bind_emit.
  set (rest := bind (promiseAll _) _).
  cbn [traceOf outcomeOf fst snd].
  set (doc' := applyPatch doc patch).
  assert (Hd' : analysing (chunkProgress chunkIndex chunks) doc').
  { destruct Hd as [Hc _]. split; [cbn; now rewrite Hc |].
    exists (chunkProgress chunkIndex chunks). cbn. split; [reflexivity | lia]. }
  assert (Hlog : List.Forall analysisEvent (traceOf rest)).
  { unfold rest. rewrite traceOf_bind. apply List.Forall_app. split.
    - apply chunkResults_log.
    - rewrite AnalysisFacts.chunkResults_total. cbn [outcomeOf snd].
      rewrite traceOf_bind. apply List.Forall_app. split; [apply saves_log |].
      destruct (outcomeOf _); constructor. }
  destruct (analysisLog_keeps _ _ H95 Hlog doc' Hd') as [Hk Hsame].
  fold (traceOf rest). cbn [keepsContract]. split.
  - split; [| exact Hk]. unfold persistInOrder, patch. cbn.
    destruct Hd as [_ (n & Hn & _ & Hle)]. unfold docProgress. rewrite Hn.
    split; [exact Hle | now left].
  - intros a _. rewrite documentAfter_cons. fold doc'. now rewrite Hsame.
Qed.

(** The batch loop keeps the contract and leaves the progress at most at
    95. *)
Lemma keeps_processChunks (chunks : nat) (rest : list (list VideoSegment)) :
  forall chunkIndex c,
    chunkIndex + List.length rest = chunks ->
    keeps (analysing (chunkProgress chunkIndex chunks))
          (processChunks w chunks chunkIndex rest c)
          (fun _ => analysing 95).
Proof.
  induction rest as [| chunk rest IH]; intros chunkIndex c Hlen.
  - cbn [processChunks]. eapply keeps_weaken; [| | apply keeps_ret].
    + intros doc H. exact H.
    + intros _ doc [Hc (n & Hn & H70 & Hle)]. split; [exact Hc |].
      exists n. split; [exact Hn |]. split; [exact H70 |].
      cbn in Hlen. destruct (chunkProgress_bounds chunkIndex chunks); lia.
  - cbn [processChunks]. cbn in Hlen. eapply keeps_bind.
    + apply keeps_processChunk. lia.
    + intros c'. eapply keeps_weaken; [| | apply (IH (chunkIndex + 1) c'); lia].
      * intros doc [Hc (n & Hn & H70 & Hle)]. split; [exact Hc |].
        exists n. split; [exact Hn |]. split; [exact H70 |].
        pose proof (chunkProgress_mono chunkIndex chunks). lia.
      * intros a doc H. exact H.
Qed.

Lemma keeps_analyzeSegments (segments : list VideoSegment) :
  keeps (marker analysisLabel 70) (analyzeSegments w segments) (fun _ => analysing 95).
Proof.
  unfold analyzeSegments.
  eapply keeps_weaken; [| | apply keeps_processChunks; cbn; reflexivity].
  - intros doc [Hc Hn]. split; [exact Hc |]. exists 70. split; [exact Hn |].
    split; [lia |]. apply chunkProgress_bounds. lia.
  - intros a doc H. exact H.
Qed.

End Rules.


(** *** The stages *)

Ltac marker_below :=
  let doc := fresh "doc" in
  let Hn := fresh "Hn" in
  intros doc [_ Hn]; unfold docProgress; rewrite Hn; lia.

Ltac marker_stable :=
  let doc := fresh "doc" in
  let Hc := fresh "Hc" in
  let Hn := fresh "Hn" in
  intros doc [Hc Hn]; split; cbn; assumption.

Ltac stage_rule w :=
  first
    [ eapply (keeps_update_step w); [reflexivity | reflexivity | marker_below]
    | eapply (keeps_update_bare w); [lia | tauto]
    | eapply (keeps_update_neutral w); [reflexivity | marker_stable]
    | eapply (keeps_start); [reflexivity | reflexivity] ].

Ltac stage w :=
  eapply keeps_bind; [stage_rule w | intros ?]; cbv beta zeta.

(** From the document that [POST] leaves, the stages keep the contract,
    and when they complete the document shows progress 100. *)
Lemma keeps_stages (w : World) (videoId userId : string) :
  keeps (marker "Initializing analysis..." 0) (stages w videoId userId)
        (fun _ doc => p_analysisProgress doc = Some 100).
Proof.
  unfold stages.
  do 22 (stage w).
  eapply keeps_bind; [apply keeps_analyzeSegments | intros c].
  eapply keeps_weaken;
    [| | eapply (keeps_update_step w (analysing 95)); [reflexivity | reflexivity |]].
  - intros doc H. exact H.
  - intros u doc [_ H]. exact H.
  - intros doc [_ (n & Hn & _ & Hle)]. unfold docProgress. rewrite Hn. lia.
Qed.

(** The whole run keeps the contract. *)
Lemma keeps_run (w : World) (videoId userId : string) (doc : VideoPatch) :
  marker "Initializing analysis..." 0 doc ->
  keepsContract doc (traceOf (processVideoInBackground w videoId userId))
  /\ (outcomeOf (stages w videoId userId) = Ok tt ->
      p_analysisProgress
        (documentAfter doc (traceOf (processVideoInBackground w videoId userId)))
      = Some 100).
Proof.
  intros Hdoc. destruct (keeps_stages w videoId userId doc Hdoc) as [Hk Hend].
  unfold processVideoInBackground.
  rewrite traceOf_tryCatch, outcomeOf_tryFinally, traceOf_tryFinally.
  rewrite cleanup_outcome.
  split.
  - apply keepsContract_app. split.
    + apply keepsContract_app. split; [exact Hk |].
      rewrite cleanup_trace. destruct (downloaded w); exact I.
    + destruct (outcomeOf (stages w videoId userId)) as [[] | msg]; [exact I |].
      rewrite traceOf_tryCatch. unfold update.
      destruct (videoUpdate w (failurePatch w msg)) as [[] | msg'];
        cbn; [split; exact I | exact I].
  - intros Hok. rewrite Hok. rewrite List.app_nil_r, documentAfter_app.
    rewrite documentAfter_cleanup. exact (Hend tt Hok).
Qed.

(** C8, the claim as stated fails. In the sample run, in which every stage
    goes through, a progress value is persisted without any step
    description: the update that sets the progress to 40 after the segments
    are verified carries neither [currentStep] nor [stepDetails]. *)
Lemma bare_progress_persist :
  List.nth_error (traceOf (processVideoInBackground Samples.world "v1" "u1")) 14
  = Some (Persist (progressOnly 40))
  /\ p_analysisProgress (progressOnly 40) = Some 40
  /\ p_currentStep (progressOnly 40) = None
  /\ p_stepDetails (progressOnly 40) = None.
Proof. vm_compute. repeat split; reflexivity. Qed.

(** C8, amended. Within one run, for any outcome of the external calls:
    the persisted progress values never decrease, and when the stages
    complete the document ends at progress 100; whenever a stage's work is
    started, the stored document shows that stage's step label and progress
    value, persisted before; and every persist of a progress value carries a
    step description of its own, except the bumps to 40, 60 and 70 made
    right after a stage has completed, which carry the number only. *)
Theorem progress_contract (w : World) (videoId userId : string) (doc0 : VideoPatch) :
  let doc := applyPatch doc0 initialPatch in
  let run := processVideoInBackground w videoId userId in
  StronglySorted le (progressValues (traceOf run))
  /\ (outcomeOf (stages w videoId userId) = Ok tt ->
      p_analysisProgress (documentAfter doc (traceOf run)) = Some 100)
  /\ (forall pre task post,
        traceOf run = (pre ++ Start task :: post)%list ->
        showsMarker (documentAfter doc pre) task)
  /\ (forall p n,
        In (Persist p) (traceOf run) ->
        p_analysisProgress p = Some n ->
        describesStep p = true \/ n = 40 \/ n = 60 \/ n = 70).
Proof.
  intros doc run.
  assert (Hdoc : marker "Initializing analysis..." 0 doc) by (split; reflexivity).
  destruct (keeps_run w videoId userId doc Hdoc) as [Hk Hend].
  fold run in Hk, Hend.
  split; [apply (keepsContract_sorted _ doc Hk) |].
  split; [exact Hend |].
  split.
  - intros pre task post Heq. rewrite Heq in Hk.
    now apply keepsContract_marker in Hk.
  - intros p n Hin Hn. eapply keepsContract_described; eassumption.
Qed.

End ContractFacts.

(** ** The planned segment count and the segments actually created *)

Module PlanningFacts.

Import Segmenter Trigger MFacts.

Lemma trace_emit {A} (e : Event) (k : unit -> M Event A) :
  traceOf (bind (emit e) k) = e :: traceOf (k tt).
Proof. now rewrite ContractFacts.bind_emit. Qed.

Lemma outcome_emit {A} (e : Event) (k : unit -> M Event A) :
  outcomeOf (bind (emit e) k) = outcomeOf (k tt).
Proof. now rewrite ContractFacts.bind_emit. Qed.

Lemma bind_start_ok {A B} (task : Task) (a : A) (k : A -> M Event B) :
  bind (start task (Ok a)) k = (Start task :: traceOf (k a), outcomeOf (k a)).
Proof. unfold start, bind, emit, call, traceOf, outcomeOf. cbn. now destruct (k a). Qed.

Lemma trace_start {A B} (task : Task) (a : A) (k : A -> M Event B) :
  traceOf (bind (start task (Ok a)) k) = Start task :: traceOf (k a).
Proof. now rewrite bind_start_ok. Qed.

Lemma outcome_start {A B} (task : Task) (a : A) (k : A -> M Event B) :
  outcomeOf (bind (start task (Ok a)) k) = outcomeOf (k a).
Proof. now rewrite bind_start_ok. Qed.

Lemma cons_prefix {A} (e : A) (l p r : list A) :
  l = (p ++ r)%list -> e :: l = ((e :: p) ++ r)%list.
Proof. intros ->. reflexivity. Qed.

(** A log whose persists leave the plan alone does not change the stored
    segment count. *)
Lemma plan_kept (t : list Event) :
  List.Forall leavesPlanAlone t ->
  forall doc, p_segmentCount (documentAfter doc t) = p_segmentCount doc.
Proof.
  induction 1 as [| e t He Ht IH]; intros doc; [reflexivity |].
  rewrite ContractFacts.documentAfter_cons, IH.
  destruct e as [p | task | n e |]; try reflexivity.
  cbn in He. cbn. now rewrite He.
Qed.

Lemma nothing_stored (t : list Event) :
  List.Forall leavesPlanAlone t -> storedBatches t = [].
Proof.
  induction 1 as [| e t He Ht IH]; [reflexivity |].
  unfold storedBatches in *. cbn [List.flat_map]. rewrite IH.
  destruct e as [p | task | n e |]; try reflexivity.
  destruct task; try reflexivity. contradiction.
Qed.

Section Healthy.

Variable w : World.
Variable D : Q.
Hypothesis healthy : stagesSucceed w D.

Let updates : forall p, videoUpdate w p = Ok tt := proj1 healthy.

Lemma analysis_leaves_plan (segments : list VideoSegment) :
  List.Forall leavesPlanAlone (traceOf (analyzeSegments w segments)).
Proof.
  unfold analyzeSegments. generalize (mkCounters 0 0 0) as c. generalize 0 as i.
  generalize (List.length (segmentChunks segments)) as m.
  induction (segmentChunks segments) as [| chunk rest IH]; intros m i c;
    [constructor |].
  cbn [processChunks]. rewrite traceOf_bind. apply List.Forall_app. split.
  - unfold processChunk. rewrite (AnalysisFacts.update_persists w updates).
    rewrite ContractFacts.bind_emit. cbn [traceOf fst].
    constructor; [reflexivity |].
    set (rest' := bind (promiseAll _) _).
    assert (Hlog : List.Forall analysisEvent (traceOf rest')).
    { unfold rest'. rewrite traceOf_bind. apply List.Forall_app. split.
      - apply ContractFacts.chunkResults_log.
      - rewrite AnalysisFacts.chunkResults_total. cbn [outcomeOf snd].
        rewrite traceOf_bind. apply List.Forall_app.
        split; [apply ContractFacts.saves_log |].
        destruct (outcomeOf _); constructor. }
    eapply List.Forall_impl; [| exact Hlog].
    intros e He. destruct e as [p | task | n e |];
      [contradiction | | exact I | exact I].
    destruct task; try exact I. discriminate He.
  - rewrite (AnalysisFacts.processChunk_outcome w updates). apply IH.
Qed.

(** The log of the stages of a healthy run: the sequential stages, the
    analysis of the segments, the final persist. *)
Lemma stages_healthy (videoId userId : string) :
  let segments := segmentsOf userId videoId D in
  let c := countSegments w segments (mkCounters 0 0 0) in
  exists sequential,
    traceOf (stages w videoId userId)
    = (sequential
       ++ (traceOf (analyzeSegments w segments)
           ++ [Persist (finalPatch w (List.length segments)
                          (successfulSegments c) (failedSegments c))]))%list
    /\ outcomeOf (stages w videoId userId) = Ok tt
    /\ (forall doc, p_segmentCount (documentAfter doc sequential)
                    = Some (plannedSegmentCount D))
    /\ storedBatches sequential = [List.length segments]
    /\ analysesStarted sequential = [].
Proof.
  intros segments c.
  destruct healthy as (Hupd & Hdl & (metadata & Hval & Hdur) & Hstd & Haud & Hprobe
                       & Hext & Hver & Hcommit & Hinit).
  assert (Hseg : segmentVideo (segmenter w) userId videoId = Ok segments)
    by (now apply SegmenterFacts.segmentVideo_all).
  pose proof (AnalysisFacts.update_persists w Hupd) as Hpersist.
  assert (Hfinal : forall n,
             bind (analyzeSegments w segments)
                  (fun c => update w (finalPatch w n (successfulSegments c)
                                        (failedSegments c)))
             = ((traceOf (analyzeSegments w segments)
                 ++ [Persist (finalPatch w n (successfulSegments c)
                                (failedSegments c))])%list, Ok tt)).
  { intros n. unfold bind at 1.
    pose proof (AnalysisFacts.analyzeSegments_outcome w Hupd segments) as Hc.
    fold c in Hc. unfold traceOf, outcomeOf in *.
    destruct (analyzeSegments w segments) as [t r]. cbn [fst snd] in *. subst r.
    rewrite Hpersist. reflexivity. }
  assert (Hout : outcomeOf (stages w videoId userId) = Ok tt).
  { unfold stages.
    repeat (first [ rewrite Hpersist | rewrite outcome_emit | rewrite outcome_start
                  | rewrite Hdl | rewrite Hval | rewrite Hstd | rewrite Haud
                  | rewrite Hseg | rewrite Hver | rewrite Hcommit | rewrite Hinit ];
            cbn beta zeta).
    rewrite Hfinal. reflexivity. }
  eexists. split; [| split; [exact Hout |]].
  - unfold stages.
    repeat (first [ rewrite Hpersist | rewrite trace_emit | rewrite trace_start
                  | rewrite Hdl | rewrite Hval | rewrite Hstd | rewrite Haud
                  | rewrite Hseg | rewrite Hver | rewrite Hcommit | rewrite Hinit ];
            cbn beta zeta).
    rewrite Hfinal, Hdur. cbn [traceOf fst].
    repeat (apply cons_prefix). exact (eq_refl : _ = ([] ++ _)%list).
  - split; [intros doc; reflexivity |]. split; reflexivity.
Qed.

(** For a duration above five seconds the two segment counts differ. *)
Lemma counts_differ : (5 < D)%Q -> plannedSegmentCount D <> segmentCount D.
Proof.
  intros H5. unfold plannedSegmentCount, segmentCount, SEGMENT_DURATION.
  change (inject_Z (Z.of_nat 30)) with 30%Q.
  pose proof (Qle_ceiling (D / 5)) as Hb.
  assert (Hlt : (Qceiling (D / 30) < Qceiling (D / 5))%Z); [| lia].
  destruct (Qlt_le_dec D 6) as [H6 | H6].
  - assert (Ha : (Qceiling (D / 30) <= 1)%Z).
    { rewrite <- (Qceiling_Z 1). apply Qceiling_resp_le.
      apply Qle_shift_div_r; [reflexivity |].
      apply Qlt_le_weak. eapply Qlt_trans; [exact H6 | reflexivity]. }
    assert (H1 : (1 < Qceiling (D / 5))%Z).
    { rewrite Zlt_Qlt. eapply Qlt_le_trans; [| exact Hb].
      apply Qlt_shift_div_l; [reflexivity | exact H5]. }
    lia.
  - assert (Ha : (Qceiling (D / 30) <= Qceiling (D / 5) - 1)%Z); [| lia].
    rewrite <- (Qceiling_Z (Qceiling (D / 5) - 1)). apply Qceiling_resp_le.
    unfold Z.sub. rewrite inject_Z_plus.
    apply Qle_shift_div_r; [reflexivity |].
    assert (H30 : (D == D / 5 * 5)%Q) by (field; discriminate).
    assert (Hmul : (D / 5 * 5 <= inject_Z (Qceiling (D / 5)) * 5)%Q)
      by (apply Qmult_le_r; [reflexivity | exact Hb]).
    rewrite <- H30 in Hmul.
    assert (Hb6 : (6 <= inject_Z (Qceiling (D / 5)) * 5)%Q)
      by (eapply Qle_trans; [exact H6 | exact Hmul]).
    change (inject_Z (- (1))) with (-1)%Q.
    generalize dependent (inject_Z (Qceiling (D / 5))). intros c _ Hmul Hb6. lra.
Qed.

Lemma downloaded_healthy : downloaded w = true.
Proof.
  unfold downloaded. rewrite updates.
  pose proof healthy as (_ & Hdl & _). now rewrite Hdl.
Qed.

(** The log of a healthy run. *)
Lemma run_healthy (videoId userId : string) :
  let segments := segmentsOf userId videoId D in
  exists sequential final,
    traceOf (processVideoInBackground w videoId userId)
    = (sequential ++ traceOf (analyzeSegments w segments)
       ++ [Persist final; Cleanup])%list
    /\ p_segmentCount final = None
    /\ (forall doc, p_segmentCount (documentAfter doc sequential)
                    = Some (plannedSegmentCount D))
    /\ storedBatches sequential = [List.length segments]
    /\ analysesStarted sequential = [].
Proof.
  intros segments.
  destruct (stages_healthy videoId userId)
    as (sequential & Htrace & Hout & Hplan & Hstored & Hstarted).
  exists sequential. eexists. split; [| split; [| now repeat split]].
  - unfold processVideoInBackground.
    rewrite traceOf_tryCatch, outcomeOf_tryFinally, traceOf_tryFinally.
    rewrite ContractFacts.cleanup_outcome, ContractFacts.cleanup_trace.
    rewrite downloaded_healthy, Hout, Htrace. fold segments.
    rewrite List.app_nil_r, <- !List.app_assoc. reflexivity.
  - reflexivity.
Qed.

End Healthy.

(** C10. In a run all of whose stages succeed on a video of probed
    duration [D] above five seconds, the segment count left on the video
    document is the one of the planning stage, [ceil(D/30)]; the
    segmentation stage creates [ceil(D/5)] segments, all of which are stored
    as segment records and analysed.  Whenever the two numbers differ the
    document's [segmentCount] is not the number of segment records; and for
    every [D] above five seconds they do differ. *)
Theorem planned_count_differs_from_segments (w : World) (videoId userId : string)
    (D : Q) (doc0 : VideoPatch) :
  stagesSucceed w D ->
  (5 < D)%Q ->
  let t := traceOf (processVideoInBackground w videoId userId) in
  let doc := documentAfter doc0 t in
  p_segmentCount doc = Some (Qceiling (D / 30))
  /\ Z.of_nat (placeholdersStored t) = Qceiling (D / 5)
  /\ List.length (analysesStarted t) = placeholdersStored t
  /\ (Qceiling (D / 30) <> Qceiling (D / 5) ->
      p_segmentCount doc <> Some (Z.of_nat (placeholdersStored t)))
  /\ Qceiling (D / 30) <> Qceiling (D / 5).
Proof.
  intros healthy H5 t doc.
  destruct (run_healthy w D healthy videoId userId)
    as (sequential & final & Htrace & Hfinal & Hplan & Hstored & Hstarted).
  pose proof (analysis_leaves_plan w D healthy (segmentsOf userId videoId D)) as Hkept.
  pose proof (AnalysisFacts.analyzeSegments_starts w (proj1 healthy)
                (segmentsOf userId videoId D)) as [_ Hvisual].
  assert (Hlen : List.length (segmentsOf userId videoId D)
                 = Z.to_nat (segmentCount D))
    by (unfold segmentsOf; now rewrite List.length_map, List.length_seq).
  assert (Hnonneg : (0 <= segmentCount D)%Z)
    by (apply SegmenterFacts.segmentCount_nonneg; lra).
  assert (Hdoc : p_segmentCount doc = Some (plannedSegmentCount D)).
  { unfold doc, t. rewrite Htrace, !ContractFacts.documentAfter_app.
    cbn [documentAfter List.fold_left]. unfold applyPatch at 1.
    fold (documentAfter (documentAfter doc0 sequential)
            (traceOf (analyzeSegments w (segmentsOf userId videoId D)))).
    cbn [p_segmentCount]. rewrite Hfinal. cbn [orElse].
    rewrite (plan_kept _ Hkept). apply Hplan. }
  assert (Hcount : placeholdersStored t = List.length (segmentsOf userId videoId D)).
  { unfold placeholdersStored, t. rewrite Htrace.
    unfold storedBatches in *. rewrite !List.flat_map_app.
    fold (storedBatches (traceOf (analyzeSegments w (segmentsOf userId videoId D)))).
    rewrite Hstored, (nothing_stored _ Hkept). cbn. lia. }
  assert (Hdiff : plannedSegmentCount D <> segmentCount D) by (now apply counts_differ).
  change (Qceiling (D / 30)) with (plannedSegmentCount D).
  change (Qceiling (D / 5)) with (segmentCount D).
  assert (Hstoredcount : Z.of_nat (placeholdersStored t) = segmentCount D)
    by (rewrite Hcount, Hlen; lia).
  repeat split.
  - exact Hdoc.
  - exact Hstoredcount.
  - rewrite Hcount. unfold t. rewrite Htrace.
    unfold analysesStarted in Hstarted |- *. rewrite !List.flat_map_app.
    fold (analysesStarted (traceOf (analyzeSegments w (segmentsOf userId videoId D)))).
    rewrite Hstarted, Hvisual. cbn [List.flat_map List.app].
    now rewrite List.app_nil_r, List.length_map.
  - intros Hne. rewrite Hdoc, Hstoredcount. congruence.
  - exact Hdiff.
Qed.

(** The sample run: a 47-second video is planned as 2 segments and cut
    into 10. *)
Lemma planned_count_differs_from_segments_witness :
  stagesSucceed Samples.world 47
  /\ (5 < 47)%Q
  /\ let t := traceOf (processVideoInBackground Samples.world "v1" "u1") in
     let doc := documentAfter noPatch t in
     p_segmentCount doc = Some (Qceiling (47 / 30))
     /\ Z.of_nat (placeholdersStored t) = Qceiling (47 / 5)
     /\ List.length (analysesStarted t) = placeholdersStored t
     /\ (Qceiling (47 / 30) <> Qceiling (47 / 5) ->
         p_segmentCount doc <> Some (Z.of_nat (placeholdersStored t)))
     /\ Qceiling (47 / 30) <> Qceiling (47 / 5).
Proof.
  assert (healthy : stagesSucceed Samples.world 47).
  { repeat split; try reflexivity. eexists. split; reflexivity. }
  split; [exact healthy |]. split; [reflexivity |].
  apply (planned_count_differs_from_segments Samples.world "v1" "u1" 47 noPatch healthy).
  reflexivity.
Defined.

(** The sample run in numbers. *)
Example sample_plan :
  let t := traceOf (processVideoInBackground Samples.world "v1" "u1") in
  p_segmentCount (documentAfter noPatch t) = Some 2%Z
  /\ placeholdersStored t = 10
  /\ List.length (analysesStarted t) = 10.
Proof. vm_compute. repeat split. Qed.

End PlanningFacts.

(** ** Object paths, the initiate route and the client's validation *)

Module PathFacts.

Lemma append_cancel (p a b : string) : p ++ a = p ++ b -> a = b.
Proof.
  induction p as [| c p IH]; [auto |].
  change (String c p ++ a) with (String c (p ++ a)).
  change (String c p ++ b) with (String c (p ++ b)).
  intros H. injection H. exact IH.
Qed.

Lemma digitsValue_zero (s : string) :
  digitsValue (String "0" s) = digitsValue s.
Proof.
  unfold digitsValue. cbn [NilEmpty.uint_of_string].
  destruct (NilEmpty.uint_of_string s) as [d |]; reflexivity.
Qed.

Lemma append_empty (s : string) : s ++ "" = s.
Proof.
  induction s as [| c s IH]; [reflexivity |].
  change (String c s ++ "") with (String c (s ++ "")). now rewrite IH.
Qed.

Lemma concat_empty_cons (x : string) (l : list string) :
  String.concat "" (x :: l) = x ++ String.concat "" l.
Proof. destruct l; cbn [String.concat]; [symmetry; apply append_empty | reflexivity]. Qed.

Lemma digitsValue_zeros (k : nat) (s : string) :
  digitsValue (String.concat "" (List.repeat "0" k) ++ s) = digitsValue s.
Proof.
  induction k as [| k IH]; [reflexivity |].
  cbn [List.repeat]. rewrite concat_empty_cons.
  change ("0" ++ String.concat "" (List.repeat "0" k))
    with (String "0" (String.concat "" (List.repeat "0" k))).
  change (String "0" (String.concat "" (List.repeat "0" k)) ++ s)
    with (String "0" (String.concat "" (List.repeat "0" k) ++ s)).
  now rewrite digitsValue_zero.
Qed.

Lemma digitsValue_showNat (n : nat) : digitsValue (showNat n) = Some n.
Proof.
  unfold digitsValue, showNat. rewrite NilEmpty.usu. cbn.
  now rewrite DecimalNat.Unsigned.of_to.
Qed.

Lemma digitsValue_padded (width n : nat) :
  digitsValue (padStart0 width (showNat n)) = Some n.
Proof. unfold padStart0. now rewrite digitsValue_zeros, digitsValue_showNat. Qed.

Lemma padded_inj (width i j : nat) :
  padStart0 width (showNat i) = padStart0 width (showNat j) -> i = j.
Proof.
  intros H. pose proof (digitsValue_padded width i) as Hi.
  rewrite H, digitsValue_padded in Hi. now injection Hi.
Qed.

Lemma NoDup_map_inj {A B} (f : A -> B) (l : list A) :
  (forall x y, f x = f y -> x = y) -> List.NoDup l -> List.NoDup (List.map f l).
Proof.
  intros Hinj. induction 1 as [| x l Hx Hl IH]; cbn [List.map]; constructor; [| exact IH].
  intros Hin. apply List.in_map_iff in Hin as (y & Hy & Hin).
  apply Hinj in Hy. now subst.
Qed.

End PathFacts.

Module InitiateFacts.

Import Initiate.

Lemma supported_existsb (ty : string) :
  In ty SUPPORTED_VIDEO_TYPES <-> List.existsb (String.eqb ty) SUPPORTED_VIDEO_TYPES = true.
Proof.
  rewrite List.existsb_exists. split.
  - intros H. exists ty. split; [exact H | apply String.eqb_refl].
  - intros (x & Hx & He). apply String.eqb_eq in He. now subst.
Qed.

Lemma POST_accepted (env : Env) (req : Request) (db : gmap string UploadSession)
    (uid fn : string) (size : N) (ty : string) :
  initiateAccepts env req uid fn size ty ->
  POST env req db
  = (let doc := sessionDoc env uid fn size ty in
     (RespOk (mkData (uuidv4 env)
                (generateSignedUrls (signedUrl env) (now env) uid (uuidv4 env) (totalChunks doc))
                (totalChunks doc) (chunkSize doc) (now env + urlLifetime)),
      <[uuidv4 env := doc]> db)).
Proof.
  intros (Hauth & Hfn & Hne & Hsize & Hty & Hin & Hlo & Hhi).
  unfold POST. rewrite Hauth, Hfn, Hsize, Hty.
  apply String.eqb_neq in Hne. rewrite Hne.
  assert (Hnz : (size =? 0)%N = false).
  { apply N.eqb_neq. unfold MIN_FILE_SIZE in Hlo. lia. }
  assert (Hte : String.eqb ty "" = false).
  { apply String.eqb_neq. intros ->. cbn in Hin. intuition discriminate. }
  rewrite Hnz, Hte. cbn [orb].
  apply supported_existsb in Hin. rewrite Hin. cbn [negb].
  assert ((size <? MIN_FILE_SIZE)%N = false) as -> by (apply N.ltb_ge; exact Hlo).
  assert ((MAX_FILE_SIZE <? size)%N = false) as -> by (apply N.ltb_ge; exact Hhi).
  reflexivity.
Qed.

Lemma ceilDiv_spec (a b : N) :
  (0 < a)%N -> (0 < b)%N ->
  ((ceilDiv a b - 1) * b < a <= ceilDiv a b * b)%N /\ (1 <= ceilDiv a b)%N.
Proof.
  intros Ha Hb. unfold ceilDiv.
  pose proof (N.div_mod (a + b - 1) b ltac:(lia)) as Hdm.
  pose proof (N.mod_lt (a + b - 1) b ltac:(lia)) as Hlt.
  set (q := ((a + b - 1) / b)%N) in *. set (r := ((a + b - 1) mod b)%N) in *.
  assert (Hq : (1 <= q)%N).
  { destruct (N.eq_dec q 0%N) as [E | E]; [| lia]. rewrite E in Hdm. lia. }
  split; [| exact Hq]. nia.
Qed.

Lemma chunk_plan (size : N) :
  (MIN_FILE_SIZE <= size <= MAX_FILE_SIZE)%N ->
  let cs := calculateChunkSize size in
  let n := ceilDiv size cs in
  (1 <= n <= 512)%N
  /\ ((n - 1) * cs < size <= n * cs)%N
  /\ (cs = 5 * 1024 * 1024 \/ cs = 10 * 1024 * 1024)%N
  /\ ((size < 1024 * 1024 * 1024)%N -> (n <= 205)%N).
Proof.
  intros [Hlo Hhi] cs n.
  assert (Hcs : (cs = 5242880 /\ size < 1073741824 \/ cs = 10485760 /\ 1073741824 <= size)%N).
  { unfold cs, calculateChunkSize.
    change (1024 * 1024 * 1024)%N with 1073741824%N.
    destruct (size <? 1073741824)%N eqn:E;
      [apply N.ltb_lt in E; now left | apply N.ltb_ge in E; now right]. }
  assert (Hlo' : (1024 <= size)%N) by exact Hlo.
  assert (Hhi' : (size <= 5368709120)%N) by exact Hhi.
  destruct (ceilDiv_spec size cs) as [[H1 H2] H3]; [lia | lia |]. fold n in H1, H2, H3.
  change (5 * 1024 * 1024)%N with 5242880%N.
  change (10 * 1024 * 1024)%N with 10485760%N.
  change (1024 * 1024 * 1024)%N with 1073741824%N.
  destruct Hcs as [[Hc Hs] | [Hc Hs]]; rewrite Hc in *; repeat split; try lia.
Qed.

End InitiateFacts.

Module UploadPlanFacts.

Import Initiate.

(** X1. The object paths of the chunks of one session are pairwise
    distinct, whatever the number of chunks: two indices with the same
    path are the same index, and the paths of the first [n] indices have no
    repetition. *)
Theorem chunk_paths_distinct (userId sessionId : string) (n : nat) :
  (forall i j, generateChunkPath userId sessionId i = generateChunkPath userId sessionId j
               -> i = j)
  /\ List.NoDup (List.map (generateChunkPath userId sessionId) (List.seq 0 n)).
Proof.
  assert (Hinj : forall i j,
             generateChunkPath userId sessionId i = generateChunkPath userId sessionId j
             -> i = j).
  { intros i j H. unfold generateChunkPath in H.
    repeat (apply PathFacts.append_cancel in H).
    now apply PathFacts.padded_inj in H. }
  split; [exact Hinj |].
  apply PathFacts.NoDup_map_inj; [exact Hinj | apply List.seq_NoDup].
Qed.

(** X2. A request that carries every field, with a supported type and a
    size between 1 KB and 5 GB, is accepted: the session document is stored
    under the drawn id, and the answer plans between 1 and 512 chunks of
    5 MB or 10 MB that cover the file, the last one not empty, with one
    signed URL per chunk, the URL at position [i] signing the path of
    chunk [i] and expiring one hour after the call. *)
Theorem initiate_plans_chunks (env : Env) (req : Request)
    (db : gmap string UploadSession) (uid fn : string) (size : N) (ty : string) :
  initiateAccepts env req uid fn size ty ->
  exists d,
    POST env req db = (RespOk d, <[uuidv4 env := sessionDoc env uid fn size ty]> db)
    /\ d_uploadSessionId d = uuidv4 env
    /\ 1 <= d_totalChunks d <= 512
    /\ (d_chunkSize d = 5 * 1024 * 1024 \/ d_chunkSize d = 10 * 1024 * 1024)%N
    /\ (N.of_nat (d_totalChunks d - 1) * d_chunkSize d < size
        <= N.of_nat (d_totalChunks d) * d_chunkSize d)%N
    /\ List.length (d_chunkUrls d) = d_totalChunks d
    /\ (forall i, i < d_totalChunks d ->
          List.nth_error (d_chunkUrls d) i
          = Some (signedUrl env (generateChunkPath uid (uuidv4 env) i)
                    (now env + signedUrlLifetime))).
Proof.
  intros Hacc. eexists. split; [apply (InitiateFacts.POST_accepted env req db uid fn size ty Hacc) |].
  cbn [d_uploadSessionId d_totalChunks d_chunkSize d_chunkUrls sessionDoc totalChunks chunkSize].
  destruct Hacc as (_ & _ & _ & _ & _ & _ & Hsize).
  destruct (InitiateFacts.chunk_plan size Hsize) as ((H1 & H2) & (H3 & H4) & H5 & _).
  cbv zeta in *.
  set (cs := calculateChunkSize size) in *. set (n := ceilDiv size cs) in *.
  split; [reflexivity |]. split; [lia |]. split; [exact H5 |].
  split; [replace (N.of_nat (N.to_nat n - 1)) with (n - 1)%N by lia;
          rewrite N2Nat.id; split; assumption |].
  split.
  - unfold generateSignedUrls. now rewrite List.length_map, List.length_seq.
  - intros i Hi. unfold generateSignedUrls.
    rewrite List.nth_error_map, List.nth_error_seq.
    destruct (Nat.ltb_spec i (N.to_nat n)); [reflexivity | lia].
Qed.

Lemma initiate_plans_chunks_witness :
  exists d,
    POST Samples.initiateEnv Samples.initiateRequest Samples.sessions
    = (RespOk d,
       <["s2" := sessionDoc Samples.initiateEnv "u1" "holiday.mov" 12000000
                   "video/quicktime"]> Samples.sessions)
    /\ d_uploadSessionId d = "s2"
    /\ 1 <= d_totalChunks d <= 512
    /\ (d_chunkSize d = 5 * 1024 * 1024 \/ d_chunkSize d = 10 * 1024 * 1024)%N
    /\ (N.of_nat (d_totalChunks d - 1) * d_chunkSize d < 12000000
        <= N.of_nat (d_totalChunks d) * d_chunkSize d)%N
    /\ List.length (d_chunkUrls d) = d_totalChunks d
    /\ (forall i, i < d_totalChunks d ->
          List.nth_error (d_chunkUrls d) i
          = Some (Samples.signer (generateChunkPath "u1" "s2" i)
                    (1000 + signedUrlLifetime))).
Proof.
  apply (initiate_plans_chunks Samples.initiateEnv Samples.initiateRequest
           Samples.sessions "u1" "holiday.mov" 12000000 "video/quicktime").
  repeat split; try reflexivity; try discriminate.
  cbn. tauto.
Defined.



(** X3. Initiate followed by resume.  After an accepted initiate, a
    resume of the new session by the same caller, before the session
    expires and while none of its chunk objects is in the bucket, reports
    no existing chunk and every index [0 .. n-1] as missing, with status
    [resuming], and signs for each index the object path that initiate
    signed at that position, now with an expiry of one hour after the
    resume. *)
Theorem initiate_then_resume (env : Env) (req : Request)
    (db : gmap string UploadSession) (uid fn : string) (size : N) (ty : string)
    (b : Bucket) (later : nat) (again : Resume.Request) :
  initiateAccepts env req uid fn size ty ->
  uuidv4 env <> "" ->
  Resume.authorization again = authorization req ->
  Resume.uploadSessionId again = Some (uuidv4 env) ->
  later <= now env + sessionLifetime ->
  (forall i, generateChunkPath uid (uuidv4 env) i ∉ objects b) ->
  exists d r,
    fst (POST env req db) = RespOk d
    /\ fst (Resume.POST (verifyIdToken env) (signedUrl env) later b again
              (snd (POST env req db))) = RespOk r
    /\ Resume.d_totalChunks r = d_totalChunks d
    /\ Resume.existingChunks r = []
    /\ Resume.missingChunks r = List.seq 0 (d_totalChunks d)
    /\ Resume.d_status r = Resume.resuming
    /\ (forall i, i < d_totalChunks d ->
          List.nth_error (d_chunkUrls d) i
          = Some (signedUrl env (generateChunkPath uid (uuidv4 env) i)
                    (now env + signedUrlLifetime))
          /\ Resume.chunkUrls r !! i
             = Some (signedUrl env (generateChunkPath uid (uuidv4 env) i)
                       (later + signedUrlLifetime))).
Proof.
  intros Hacc Hid Hauth Hsid Hlater Hnone.
  destruct (initiate_plans_chunks env req db uid fn size ty Hacc)
    as (d & HPOST & _ & Hn & _ & _ & _ & Hurls).
  pose proof Hacc as (Ha & _).
  rewrite HPOST. cbn [fst snd].
  set (doc := sessionDoc env uid fn size ty) in *.
  assert (Htotal : d_totalChunks d = totalChunks doc).
  { rewrite (InitiateFacts.POST_accepted env req db uid fn size ty Hacc) in HPOST.
    cbv zeta in HPOST. injection HPOST as <-. reflexivity. }
  assert (Hfound : forall i, found b uid (uuidv4 env) i = false).
  { intros i. unfold found, fileExists.
    destruct (decide (_ ∈ failing b)); [reflexivity |].
    rewrite bool_decide_eq_false_2 by apply Hnone. reflexivity. }
  exists d. eexists. split; [reflexivity |]. split.
  { apply (ResumeFacts.POST_answer (verifyIdToken env) (signedUrl env) later b again
             _ uid (uuidv4 env) doc).
    - now rewrite Hauth.
    - exact Hsid.
    - exact Hid.
    - apply lookup_insert_eq.
    - reflexivity.
    - exact Hlater. }
  cbv zeta. cbn [Resume.d_totalChunks Resume.existingChunks Resume.missingChunks
                 Resume.d_status Resume.chunkUrls].
  rewrite <- Htotal.
  assert (He : List.filter (found b uid (uuidv4 env)) (List.seq 0 (d_totalChunks d)) = []).
  { rewrite (ResumeFacts.filter_ext_seq _ (fun _ => false))
      by (intros i _; apply Hfound).
    apply List.filter_false. }
  assert (Hm : List.filter (fun i => negb (found b uid (uuidv4 env) i))
                 (List.seq 0 (d_totalChunks d)) = List.seq 0 (d_totalChunks d)).
  { rewrite (ResumeFacts.filter_ext_seq _ (fun _ => true))
      by (intros i _; now rewrite Hfound).
    apply List.filter_true. }
  rewrite He, Hm.
  split; [reflexivity |]. split; [reflexivity |]. split; [reflexivity |].
  split.
  - cbn [List.length]. destruct (Nat.eqb_spec 0 (d_totalChunks d)); [lia | reflexivity].
  - intros i Hi. split; [apply Hurls; exact Hi |].
    rewrite ResumeFacts.signMissing_lookup.
    rewrite decide_True; [reflexivity |].
    apply list_elem_of_In, List.in_seq. lia.
Qed.

Lemma initiate_then_resume_witness :
  exists d r,
    fst (POST Samples.initiateEnv Samples.initiateRequest Samples.sessions) = RespOk d
    /\ fst (Resume.POST Samples.verifier Samples.signer 2000 Samples.bucketBoth
              Samples.resumeNew
              (snd (POST Samples.initiateEnv Samples.initiateRequest Samples.sessions)))
       = RespOk r
    /\ Resume.d_totalChunks r = d_totalChunks d
    /\ Resume.existingChunks r = []
    /\ Resume.missingChunks r = List.seq 0 (d_totalChunks d)
    /\ Resume.d_status r = Resume.resuming
    /\ (forall i, i < d_totalChunks d ->
          List.nth_error (d_chunkUrls d) i
          = Some (Samples.signer (generateChunkPath "u1" "s2" i)
                    (1000 + signedUrlLifetime))
          /\ Resume.chunkUrls r !! i
             = Some (Samples.signer (generateChunkPath "u1" "s2" i)
                       (2000 + signedUrlLifetime))).
Proof.
  apply (initiate_then_resume Samples.initiateEnv Samples.initiateRequest
           Samples.sessions "u1" "holiday.mov" 12000000 "video/quicktime"
           Samples.bucketBoth 2000 Samples.resumeNew).
  - repeat split; try reflexivity; try discriminate. cbn. tauto.
  - discriminate.
  - reflexivity.
  - reflexivity.
  - cbn [Samples.initiateEnv now].
    unfold sessionLifetime, UPLOAD_SESSION_EXPIRY_DAYS. lia.
  - intros i Hin. cbn [Samples.bucketBoth objects Samples.initiateEnv uuidv4] in Hin.
    apply elem_of_union in Hin as [Hin | Hin]; apply elem_of_singleton in Hin;
      unfold generateChunkPath in Hin;
      do 2 (apply PathFacts.append_cancel in Hin); discriminate Hin.
Defined.

(** X4. The client's [validateFile] and the route's validation agree on
    type and size: for an authenticated request that names the file, a
    file the client lets through is accepted by initiate, and a file the
    client turns down is answered with status 400 and changes nothing. *)
Theorem client_validation_matches_initiate (env : Env) (req : Request)
    (db : gmap string UploadSession) (uid fn : string) (size : N) (ty : string) :
  authenticate (verifyIdToken env) (authorization req) = inr uid ->
  r_fileName req = Some fn ->
  fn <> "" ->
  r_fileSize req = Some size ->
  r_fileType req = Some ty ->
  (Client.validateFile ty size = None -> exists d, fst (POST env req db) = RespOk d)
  /\ (forall why, Client.validateFile ty size = Some why ->
        exists message, POST env req db = (RespError 400 message, db)).
Proof.
  intros Hauth Hfn Hne Hsize Hty. unfold Client.validateFile. split.
  - intros Hv.
    destruct (List.existsb (String.eqb ty) SUPPORTED_VIDEO_TYPES) eqn:Hs;
      [| discriminate]. cbn [negb] in Hv.
    destruct (MAX_FILE_SIZE <? size)%N eqn:Hmax; [discriminate |].
    destruct (size <? MIN_FILE_SIZE)%N eqn:Hmin; [discriminate |].
    apply N.ltb_ge in Hmax, Hmin.
    assert (Hacc : initiateAccepts env req uid fn size ty).
    { repeat split; try assumption. now apply InitiateFacts.supported_existsb. }
    eexists. rewrite (InitiateFacts.POST_accepted env req db uid fn size ty Hacc).
    reflexivity.
  - intros why Hv. unfold POST. rewrite Hauth, Hfn, Hsize, Hty.
    apply String.eqb_neq in Hne. rewrite Hne. cbn [orb].
    destruct ((size =? 0)%N || String.eqb ty "") eqn:Hmiss; [eexists; reflexivity |].
    destruct (List.existsb (String.eqb ty) SUPPORTED_VIDEO_TYPES) eqn:Hs;
      cbn [negb] in *; [| eexists; reflexivity].
    destruct (MAX_FILE_SIZE <? size)%N eqn:Hmax;
      [rewrite orb_true_r; eexists; reflexivity |].
    destruct (size <? MIN_FILE_SIZE)%N eqn:Hmin; [eexists; reflexivity | discriminate].
Qed.

Lemma client_validation_matches_initiate_witness :
  (Client.validateFile "video/quicktime" 12000000 = None ->
   exists d, fst (POST Samples.initiateEnv Samples.initiateRequest Samples.sessions)
             = RespOk d)
  /\ (forall why, Client.validateFile "video/quicktime" 12000000 = Some why ->
        exists message,
          POST Samples.initiateEnv Samples.initiateRequest Samples.sessions
          = (RespError 400 message, Samples.sessions)).
Proof.
  apply (client_validation_matches_initiate Samples.initiateEnv Samples.initiateRequest
           Samples.sessions "u1" "holiday.mov" 12000000 "video/quicktime");
    try reflexivity.
  discriminate.
Defined.


End UploadPlanFacts.

(** ** Progress reports: counts and the derived status *)

Module ProgressCountFacts.

Import Progress.

Lemma NoDup_without (arr : list nat) (i : nat) :
  List.NoDup arr -> List.NoDup (without arr i).
Proof. apply List.NoDup_filter. Qed.

Lemma NoDup_pushIfAbsent (arr : list nat) (i : nat) :
  List.NoDup arr -> List.NoDup (pushIfAbsent arr i).
Proof.
  intros H. unfold pushIfAbsent. destruct (includes arr i) eqn:E; [exact H |].
  apply List.NoDup_app; [exact H | repeat constructor; auto | ].
  intros x Hx [<- | []].
  apply ProgressFacts.includes_In in Hx. congruence.
Qed.

Lemma roundPercent_le (k n : nat) : 0 < n -> k <= n -> roundPercent k n <= 100.
Proof.
  intros Hn Hk. unfold roundPercent.
  pose proof (Binary64Facts.roundScaled_le k n 100 Hk ltac:(lia)). lia.
Qed.

Lemma bounded_length (l : list nat) (n : nat) :
  List.NoDup l -> (forall i, In i l -> i < n) -> List.length l <= n.
Proof.
  intros Hnd Hb. rewrite <- (List.length_seq n 0).
  apply List.NoDup_incl_length; [exact Hnd |].
  intros i Hi. apply List.in_seq. specialize (Hb i Hi). lia.
Qed.

Lemma updateChunkStatus_within (st : string) (i n : nat) (c f : list nat) :
  List.NoDup c -> List.NoDup f ->
  (forall x, In x c \/ In x f -> x < n) ->
  i < n ->
  List.NoDup (fst (updateChunkStatus st i c f))
  /\ List.NoDup (snd (updateChunkStatus st i c f))
  /\ (forall x, In x (fst (updateChunkStatus st i c f))
                \/ In x (snd (updateChunkStatus st i c f)) -> x < n).
Proof.
  intros Hc Hf Hb Hi. unfold updateChunkStatus.
  destruct (String.eqb st "completed"); [| destruct (String.eqb st "failed")];
    cbn [fst snd]; (split; [| split]);
    auto using NoDup_without, NoDup_pushIfAbsent;
    intros x; rewrite ?ProgressFacts.In_pushIfAbsent, ?ProgressFacts.In_without;
    intros H; destruct (Nat.eq_dec x i) as [-> | Hne]; [assumption | | assumption |];
    apply Hb; tauto.
Qed.

Lemma POST_keeps_within (verify : Verifier) (r : Request)
    (db : gmap string UploadSession) (sid : string) (s : UploadSession) :
  db !! sid = Some s ->
  withinTotal s ->
  (forall i, sessionId r = Some sid -> chunkIndex r = Some i -> i < totalChunks s) ->
  exists s', snd (POST verify r db) !! sid = Some s'
             /\ totalChunks s' = totalChunks s /\ withinTotal s'.
Proof.
  intros Hs Hw Hi. pose proof Hw as (Hc & Hf & Hd & Hb & Hp).
  destruct (ProgressFacts.POST_sessions verify r db)
    as [-> | (sid' & s0 & st & i & Hsid & Hidx & _ & Hs0 & Heq)].
  - exists s. split; [assumption |]. split; [reflexivity | exact Hw].
  - cbv zeta in Heq. rewrite Heq.
    destruct (decide (sid' = sid)) as [-> | Hne];
      [| rewrite lookup_insert_ne by assumption; exists s; split; [assumption |]; split; [reflexivity | exact Hw]].
    rewrite lookup_insert_eq. assert (s0 = s) as -> by congruence.
    eexists. split; [reflexivity |]. split; [reflexivity |].
    destruct (updateChunkStatus_within st i (totalChunks s) (chunksCompleted s)
                (chunksFailed s) Hc Hf Hb (Hi i Hsid Hidx)) as (Hc' & Hf' & Hb').
    unfold withinTotal, setChunkState.
    cbn [chunksCompleted chunksFailed totalChunks progress].
    split; [exact Hc' |]. split; [exact Hf' |].
    split; [apply ProgressFacts.updateChunkStatus_disjoint; exact Hd |].
    split; [exact Hb' |].
    destruct (Nat.ltb_spec 0 (totalChunks s)); [| lia].
    apply roundPercent_le; [assumption |].
    apply bounded_length; [exact Hc' |]. intros x Hx. apply Hb'. now left.
Qed.

Lemma reports_keep_within (verify : Verifier) (reqs : list Request) :
  forall (db : gmap string UploadSession) (sid : string) (s : UploadSession),
    db !! sid = Some s ->
    withinTotal s ->
    reportsPlanned sid (totalChunks s) reqs ->
    exists s', reports verify reqs db !! sid = Some s'
               /\ totalChunks s' = totalChunks s /\ withinTotal s'.
Proof.
  induction reqs as [| r reqs IH]; intros db sid s Hs Hw Hplan.
  - exists s. split; [assumption |]. split; [reflexivity | exact Hw].
  - unfold reports. cbn [List.fold_left].
    destruct (POST_keeps_within verify r db sid s Hs Hw) as (s1 & Hs1 & Ht1 & Hw1).
    { intros i Hsid Hidx. apply (Hplan r i); [now left | assumption | assumption]. }
    destruct (IH (snd (POST verify r db)) sid s1 Hs1 Hw1) as (s' & Hs' & Ht' & Hw').
    { intros r' i Hin. rewrite Ht1. apply Hplan. now right. }
    exists s'. split; [exact Hs' |]. split; [congruence | exact Hw'].
Qed.

(** X5. For a fresh session (both chunk sets empty, progress 0), after any
    sequence of progress reports whose reports on this session name
    indices below [totalChunks], neither stored set lists an index twice,
    the completed and failed chunks together are at most [totalChunks], and
    the stored progress is at most 100. *)
Theorem progress_stays_within_total (verify : Verifier) (reqs : list Request)
    (db : gmap string UploadSession) (sid : string) (s : UploadSession) :
  db !! sid = Some s ->
  chunksCompleted s = [] ->
  chunksFailed s = [] ->
  progress s = 0 ->
  reportsPlanned sid (totalChunks s) reqs ->
  exists s',
    reports verify reqs db !! sid = Some s'
    /\ totalChunks s' = totalChunks s
    /\ List.NoDup (chunksCompleted s')
    /\ List.NoDup (chunksFailed s')
    /\ List.length (chunksCompleted s') + List.length (chunksFailed s') <= totalChunks s
    /\ progress s' <= 100.
Proof.
  intros Hs Hc Hf Hp Hplan.
  destruct (reports_keep_within verify reqs db sid s Hs) as (s' & Hs' & Ht & Hw);
    [| exact Hplan |].
  { unfold withinTotal. rewrite Hc, Hf, Hp.
    repeat split; try constructor; try lia; intros i; cbn; tauto. }
  destruct Hw as (Hc' & Hf' & Hd & Hb & Hp').
  exists s'. repeat split; try assumption.
  rewrite <- List.length_app, <- Ht. apply bounded_length.
  - apply List.NoDup_app; [assumption | assumption |].
    intros x Hx Hy. apply (Hd x). now split.
  - intros i Hi. apply Hb. apply List.in_app_or in Hi. exact Hi.
Qed.

Lemma progress_stays_within_total_witness :
  exists s',
    reports Samples.verifier Samples.reportSequence Samples.sessions !! "s1" = Some s'
    /\ totalChunks s' = totalChunks Samples.session
    /\ List.NoDup (chunksCompleted s')
    /\ List.NoDup (chunksFailed s')
    /\ List.length (chunksCompleted s') + List.length (chunksFailed s')
       <= totalChunks Samples.session
    /\ progress s' <= 100.
Proof.
  apply (progress_stays_within_total Samples.verifier Samples.reportSequence
           Samples.sessions "s1" Samples.session); try reflexivity.
  intros r i Hin _ Hidx. cbn in Hin.
  repeat (destruct Hin as [<- | Hin]; [cbn in Hidx; injection Hidx as <-; cbn; lia |]).
  contradiction.
Defined.




(** The sample session of 201 chunks is reported complete with chunk 200
    still missing. *)
Example complete_with_a_chunk_missing :
  match fst (POST Samples.verifier (Samples.report 199 "completed")
               Samples.largeSessions) with
  | RespOk d => (d_progress d, d_chunksCompleted d, d_totalChunks d, d_status d)
                = (100, 200, 201, Some uploading_complete)
  | RespError _ _ => False
  end.
Proof. vm_compute. reflexivity. Qed.

End ProgressCountFacts.

(** ** File names, storage locations and the finalize route *)

Module FileNameFacts.

Lemma append_cons (c : ascii) (s t : string) : String c s ++ t = String c (s ++ t).
Proof. reflexivity. Qed.

Lemma append_nil (s : string) : "" ++ s = s.
Proof. reflexivity. Qed.

Lemma afterLastDot_plain (s : string) :
  Finalize.beforeLastDot s = None -> forall acc, afterLastDot acc s = acc ++ s.
Proof.
  induction s as [| c s IH]; intros H acc; cbn [afterLastDot].
  - now rewrite PathFacts.append_empty.
  - cbn [Finalize.beforeLastDot] in H.
    destruct (Finalize.beforeLastDot s); [discriminate |].
    destruct (Ascii.eqb c "."); [discriminate |].
    rewrite IH by reflexivity.
    clear. induction acc as [| a acc IHacc]; [reflexivity |].
    rewrite !append_cons. now rewrite IHacc.
Qed.

Lemma afterLastDot_dotted (s p : string) :
  Finalize.beforeLastDot s = Some p ->
  (forall acc, afterLastDot acc s = afterLastDot "" s)
  /\ s = p ++ "." ++ afterLastDot "" s
  /\ Finalize.beforeLastDot (afterLastDot "" s) = None.
Proof.
  revert p. induction s as [| c s IH]; intros p H; [discriminate |].
  cbn [Finalize.beforeLastDot] in H. cbn [afterLastDot].
  destruct (Finalize.beforeLastDot s) as [p' |] eqn:E.
  - injection H as <-. destruct (IH p' eq_refl) as (Hacc & Hs & Hnone).
    assert (Hc : forall acc, (if Ascii.eqb c "." then afterLastDot "" s
                              else afterLastDot (acc ++ String c "") s)
                             = afterLastDot "" s)
      by (intros acc; destruct (Ascii.eqb c "."); [reflexivity | apply Hacc]).
    split; [intros acc; now rewrite !Hc |]. rewrite Hc.
    split; [rewrite append_cons; now rewrite <- Hs | exact Hnone].
  - destruct (Ascii.eqb_spec c ".") as [-> | Hne]; [| discriminate].
    injection H as <-.
    rewrite (afterLastDot_plain s E ""). rewrite !append_nil.
    split; [reflexivity |]. split; [reflexivity | exact E].
Qed.

(** The extension of a file name has no dot. *)
Lemma extension_plain (s : string) :
  Finalize.beforeLastDot (afterLastDot "" s) = None.
Proof.
  destruct (Finalize.beforeLastDot s) as [p |] eqn:E.
  - now destruct (afterLastDot_dotted s p E) as (_ & _ & H).
  - now rewrite (afterLastDot_plain s E "").
Qed.

Lemma extension_again (s : string) :
  afterLastDot "" (afterLastDot "" s) = afterLastDot "" s.
Proof. now rewrite (afterLastDot_plain _ (extension_plain s) ""). Qed.

(** The path [generateVideoPath] builds from the extension of a file name
    is the one it builds from the file name. *)
Lemma generateVideoPath_extension (uid vid fileName : string) :
  let ext := afterLastDot "" fileName in
  generateVideoPath uid vid (if String.eqb ext "" then "mp4" else ext)
  = generateVideoPath uid vid fileName.
Proof.
  cbv zeta. unfold generateVideoPath.
  destruct (String.eqb (afterLastDot "" fileName) "") eqn:E.
  - reflexivity.
  - now rewrite extension_again, E.
Qed.

End FileNameFacts.

Module FinalizeMoreFacts.

Import Finalize.

(** X7. The display name and the extension of a file name put the file
    name back together: either the display name is the whole file name
    (no dot, nothing after the last dot, or a slash after it), or the file
    name is the display name, a dot, and the non-empty extension under
    which the video is stored. *)
Theorem display_name_and_extension (fileName : string) :
  displayName fileName = fileName
  \/ (fileName = displayName fileName ++ "." ++ afterLastDot "" fileName
      /\ afterLastDot "" fileName <> "").
Proof.
  unfold displayName.
  destruct (beforeLastDot fileName) as [stem |] eqn:E; [| now left].
  destruct (FileNameFacts.afterLastDot_dotted fileName stem E) as (_ & Hs & _).
  destruct (String.eqb_spec (afterLastDot "" fileName) "") as [He | Hne];
    [now left |].
  cbn [orb]. destruct (str_includes "/" (afterLastDot "" fileName)); [now left |].
  right. split; assumption.
Qed.

(** What a successful answer says, whatever the request and the state. *)
Lemma POST_ok_inv (env : Env) (req : Request) (st : State) (d : Data) :
  fst (fst (POST env req st)) = RespOk d ->
  exists sid s,
    sessionId req = Some sid
    /\ sessions st !! sid = Some s
    /\ authenticate (verifyIdToken env) (authorization req) = inr (userId s)
    /\ d = mkData (uuidv4 env) uploaded
             (generateVideoPath (userId s) (uuidv4 env) (fileName s))
             (fileName s) (fileSize s) true.
Proof.
  unfold POST.
  destruct (authenticate (verifyIdToken env) (authorization req)) as [[code msg] | uid];
    [discriminate |].
  destruct (sessionId req) as [sid |]; [| discriminate].
  destruct (String.eqb sid ""); [discriminate |].
  destruct (sessions st !! sid) as [s |] eqn:Hs; [| discriminate].
  destruct (String.eqb_spec (userId s) uid) as [<- | Hne]; [| discriminate].
  cbn [negb].
  destruct (verifyChunks (bucket st) (userId s) sid (totalChunks s))
    as [[paths missing] | m].
  - destruct (0 <? List.length missing); [discriminate |].
    destruct (combineThrows env); [discriminate |].
    rewrite FileNameFacts.generateVideoPath_extension.
    destruct (fileExists _ _) as [[|] | m]; try discriminate.
    intros H. injection H as <-. exists sid, s. repeat split; reflexivity || assumption.
  - unfold outerCatch. destruct (str_includes "Invalid token" m); [discriminate |].
    destruct (str_includes "compose" m); discriminate.
Qed.

(** X8. Where finalize stores the video and what the analysis downloads.
    A successful finalize stores the composed video under the extension of
    the uploaded file name; [VideoProcessor.downloadVideo] reads
    [videos/{userId}/{videoId}.mp4].  The two paths are the same object
    exactly when the file name has the extension [mp4] or no extension
    text at all. *)
Theorem stored_video_and_download_source (env : Env) (req : Request) (st : State)
    (d : Data) :
  fst (fst (POST env req st)) = RespOk d ->
  exists sid s,
    sessionId req = Some sid
    /\ sessions st !! sid = Some s
    /\ d_storageLocation d = generateVideoPath (userId s) (d_videoId d) (fileName s)
    /\ (d_storageLocation d = downloadSource (userId s) (d_videoId d)
        <-> afterLastDot "" (fileName s) = "" \/ afterLastDot "" (fileName s) = "mp4").
Proof.
  intros H. destruct (POST_ok_inv env req st d H) as (sid & s & Hsid & Hs & _ & ->).
  exists sid, s. split; [exact Hsid |]. split; [exact Hs |].
  cbn [d_storageLocation d_videoId]. split; [reflexivity |].
  unfold generateVideoPath, downloadSource.
  destruct (String.eqb_spec (afterLastDot "" (fileName s)) "") as [He | Hne].
  - split; [now left | reflexivity].
  - split.
    + intros Heq. do 4 (apply PathFacts.append_cancel in Heq).
      change ".mp4" with ("." ++ "mp4") in Heq.
      apply PathFacts.append_cancel in Heq. now right.
    + intros [He | He]; [contradiction | now rewrite He].
Qed.

Lemma stored_video_and_download_source_witness :
  exists sid s,
    sessionId Samples.movRequest = Some sid
    /\ sessions Samples.movState !! sid = Some s
    /\ "videos/u1/v1.mov" = generateVideoPath (userId s) "v1" (fileName s)
    /\ ("videos/u1/v1.mov" = downloadSource (userId s) "v1"
        <-> afterLastDot "" (fileName s) = "" \/ afterLastDot "" (fileName s) = "mp4").
Proof.
  apply (stored_video_and_download_source Samples.firstCall Samples.movRequest
           Samples.movState
           (mkData "v1" uploaded "videos/u1/v1.mov" "holiday.mov" 12000000 true)).
  vm_compute. reflexivity.
Defined.

(** The chunk paths of a session, in index order. *)
Lemma all_present (b : Bucket) (uid sid : string) (n : nat) :
  (forall i, i < n -> chunkPresent b uid sid i = true) ->
  List.filter (chunkPresent b uid sid) (List.seq 0 n) = List.seq 0 n
  /\ List.filter (fun i => negb (chunkPresent b uid sid i)) (List.seq 0 n) = [].
Proof.
  intros H. split.
  - rewrite (ResumeFacts.filter_ext_seq _ (fun _ => true))
      by (intros i Hi; apply H; lia).
    apply List.filter_true.
  - rewrite (ResumeFacts.filter_ext_seq _ (fun _ => false))
      by (intros i Hi; rewrite H by lia; reflexivity).
    apply List.filter_false.
Qed.

(** The answer, the state and the effects of a finalize that finds every
    chunk, under a storage service that answers every existence check. *)
Lemma POST_all_chunks (env : Env) (req : Request) (st : State)
    (uid sid : string) (s : UploadSession) :
  authenticate (verifyIdToken env) (authorization req) = inr uid ->
  sessionId req = Some sid ->
  sid <> "" ->
  sessions st !! sid = Some s ->
  userId s = uid ->
  failing (bucket st) = ∅ ->
  (forall i, i < totalChunks s -> chunkPresent (bucket st) uid sid i = true) ->
  let paths := List.map (generateChunkPath uid sid) (List.seq 0 (totalChunks s)) in
  let videoId := uuidv4 env in
  let location := generateVideoPath uid videoId (fileName s) in
  let s1 := setStatus assembling s in
  let db1 := <[sid := s1]> (sessions st) in
  POST env req st
  = match combineThrows env with
    | Some m => combineFailed (mkState db1 (videos st) (bucket st)) sid s1 m
                  [Combine paths location]
    | None =>
        (RespOk (mkData videoId uploaded location (fileName s) (fileSize s) true),
         mkState (<[sid := setVideoId videoId (setStatus completed s1)]> db1)
           (<[videoId := mkVideoDoc videoId uid (displayName (fileName s)) (fileName s)
                           (fileSize s) sid uploaded location true (totalChunks s)
                           (chunkSize s) (fileType s)]> (videos st))
           (mkBucket ({[location]} ∪ objects (bucket st)) (failing (bucket st))),
         [Combine paths location; CleanupChunks paths; TriggerAnalysis videoId])
    end.
Proof.
  intros Hauth Hsid Hne Hs Hu Hfail Hall. cbv zeta. unfold POST.
  rewrite Hauth, Hsid. apply String.eqb_neq in Hne. rewrite Hne, Hs, Hu, String.eqb_refl.
  cbn [negb].
  rewrite FinalizeFacts.verifyChunks_filter
    by (intros i _; rewrite Hfail; apply not_elem_of_empty).
  destruct (all_present (bucket st) uid sid (totalChunks s) Hall) as [-> ->].
  cbn [List.length Nat.ltb Nat.leb].
  rewrite FileNameFacts.generateVideoPath_extension.
  destruct (combineThrows env) as [m |]; [reflexivity |].
  unfold fileExists. cbn [failing objects]. rewrite Hfail.
  rewrite decide_False by apply not_elem_of_empty.
  rewrite bool_decide_eq_true_2 by (apply elem_of_union_l, elem_of_singleton; reflexivity).
  reflexivity.
Qed.

(** What resume stores and answers when every existence check answers. *)
Lemma resume_result (verify : Verifier) (signedUrl : Signer) (now : nat)
    (b : Bucket) (again : Resume.Request) (db : gmap string UploadSession)
    (uid sid : string) (s : UploadSession) :
  authenticate verify (Resume.authorization again) = inr uid ->
  Resume.uploadSessionId again = Some sid ->
  sid <> "" ->
  db !! sid = Some s ->
  userId s = uid ->
  now <= expiresAt s ->
  failing b = ∅ ->
  let n := totalChunks s in
  let existing := List.filter (chunkPresent b uid sid) (List.seq 0 n) in
  let missing := List.filter (fun i => negb (chunkPresent b uid sid i)) (List.seq 0 n) in
  Resume.POST verify signedUrl now b again db
  = (RespOk (Resume.mkData sid n existing missing
               (Resume.signMissing signedUrl now uid sid missing)
               (if 0 <? n then Some (roundPercent (List.length existing) n) else None)
               (if List.length existing =? n then Resume.ready_to_finalize
                else Resume.resuming)),
     <[sid := setCompletedChunks existing s]> db).
Proof.
  intros Hauth Hsid Hne Hs Hu Hexp Hfail. cbv zeta. unfold Resume.POST.
  rewrite (ResumeFacts.authenticated_plain _ _ _ Hauth), Hsid.
  apply String.eqb_neq in Hne. rewrite Hne, Hs, Hu, String.eqb_refl.
  cbn [negb].
  assert ((expiresAt s <? now) = false) as -> by (apply Nat.ltb_ge; exact Hexp).
  rewrite ResumeFacts.checkChunks_filter.
  rewrite (ResumeFacts.filter_ext_seq (found b uid sid) (chunkPresent b uid sid))
    by (intros i _; apply ResumeFacts.found_present; rewrite Hfail;
        apply not_elem_of_empty).
  rewrite (ResumeFacts.filter_ext_seq (fun i => negb (found b uid sid i))
             (fun i => negb (chunkPresent b uid sid i)))
    by (intros i _; f_equal; apply ResumeFacts.found_present; rewrite Hfail;
        apply not_elem_of_empty).
  reflexivity.
Qed.

(** X9. Finalize agrees with the resume that precedes it.  For a session
    of the caller that has not expired, under a storage service that
    answers every existence check: when resume reports
    [ready_to_finalize], a finalize on the same bucket (whose compose call
    goes through) succeeds and composes the chunk objects [0 .. n-1] in
    index order; when resume reports [resuming], finalize answers 400,
    names exactly the chunks resume listed as missing, and issues no
    compose call. *)
Theorem finalize_agrees_with_resume (env : Env) (signedUrl : Signer)
    (now : nat) (b : Bucket) (again : Resume.Request) (req : Request)
    (db : gmap string UploadSession) (stored : gmap string VideoDoc)
    (uid sid : string) (s : UploadSession) :
  authenticate (verifyIdToken env) (Resume.authorization again) = inr uid ->
  authorization req = Resume.authorization again ->
  Resume.uploadSessionId again = Some sid ->
  sessionId req = Some sid ->
  sid <> "" ->
  db !! sid = Some s ->
  userId s = uid ->
  now <= expiresAt s ->
  failing b = ∅ ->
  combineThrows env = None ->
  exists r,
    fst (Resume.POST (verifyIdToken env) signedUrl now b again db) = RespOk r
    /\ let st := mkState (snd (Resume.POST (verifyIdToken env) signedUrl now b again db))
                   stored b in
       (Resume.d_status r = Resume.ready_to_finalize ->
        exists d,
          fst (fst (POST env req st)) = RespOk d
          /\ snd (POST env req st)
             = [Combine (List.map (generateChunkPath uid sid)
                           (List.seq 0 (totalChunks s)))
                        (d_storageLocation d);
                CleanupChunks (List.map (generateChunkPath uid sid)
                                 (List.seq 0 (totalChunks s)));
                TriggerAnalysis (d_videoId d)])
       /\ (Resume.d_status r = Resume.resuming ->
           fst (fst (POST env req st))
           = RespError 400 (incompleteMessage (totalChunks s) (Resume.missingChunks r))
           /\ Resume.missingChunks r <> []
           /\ snd (POST env req st) = []).
Proof.
  intros Hauth Hsame Hrsid Hsid Hne Hs Hu Hexp Hfail Hcombine.
  rewrite (resume_result (verifyIdToken env) signedUrl now b again db uid sid s)
    by assumption.
  cbv zeta. eexists. split; [reflexivity |].
  cbn [fst snd Resume.d_status Resume.missingChunks].
  set (n := totalChunks s).
  set (existing := List.filter (chunkPresent b uid sid) (List.seq 0 n)).
  set (missing := List.filter (fun i => negb (chunkPresent b uid sid i)) (List.seq 0 n)).
  set (s2 := setCompletedChunks existing s).
  set (st := mkState (<[sid := s2]> db) stored b).
  assert (Hlen : List.length existing + List.length missing = n).
  { unfold existing, missing.
    rewrite (ResumeFacts.filter_split_length (chunkPresent b uid sid) (List.seq 0 n)).
    apply List.length_seq. }
  assert (Hs2 : sessions st !! sid = Some s2) by apply lookup_insert_eq.
  assert (Hauth' : authenticate (verifyIdToken env) (authorization req) = inr uid)
    by (now rewrite Hsame).
  split.
  - intros Hready.
    destruct (Nat.eqb_spec (List.length existing) n) as [Hall |]; [| discriminate].
    assert (Hpresent : forall i, i < totalChunks s2 ->
                                 chunkPresent (bucket st) uid sid i = true).
    { intros i Hi. destruct (chunkPresent b uid sid i) eqn:E; [exact E |].
      assert (Hin : In i missing)
        by (apply List.filter_In; split; [apply List.in_seq; cbn in Hi; lia
                                         | now rewrite E]).
      destruct missing; [contradiction | cbn in Hlen; lia]. }
    rewrite (POST_all_chunks env req st uid sid s2 Hauth' Hsid Hne Hs2 Hu Hfail Hpresent).
    cbv zeta. rewrite Hcombine. eexists. split; reflexivity.
  - intros Hresuming.
    destruct (Nat.eqb_spec (List.length existing) n) as [| Hsome]; [discriminate |].
    assert (Hmissing : missing <> [])
      by (intros E; rewrite E in Hlen; cbn in Hlen; lia).
    destruct missing as [| i rest] eqn:Em; [contradiction |].
    assert (Hi : In i (List.filter (fun i => negb (chunkPresent b uid sid i))
                         (List.seq 0 n)))
      by (fold missing; rewrite Em; now left).
    apply List.filter_In in Hi as [Hi Habs]. apply List.in_seq in Hi.
    apply negb_true_iff in Habs.
    destruct (FinalizeFacts.POST_missing_chunks env req st uid sid s2 i)
      as [HPOST _]; try assumption.
    + intros j _. cbn [st bucket]. rewrite Hfail. apply not_elem_of_empty.
    + cbn [s2 setCompletedChunks totalChunks]. fold n. lia.
    + cbv zeta in HPOST. rewrite HPOST. cbn [fst snd].
      cbn [s2 setCompletedChunks totalChunks st bucket]. fold n.
      fold missing. rewrite Em. repeat split. discriminate.
Qed.

Lemma finalize_agrees_with_resume_witness :
  exists r,
    fst (Resume.POST Samples.verifier Samples.signer 1000 Samples.bucketBoth
           Samples.resumeRequest Samples.sessions) = RespOk r
    /\ let st := mkState (snd (Resume.POST Samples.verifier Samples.signer 1000
                                 Samples.bucketBoth Samples.resumeRequest
                                 Samples.sessions))
                   ∅ Samples.bucketBoth in
       (Resume.d_status r = Resume.ready_to_finalize ->
        exists d,
          fst (fst (POST Samples.firstCall Samples.finalizeRequest st)) = RespOk d
          /\ snd (POST Samples.firstCall Samples.finalizeRequest st)
             = [Combine (List.map (generateChunkPath "u1" "s1")
                           (List.seq 0 (totalChunks Samples.session)))
                        (d_storageLocation d);
                CleanupChunks (List.map (generateChunkPath "u1" "s1")
                                 (List.seq 0 (totalChunks Samples.session)));
                TriggerAnalysis (d_videoId d)])
       /\ (Resume.d_status r = Resume.resuming ->
           fst (fst (POST Samples.firstCall Samples.finalizeRequest st))
           = RespError 400 (incompleteMessage (totalChunks Samples.session)
                              (Resume.missingChunks r))
           /\ Resume.missingChunks r <> []
           /\ snd (POST Samples.firstCall Samples.finalizeRequest st) = []).
Proof.
  apply (finalize_agrees_with_resume Samples.firstCall Samples.signer 1000
           Samples.bucketBoth Samples.resumeRequest Samples.finalizeRequest
           Samples.sessions ∅ "u1" "s1" Samples.session);
    try reflexivity.
  - discriminate.
  - cbn. lia.
Defined.

(** X10. A finalize whose compose call fails can be retried.  When every
    chunk is in the bucket and the compose call throws, the answer is 500
    with the message of the failure, the session is marked [failed] with
    that message, no video document is written, the bucket is untouched
    and neither the chunk cleanup nor the analysis trigger is issued; a
    second finalize of the same session whose compose call goes through
    then succeeds and leaves the session [completed]. *)
Theorem failed_compose_can_be_retried (env retry : Env) (req : Request) (st : State)
    (uid sid : string) (s : UploadSession) (m : string) :
  authenticate (verifyIdToken env) (authorization req) = inr uid ->
  verifyIdToken retry = verifyIdToken env ->
  sessionId req = Some sid ->
  sid <> "" ->
  sessions st !! sid = Some s ->
  userId s = uid ->
  failing (bucket st) = ∅ ->
  (forall i, i < totalChunks s -> chunkPresent (bucket st) uid sid i = true) ->
  combineThrows env = Some m ->
  combineThrows retry = None ->
  let out := POST env req st in
  let st' := snd (fst out) in
  fst (fst out) = RespError 500 ("Failed to combine video chunks: " ++ m)
  /\ sessionStatus st' sid = Some failed
  /\ (error <$> sessions st' !! sid) = Some (Some ("Failed to combine chunks: " ++ m))
  /\ videos st' = videos st
  /\ bucket st' = bucket st
  /\ composeCalls (snd out) = 1
  /\ List.length (snd out) = 1
  /\ exists d,
       fst (fst (POST retry req st')) = RespOk d
       /\ d_videoId d = uuidv4 retry
       /\ sessionStatus (snd (fst (POST retry req st'))) sid = Some completed.
Proof.
  intros Hauth Hsame Hsid Hne Hs Hu Hfail Hall Hthrows Hworks. cbv zeta.
  rewrite (POST_all_chunks env req st uid sid s Hauth Hsid Hne Hs Hu Hfail Hall).
  cbv zeta. rewrite Hthrows. unfold combineFailed. cbn [fst snd sessions videos bucket].
  unfold sessionStatus. cbn [sessions]. rewrite lookup_insert_eq.
  do 7 (split; [reflexivity |]).
  set (s3 := setError _ _). set (st' := mkState _ _ _).
  assert (Hauth' : authenticate (verifyIdToken retry) (authorization req) = inr uid)
    by (now rewrite Hsame).
  assert (Hs3 : sessions st' !! sid = Some s3) by apply lookup_insert_eq.
  rewrite (POST_all_chunks retry req st' uid sid s3 Hauth' Hsid Hne Hs3 Hu Hfail Hall).
  cbv zeta. rewrite Hworks. eexists. split; [reflexivity |]. split; [reflexivity |].
  cbn [fst snd sessions]. now rewrite lookup_insert_eq.
Qed.

Lemma failed_compose_can_be_retried_witness :
  let out := POST (mkEnv Samples.verifier "v1" (Some "backend unavailable"))
               Samples.finalizeRequest Samples.uploadedState in
  let st' := snd (fst out) in
  fst (fst out) = RespError 500 ("Failed to combine video chunks: " ++ "backend unavailable")
  /\ sessionStatus st' "s1" = Some failed
  /\ (error <$> sessions st' !! "s1")
     = Some (Some ("Failed to combine chunks: " ++ "backend unavailable"))
  /\ videos st' = videos Samples.uploadedState
  /\ bucket st' = bucket Samples.uploadedState
  /\ composeCalls (snd out) = 1
  /\ List.length (snd out) = 1
  /\ exists d,
       fst (fst (POST Samples.secondCall Samples.finalizeRequest st')) = RespOk d
       /\ d_videoId d = uuidv4 Samples.secondCall
       /\ sessionStatus (snd (fst (POST Samples.secondCall Samples.finalizeRequest st')))
            "s1" = Some completed.
Proof.
  apply (failed_compose_can_be_retried
           (mkEnv Samples.verifier "v1" (Some "backend unavailable")) Samples.secondCall
           Samples.finalizeRequest Samples.uploadedState "u1" "s1" Samples.session
           "backend unavailable");
    try reflexivity.
  - discriminate.
  - intros i Hi. cbn in Hi.
    destruct i as [| [| i]]; [vm_compute; reflexivity | vm_compute; reflexivity | lia].
Defined.

(** X11. A caller who does not own a session is turned away by the
    progress, resume and finalize routes alike: each answers 403, leaves
    every stored document as it was, and signs no URL, touches no object
    and issues no compose call. *)
Theorem foreign_caller_is_turned_away (verify : Verifier) (header : option string)
    (caller sid : string) (s : UploadSession) (db : gmap string UploadSession) :
  authenticate verify header = inr caller ->
  sid <> "" ->
  db !! sid = Some s ->
  userId s <> caller ->
  let refusal := "Unauthorized access to upload session" in
  (forall i reported, reported <> "" ->
     Progress.POST verify (Progress.mkRequest header (Some sid) (Some i) (Some reported)) db
     = (RespError 403 refusal, db))
  /\ (forall signedUrl now b,
        Resume.POST verify signedUrl now b (Resume.mkRequest header (Some sid)) db
        = (RespError 403 refusal, db))
  /\ (forall uuid combine stored b,
        POST (mkEnv verify uuid combine) (mkRequest header (Some sid))
             (mkState db stored b)
        = (RespError 403 refusal, mkState db stored b, [])).
Proof.
  intros Hauth Hne Hs Hother. cbv zeta.
  apply String.eqb_neq in Hne, Hother.
  split; [| split].
  - intros i reported Hrep. apply String.eqb_neq in Hrep. unfold Progress.POST.
    cbn [Progress.authorization Progress.sessionId Progress.chunkIndex Progress.reported].
    now rewrite Hauth, Hne, Hrep, Hs, Hother.
  - intros signedUrl now b. unfold Resume.POST.
    cbn [Resume.authorization Resume.uploadSessionId].
    now rewrite (ResumeFacts.authenticated_plain _ _ _ Hauth), Hne, Hs, Hother.
  - intros uuid combine stored b. unfold POST.
    cbn [authorization sessionId verifyIdToken sessions].
    now rewrite Hauth, Hne, Hs, Hother.
Qed.

Lemma foreign_caller_is_turned_away_witness :
  let refusal := "Unauthorized access to upload session" in
  (forall i reported, reported <> "" ->
     Progress.POST Samples.otherVerifier
       (Progress.mkRequest Samples.bearer (Some "s1") (Some i) (Some reported))
       Samples.sessions
     = (RespError 403 refusal, Samples.sessions))
  /\ (forall signedUrl now b,
        Resume.POST Samples.otherVerifier signedUrl now b
          (Resume.mkRequest Samples.bearer (Some "s1")) Samples.sessions
        = (RespError 403 refusal, Samples.sessions))
  /\ (forall uuid combine stored b,
        POST (mkEnv Samples.otherVerifier uuid combine)
             (mkRequest Samples.bearer (Some "s1"))
             (mkState Samples.sessions stored b)
        = (RespError 403 refusal, mkState Samples.sessions stored b, [])).
Proof.
  apply (foreign_caller_is_turned_away Samples.otherVerifier Samples.bearer "u9" "s1"
           Samples.session Samples.sessions);
    try reflexivity; discriminate.
Defined.

End FinalizeMoreFacts.

(** ** Segment objects and the loops that wait for them *)

Module VerifyFacts.

Import Verify MFacts.

Lemma bind_emit_any {E A} (e : E) (k : unit -> M E A) :
  bind (emit e) k = (e :: traceOf (k tt), outcomeOf (k tt)).
Proof. unfold bind, emit, traceOf, outcomeOf. now destruct (k tt). Qed.


Lemma pair_eta {E A} (m : M E A) : (traceOf m, outcomeOf m) = m.
Proof. now destruct m. Qed.








(** An object that becomes visible at the third check; a storage service
    that fails at the second check; a segment that is never large
    enough. *)
Example visible_at_third_check :
  verifySegmentUpload (fun n => Ok (3 <=? n)) "videos/u1/v1/segments/segment_001.mp4"
  = ([Check 1; Wait 1000; Check 2; Wait 1000; Check 3], Ok tt).
Proof. reflexivity. Qed.

Example failing_check_ends_verification :
  verifySegmentUpload (fun n => if n =? 2 then Throw "socket hang up" else Ok false)
    "videos/u1/v1/segments/segment_001.mp4"
  = ([Check 1; Wait 1000; Check 2],
     Throw "Segment verification failed: Error: socket hang up").
Proof. reflexivity. Qed.

Example failing_probe_is_retried :
  verifySegmentReady (fun n => if n =? 2 then Throw "socket hang up"
                               else if n <? 4 then Ok Absent else Ok (Sized 250000))
    1 "videos/u1/v1/segments/segment_001.mp4"
  = ([Check 1; Wait 2000; Check 2; Wait 2000; Check 3; Wait 2000; Check 4], Ok tt).
Proof. reflexivity. Qed.

End VerifyFacts.

Module SegmentPathFacts.

Import Segmenter.

Lemma append_assoc (a b c : string) : (a ++ b) ++ c = a ++ (b ++ c).
Proof.
  induction a as [| x a IH]; [reflexivity |].
  rewrite !FileNameFacts.append_cons. now rewrite IH.
Qed.

Lemma digitsOnly_uint (d : Decimal.uint) :
  digitsOnly (NilEmpty.string_of_uint d) = true.
Proof. induction d; cbn; auto. Qed.

Lemma digitsOnly_app (a b : string) :
  digitsOnly (a ++ b) = digitsOnly a && digitsOnly b.
Proof.
  induction a as [| x a IH]; [reflexivity |].
  rewrite FileNameFacts.append_cons. cbn [digitsOnly]. rewrite IH.
  now rewrite andb_assoc.
Qed.

Lemma digitsOnly_zeros (k : nat) :
  digitsOnly (String.concat "" (List.repeat "0" k)) = true.
Proof.
  induction k as [| k IH]; [reflexivity |].
  cbn [List.repeat]. rewrite PathFacts.concat_empty_cons, digitsOnly_app, IH.
  reflexivity.
Qed.

Lemma digitsOnly_padded (width n : nat) :
  digitsOnly (padStart0 width (showNat n)) = true.
Proof.
  unfold padStart0, showNat.
  now rewrite digitsOnly_app, digitsOnly_zeros, digitsOnly_uint.
Qed.

(** Two runs of digits followed by a character that is not a digit: the
    runs and what follows them are the same. *)
Lemma digits_then_mark (a b : string) (c1 c2 : ascii) (s1 s2 : string) :
  digitsOnly a = true -> digitsOnly b = true ->
  isDigit c1 = false -> isDigit c2 = false ->
  a ++ String c1 s1 = b ++ String c2 s2 ->
  a = b /\ String c1 s1 = String c2 s2.
Proof.
  revert b. induction a as [| x a IH]; intros [| y b] Ha Hb H1 H2 H.
  - split; [reflexivity | exact H].
  - rewrite FileNameFacts.append_cons in H. change ("" ++ String c1 s1) with (String c1 s1) in H.
    injection H as -> _. cbn [digitsOnly] in Hb. rewrite H1 in Hb. discriminate.
  - rewrite FileNameFacts.append_cons in H. change ("" ++ String c2 s2) with (String c2 s2) in H.
    injection H as -> _. cbn [digitsOnly] in Ha. rewrite H2 in Ha. discriminate.
  - rewrite !FileNameFacts.append_cons in H. injection H as -> H.
    cbn [digitsOnly] in Ha, Hb.
    apply andb_true_iff in Ha as [_ Ha]. apply andb_true_iff in Hb as [_ Hb].
    destruct (IH b Ha Hb H1 H2 H) as [-> Hrest]. split; [reflexivity | exact Hrest].
Qed.

(** The segment number can be read off a segment file name followed by a
    suffix that does not start with a digit. *)
Lemma segment_name_inj (n m : nat) (c1 c2 : ascii) (s1 s2 : string) :
  isDigit c1 = false -> isDigit c2 = false ->
  segmentFileName n ++ String c1 s1 = segmentFileName m ++ String c2 s2 ->
  n = m /\ String c1 s1 = String c2 s2.
Proof.
  intros H1 H2 H. unfold segmentFileName in H. rewrite !append_assoc in H.
  apply PathFacts.append_cancel in H.
  apply digits_then_mark in H as [Hp Hs];
    [| apply digitsOnly_padded | apply digitsOnly_padded | assumption | assumption].
  split; [now apply PathFacts.padded_inj in Hp | exact Hs].
Qed.

(** X14. The objects the segmenter writes for one video do not collide:
    two segments with the same cloud path, or with the same thumbnail
    path, have the same segment number, and no segment's cloud path is a
    thumbnail path.  The local files of a segment, in contrast, are named
    by the segment number alone: the same segment number of any two
    videos uses the same local video and audio file. *)
Theorem segment_objects_distinct (env env' : Env) (uid vid uid' vid' : string)
    (t1 d1 t2 d2 t3 d3 : Q) (n1 n2 : nat) (seg1 seg2 other : VideoSegment) :
  extractSegment env uid vid t1 d1 n1 = Ok seg1 ->
  extractSegment env uid vid t2 d2 n2 = Ok seg2 ->
  extractSegment env' uid' vid' t3 d3 n1 = Ok other ->
  (cloudStoragePath seg1 = cloudStoragePath seg2 -> n1 = n2)
  /\ (thumbnailPath seg1 = thumbnailPath seg2 -> n1 = n2)
  /\ cloudStoragePath seg1 <> thumbnailPath seg2
  /\ videoPath other = videoPath seg1
  /\ audioPath other = audioPath seg1.
Proof.
  unfold extractSegment. intros H1 H2 H3.
  destruct (extraction env n1); [| discriminate].
  destruct (extraction env n2); [| discriminate].
  destruct (extraction env' n1); [| discriminate].
  injection H1 as <-. injection H2 as <-. injection H3 as <-.
  cbn [cloudStoragePath thumbnailPath videoPath audioPath].
  split; [| split; [| split; [| split; reflexivity]]].
  - intros H. apply PathFacts.append_cancel in H.
    now apply (segment_name_inj n1 n2 "." "." "mp4" "mp4") in H.
  - intros H. apply PathFacts.append_cancel in H.
    now apply (segment_name_inj n1 n2 "_" "_" "thumbnail.jpg" "thumbnail.jpg") in H.
  - intros H. apply PathFacts.append_cancel in H.
    apply (segment_name_inj n1 n2 "." "_" "mp4" "thumbnail.jpg") in H as [_ H];
      [discriminate | reflexivity | reflexivity].
Qed.

Lemma segment_objects_distinct_witness :
  (cloudStoragePath (segmentAt "u1" "v1" 47 0) = cloudStoragePath (segmentAt "u1" "v1" 47 1)
   -> 1 = 2)
  /\ (thumbnailPath (segmentAt "u1" "v1" 47 0) = thumbnailPath (segmentAt "u1" "v1" 47 1)
      -> 1 = 2)
  /\ cloudStoragePath (segmentAt "u1" "v1" 47 0) <> thumbnailPath (segmentAt "u1" "v1" 47 1)
  /\ videoPath (segmentAt "u2" "v2" 47 0) = videoPath (segmentAt "u1" "v1" 47 0)
  /\ audioPath (segmentAt "u2" "v2" 47 0) = audioPath (segmentAt "u1" "v1" 47 0).
Proof.
  apply (segment_objects_distinct Samples.segmenter47 Samples.segmenter47
           "u1" "v1" "u2" "v2" 0 (Qmin 5 47 - 0) 5 (Qmin 10 47 - 5) 0 (Qmin 5 47 - 0)
           1 2);
    reflexivity.
Defined.

(** X15. The thumbnail path that the run records on a segment document
    ([videos/{userId}/{videoId}/thumbnails/segment_NNN.jpg]) is not an
    object the segmenter writes: for every pair of segment numbers it
    differs from the thumbnail the segmenter uploaded and from the
    segment's video object. *)
Theorem recorded_thumbnail_is_not_uploaded (env : Env) (uid vid : string)
    (t d : Q) (n m : nat) (seg : VideoSegment) :
  extractSegment env uid vid t d n = Ok seg ->
  recordedThumbnailPath uid vid m <> thumbnailPath seg
  /\ recordedThumbnailPath uid vid m <> cloudStoragePath seg.
Proof.
  unfold extractSegment. intros H.
  destruct (extraction env n); [| discriminate]. injection H as <-.
  cbn [cloudStoragePath thumbnailPath]. unfold recordedThumbnailPath.
  split; intros H; rewrite !append_assoc in H;
    do 4 (apply PathFacts.append_cancel in H);
    apply (f_equal (String.get 1)) in H; lazy in H; discriminate H.
Qed.

Lemma recorded_thumbnail_is_not_uploaded_witness :
  recordedThumbnailPath "u1" "v1" 1 <> thumbnailPath (segmentAt "u1" "v1" 47 0)
  /\ recordedThumbnailPath "u1" "v1" 1 <> cloudStoragePath (segmentAt "u1" "v1" 47 0).
Proof.
  apply (recorded_thumbnail_is_not_uploaded Samples.segmenter47 "u1" "v1"
           0 (Qmin 5 47 - 0) 1 1).
  reflexivity.
Defined.

(** The loop stops at the first segment whose extraction fails. *)
Lemma segmentLoop_fails (env : Env) (uid vid : string) (D : Q) (k : nat) (m : string) :
  extraction env k = Throw m ->
  forall remaining i segments,
    i < k -> k <= i + remaining ->
    (forall j, i < j < k -> extraction env j = Ok tt) ->
    segmentLoop env uid vid D remaining i segments = Throw m.
Proof.
  intros Hk. induction remaining as [| r IH]; intros i segments Hi Hr Hok; [lia |].
  cbn [segmentLoop]. unfold extractSegment.
  destruct (Nat.eq_dec (i + 1) k) as [<- | Hne].
  - now rewrite Hk.
  - rewrite (Hok (i + 1)) by lia. apply IH; [lia | lia |].
    intros j Hj. apply Hok. lia.
Qed.

(** X16. Segmentation gives up at the first failure: when the extraction
    of segment [k] (one of the [ceil(D / 5)] segments) throws and the
    segments before it went through, [segmentVideo] returns no segment at
    all and throws the message of that failure wrapped as
    [Video segmentation failed: Error: ...]; a failing duration probe is
    wrapped the same way. *)
Theorem segmentation_stops_at_first_failure (env : Env) (uid vid : string) :
  (forall D k m,
     getVideoDuration env = Ok D ->
     1 <= k -> (Z.of_nat k <= segmentCount D)%Z ->
     (forall j, 1 <= j < k -> extraction env j = Ok tt) ->
     extraction env k = Throw m ->
     segmentVideo env uid vid = Throw ("Video segmentation failed: Error: " ++ m))
  /\ (forall m, getVideoDuration env = Throw m ->
        segmentVideo env uid vid = Throw ("Video segmentation failed: Error: " ++ m)).
Proof.
  split.
  - intros D k m HD Hk1 Hk Hok Hfail. unfold segmentVideo. rewrite HD.
    rewrite (segmentLoop_fails env uid vid D k m Hfail); [reflexivity | lia | lia |].
    intros j Hj. apply Hok. lia.
  - intros m HD. unfold segmentVideo. now rewrite HD.
Qed.

(** A 47-second video whose third extraction fails. *)
Example third_extraction_fails :
  segmentVideo (mkEnv (Ok 47%Q) (fun n => if n =? 3 then Throw "ffmpeg exited with code 1"
                                          else Ok tt)) "u1" "v1"
  = Throw "Video segmentation failed: Error: ffmpeg exited with code 1".
Proof. vm_compute. reflexivity. Qed.

End SegmentPathFacts.

(** ** The visual analyzer: when a call succeeds and what it throws *)

Module VisualCallFacts.

Import VisualAnalyzer MFacts.

(** Before the last attempt a turn either returns, on a 2xx response, or
    goes on to the next attempt, after the backoff delay or at once. *)
Lemma turn_early (outcome : AttemptOutcome) (attempt : nat) :
  attempt < maxRetries ->
  (answersOk outcome = true /\ turn outcome attempt = Return)
  \/ (answersOk outcome = false
      /\ (turn outcome attempt = ContinueAfter (backoff attempt)
          \/ turn outcome attempt = ContinueNow)).
Proof.
  intros Hlt. unfold turn, tryBlock, catchBlock, answersOk.
  assert (Hl : (attempt <? maxRetries) = true) by (now apply Nat.ltb_lt).
  assert (He : (attempt =? maxRetries) = false) by (apply Nat.eqb_neq; lia).
  rewrite Hl, He.
  destruct outcome as [status statusText errorText | error | error].
  - destruct ((200 <=? status) && (status <? 300)); [now left | right].
    split; [reflexivity |].
    destruct (isRetryableError status errorText); cbn [andb]; [now left |].
    destruct (isRetryableNetworkError _); cbn [andb]; [now left | now right].
  - right. split; [reflexivity |].
    destruct (isRetryableNetworkError (e_message error)); cbn [andb];
      [now left | now right].
  - right. split; [reflexivity |].
    destruct (isRetryableNetworkError (e_message error)); cbn [andb];
      [now left | now right].
Qed.

(** The last attempt either returns, on a 2xx response that can be read,
    or throws, naming the error its [catch] block received. *)
Lemma turn_last (outcome : AttemptOutcome) :
  (answersOk outcome = true /\ turn outcome maxRetries = Return)
  \/ (answersOk outcome = false
      /\ turn outcome maxRetries
         = ThrowOut (exhaustedPrefix ++ showError (caughtError outcome))).
Proof.
  unfold turn, tryBlock, catchBlock, answersOk, caughtError.
  destruct outcome as [status statusText errorText | error | error];
    rewrite ?Nat.ltb_irrefl, ?Nat.eqb_refl, ?andb_false_r.
  - destruct ((200 <=? status) && (status <? 300)); [now left | right].
    split; [reflexivity |]. rewrite andb_false_r. reflexivity.
  - right. split; reflexivity.
  - right. split; reflexivity.
Qed.

(** The loop from attempt [a] on, with the attempts up to [maxRetries]
    still to make: it stops at some attempt [k], having met no 2xx
    response before; it returns when attempt [k] got one, and otherwise
    [k] is the last attempt and the loop throws.  The waits are at most
    the backoff delays of the attempts before [k]. *)
Lemma attempts_spec (service : nat -> AttemptOutcome) :
  forall remaining a,
    1 <= remaining -> a + remaining = maxRetries + 1 ->
    exists k,
      a <= k <= maxRetries
      /\ attemptsMade (traceOf (attempts service remaining a)) = List.seq a (k - a + 1)
      /\ (forall j, a <= j < k -> answersOk (service j) = false)
      /\ ((answersOk (service k) = true
           /\ outcomeOf (attempts service remaining a) = Ok tt)
          \/ (k = maxRetries /\ answersOk (service k) = false
              /\ outcomeOf (attempts service remaining a)
                 = Throw (exhaustedPrefix ++ showError (caughtError (service k)))))
      /\ list_sum (delaysWaited (traceOf (attempts service remaining a)))
         <= list_sum (List.map backoff (List.seq a (k - a))).
Proof.
  induction remaining as [| r IH]; intros a Hr Ha; [lia |].
  cbn [attempts]. rewrite VerifyFacts.bind_emit_any.
  cbn [traceOf outcomeOf fst snd].
  assert (Hhead : forall t, attemptsMade (Attempt a :: t) = a :: attemptsMade t)
    by reflexivity.
  assert (Hwaits : forall t, delaysWaited (Attempt a :: t) = delaysWaited t)
    by reflexivity.
  rewrite Hhead, Hwaits.
  destruct (Nat.eq_dec a maxRetries) as [-> | Hne].
  - (* the last attempt *)
    exists maxRetries. replace (maxRetries - maxRetries + 1) with 1 by lia.
    replace (maxRetries - maxRetries) with 0 by lia.
    split; [lia |].
    destruct (turn_last (service maxRetries)) as [[Hok ->] | [Hno ->]];
      (split; [reflexivity |]); (split; [intros j Hj; lia |]);
      (split; [| cbn; lia]).
    + left. split; [exact Hok | reflexivity].
    + right. split; [reflexivity |]. split; [exact Hno | reflexivity].
  - (* an earlier attempt *)
    assert (Hlt : a < maxRetries) by (unfold maxRetries in *; lia).
    destruct (turn_early (service a) a Hlt) as [[Hok ->] | [Hno Hturn]].
    + exists a. replace (a - a + 1) with 1 by lia. replace (a - a) with 0 by lia.
      split; [lia |]. split; [reflexivity |]. split; [intros j Hj; lia |].
      split; [left; split; [exact Hok | reflexivity] | cbn; lia].
    + destruct (IH (a + 1) ltac:(unfold maxRetries in *; lia) ltac:(lia))
        as (k & Hk & Hseq & Hbefore & Hend & Hsum).
      exists k. split; [lia |].
      assert (Hrest :
                attemptsMade
                  (traceOf match turn (service a) a with
                           | Return => ret tt
                           | ContinueAfter delay =>
                               bind (emit (Wait delay))
                                    (fun _ => attempts service r (a + 1))
                           | ContinueNow => attempts service r (a + 1)
                           | ThrowOut message => throw message
                           end)
                = attemptsMade (traceOf (attempts service r (a + 1)))
                /\ outcomeOf match turn (service a) a with
                             | Return => ret tt
                             | ContinueAfter delay =>
                                 bind (emit (Wait delay))
                                      (fun _ => attempts service r (a + 1))
                             | ContinueNow => attempts service r (a + 1)
                             | ThrowOut message => throw message
                             end
                   = outcomeOf (attempts service r (a + 1))
                /\ list_sum
                     (delaysWaited
                        (traceOf match turn (service a) a with
                                 | Return => ret tt
                                 | ContinueAfter delay =>
                                     bind (emit (Wait delay))
                                          (fun _ => attempts service r (a + 1))
                                 | ContinueNow => attempts service r (a + 1)
                                 | ThrowOut message => throw message
                                 end))
                   <= backoff a
                      + list_sum (delaysWaited (traceOf (attempts service r (a + 1))))).
      { destruct Hturn as [-> | ->].
        - rewrite VerifyFacts.bind_emit_any. cbn [traceOf outcomeOf fst snd].
          split; [reflexivity |]. split; [reflexivity |].
          change (delaysWaited (Wait (backoff a) :: traceOf (attempts service r (a + 1))))
            with (backoff a :: delaysWaited (traceOf (attempts service r (a + 1)))).
          unfold list_sum. cbn [List.fold_right]. lia.
        - split; [reflexivity |]. split; [reflexivity | lia]. }
      destruct Hrest as (-> & -> & Hdelay).
      split; [rewrite Hseq; replace (k - a + 1) with (S (k - (a + 1) + 1)) by lia;
              cbn [List.seq]; now replace (S a) with (a + 1) by lia |].
      split; [intros j Hj; destruct (Nat.eq_dec j a) as [-> | Hja];
              [exact Hno | apply Hbefore; lia] |].
      split; [exact Hend |].
      replace (k - a) with (S (k - (a + 1))) by lia.
      cbn [List.seq List.map]. unfold list_sum in *. cbn [List.fold_right].
      replace (S a) with (a + 1) by lia. lia.
Qed.

(** X17. The retry loop of [callVisualAnalysisService], for any behaviour
    of the service.  The call succeeds exactly when one of the first three
    attempts gets a 2xx response whose body can be read; the attempts are
    numbered 1, 2, ... and stop at the first such response, never before
    (so the third attempt is always made when the first two did not get
    one); nothing is thrown before the third attempt, and what is thrown
    then is [Self-hosted visual analysis failed after 3 attempts: ]
    followed by the text of the error of the third attempt, its name
    included (the statement after the loop is never reached); the delays
    waited add up to at most 2000 + 4000 ms. *)
Theorem visual_call_outcome (service : nat -> AttemptOutcome) :
  let run := callVisualAnalysisService service in
  (outcomeOf run = Ok tt
   <-> answersOk (service 1) || answersOk (service 2) || answersOk (service 3) = true)
  /\ (exists k,
        1 <= k <= 3
        /\ attemptsMade (traceOf run) = List.seq 1 k
        /\ (forall j, 1 <= j < k -> answersOk (service j) = false)
        /\ (k < 3 -> answersOk (service k) = true))
  /\ (forall m, outcomeOf run = Throw m ->
        attemptsMade (traceOf run) = [1; 2; 3]
        /\ m = exhaustedPrefix ++ showError (caughtError (service 3)))
  /\ list_sum (delaysWaited (traceOf run)) <= 2000 + 4000.
Proof.
  cbv zeta. unfold callVisualAnalysisService.
  destruct (attempts_spec service maxRetries 1 ltac:(unfold maxRetries; lia) ltac:(lia))
    as (k & Hk & Hseq & Hbefore & Hend & Hsum).
  unfold maxRetries in Hk. replace (k - 1 + 1) with k in Hseq by lia.
  assert (Hcases : k = 1 \/ k = 2 \/ k = 3) by lia.
  split; [| split; [| split]].
  - split.
    + intros Hok. destruct Hend as [[Hgood _] | (_ & _ & Hthrow)];
        [| congruence].
      destruct Hcases as [-> | [-> | ->]]; rewrite Hgood;
        rewrite ?orb_true_r; reflexivity.
    + intros Hsome. destruct Hend as [[_ Hok] | (-> & Hno & _)]; [exact Hok |].
      rewrite (Hbefore 1), (Hbefore 2) in Hsome by (unfold maxRetries; lia).
      unfold maxRetries in Hno. rewrite Hno in Hsome. discriminate.
  - exists k. split; [lia |]. split; [exact Hseq |]. split; [exact Hbefore |].
    intros Hearly. destruct Hend as [[Hgood _] | (-> & _)];
      [exact Hgood | unfold maxRetries in Hearly; lia].
  - intros m Hm. destruct Hend as [[_ Hok] | (-> & _ & Hthrow)];
      [congruence |].
    split; [exact Hseq |]. rewrite Hthrow in Hm. injection Hm as <-. reflexivity.
  - eapply Nat.le_trans; [exact Hsum |].
    destruct Hcases as [-> | [-> | ->]]; cbn; lia.
Qed.

(** The abort that the code raises after 90 seconds is retried twice and
    then reported under its own name; a body that is not JSON makes an
    answered request fail. *)
Example aborted_call :
  callVisualAnalysisService Samples.timingOut
  = ([Attempt 1; Wait 2000; Attempt 2; Wait 4000; Attempt 3],
     Throw ("Self-hosted visual analysis failed after 3 attempts: "
            ++ "AbortError: This operation was aborted")).
Proof. vm_compute. reflexivity. Qed.

Example garbled_answers :
  callVisualAnalysisService Samples.garbled
  = ([Attempt 1; Attempt 2; Attempt 3],
     Throw ("Self-hosted visual analysis failed after 3 attempts: "
            ++ "SyntaxError: Unexpected token < in JSON at position 0")).
Proof. vm_compute. reflexivity. Qed.


End VisualCallFacts.

(** ** The background run: failures, batches and the empty video *)

Module RunFacts.

Import Segmenter Trigger MFacts.

(** X19. The background run never throws, whatever the outside world
    does: its promise always resolves, so the [catch] that the trigger
    route attaches to it is never entered.  When a stage throws and the
    update of the run's outer [catch] goes through, that update is the
    last write of the run: the video document ends with status
    [analysis_failed], the message of the failure as [analysisError] and
    step [Analysis failed], while the progress value stays the one
    persisted before the failing stage. *)
Theorem run_never_throws_and_records_failure (w : World) (videoId userId : string)
    (doc0 : VideoPatch) :
  let run := processVideoInBackground w videoId userId in
  outcomeOf run = Ok tt
  /\ (forall m,
        outcomeOf (stages w videoId userId) = Throw m ->
        videoUpdate w (failurePatch w m) = Ok tt ->
        let doc := documentAfter doc0 (traceOf run) in
        (exists before, traceOf run = (before ++ [Persist (failurePatch w m)])%list)
        /\ p_status doc = Some analysis_failed
        /\ p_analysisError doc = Some m
        /\ p_currentStep doc = Some "Analysis failed"
        /\ p_analysisProgress doc
           = p_analysisProgress (documentAfter doc0 (traceOf (stages w videoId userId)))).
Proof.
  cbv zeta. unfold processVideoInBackground. split.
  - rewrite outcomeOf_tryCatch, outcomeOf_tryFinally, ContractFacts.cleanup_outcome.
    destruct (outcomeOf (stages w videoId userId)) as [[] | m]; [reflexivity |].
    rewrite outcomeOf_tryCatch. unfold update.
    destruct (videoUpdate w (failurePatch w m)) as [[] | m']; reflexivity.
  - intros m Hm Hupd.
    assert (Htrace :
              traceOf (tryCatch (tryFinally (stages w videoId userId) (cleanupFiles w))
                         (fun message =>
                            tryCatch (update w (failurePatch w message))
                                     (fun _ => ret tt)))
              = ((traceOf (stages w videoId userId) ++ traceOf (cleanupFiles w))
                 ++ [Persist (failurePatch w m)])%list).
    { rewrite traceOf_tryCatch, outcomeOf_tryFinally, traceOf_tryFinally.
      rewrite ContractFacts.cleanup_outcome, Hm.
      rewrite traceOf_tryCatch. unfold update. rewrite Hupd.
      cbn [emit traceOf outcomeOf fst snd]. now rewrite List.app_nil_r. }
    split; [rewrite Htrace; eexists; reflexivity |].
    rewrite Htrace, !ContractFacts.documentAfter_app.
    rewrite ContractFacts.documentAfter_cleanup.
    cbn [documentAfter List.fold_left]. repeat split.
Qed.

Lemma segmentChunks_shape {A} (l : list A) :
  (List.length (segmentChunks l) = (List.length l + 1) / 2
   /\ List.Forall (fun chunk => 1 <= List.length chunk <= PARALLEL_LIMIT)
                  (segmentChunks l))
  /\ forall a,
       List.length (segmentChunks (a :: l)) = (List.length l + 2) / 2
       /\ List.Forall (fun chunk => 1 <= List.length chunk <= PARALLEL_LIMIT)
                      (segmentChunks (a :: l)).
Proof.
  induction l as [| b l [[IHn IHf] IHc]].
  - split; [split; [reflexivity | constructor] |].
    intros a. split; [reflexivity |]. repeat constructor.
  - split; [destruct (IHc b) as [H1 H2]; split;
            [rewrite H1; cbn [List.length]; f_equal; lia | exact H2] |].
    intros a. cbn [segmentChunks List.length].
    rewrite IHn. split.
    + replace (S (List.length l) + 2) with (List.length l + 1 + 1 * 2) by lia.
      rewrite Nat.div_add by lia. lia.
    + constructor; [unfold PARALLEL_LIMIT; cbn; lia | exact IHf].
Qed.

(** X20. The batches of the parallel analysis.  The segments are cut, in
    order, into [ceil(n / 2)] batches of at most two segments, none of
    them empty, so that every segment is in exactly one batch; the
    progress persisted before batch [i] (counted from 0) of [m] lies
    between 70 and 95 and never decreases from one batch to the next. *)
Theorem batches_and_their_progress {A} (segments : list A) :
  let batches := segmentChunks segments in
  List.concat batches = segments
  /\ List.length batches = (List.length segments + 1) / 2
  /\ List.Forall (fun batch => 1 <= List.length batch <= 2) batches
  /\ (forall i, i < List.length batches ->
        70 <= chunkProgress i (List.length batches) <= 95
        /\ chunkProgress i (List.length batches)
           <= chunkProgress (i + 1) (List.length batches)).
Proof.
  cbv zeta. destruct (segmentChunks_shape segments) as [[Hn Hf] _].
  split; [apply AnalysisFacts.concat_segmentChunks |].
  split; [exact Hn |]. split; [exact Hf |].
  intros i Hi. split.
  - apply ContractFacts.chunkProgress_bounds. lia.
  - apply ContractFacts.chunkProgress_mono.
Qed.

(** The sequential stages of a healthy run change neither the status nor
    the recorded error of the video document. *)
Lemma healthy_stages_document (w : World) (D : Q) (videoId userId : string) :
  stagesSucceed w D ->
  let segments := segmentsOf userId videoId D in
  let c := countSegments w segments (mkCounters 0 0 0) in
  exists sequential,
    traceOf (stages w videoId userId)
    = (sequential
       ++ (traceOf (analyzeSegments w segments)
           ++ [Persist (finalPatch w (List.length segments)
                          (successfulSegments c) (failedSegments c))]))%list
    /\ outcomeOf (stages w videoId userId) = Ok tt
    /\ (forall doc, p_status (documentAfter doc sequential) = p_status doc)
    /\ (forall doc, p_analysisError (documentAfter doc sequential)
                    = p_analysisError doc).
Proof.
  intros healthy segments c.
  destruct healthy as (Hupd & Hdl & (metadata & Hval & Hdur) & Hstd & Haud & Hprobe
                       & Hext & Hver & Hcommit & Hinit).
  assert (Hseg : segmentVideo (segmenter w) userId videoId = Ok segments)
    by (now apply SegmenterFacts.segmentVideo_all).
  pose proof (AnalysisFacts.update_persists w Hupd) as Hpersist.
  assert (Hfinal : forall n,
             bind (analyzeSegments w segments)
                  (fun c => update w (finalPatch w n (successfulSegments c)
                                        (failedSegments c)))
             = ((traceOf (analyzeSegments w segments)
                 ++ [Persist (finalPatch w n (successfulSegments c)
                                (failedSegments c))])%list, Ok tt)).
  { intros n. unfold bind at 1.
    pose proof (AnalysisFacts.analyzeSegments_outcome w Hupd segments) as Hc.
    fold c in Hc. unfold traceOf, outcomeOf in *.
    destruct (analyzeSegments w segments) as [t r]. cbn [fst snd] in *. subst r.
    rewrite Hpersist. reflexivity. }
  assert (Hout : outcomeOf (stages w videoId userId) = Ok tt).
  { unfold stages.
    repeat (first [ rewrite Hpersist | rewrite PlanningFacts.outcome_emit
                  | rewrite PlanningFacts.outcome_start
                  | rewrite Hdl | rewrite Hval | rewrite Hstd | rewrite Haud
                  | rewrite Hseg | rewrite Hver | rewrite Hcommit | rewrite Hinit ];
            cbn beta zeta).
    rewrite Hfinal. reflexivity. }
  eexists. split; [| split; [exact Hout |]].
  - unfold stages.
    repeat (first [ rewrite Hpersist | rewrite PlanningFacts.trace_emit
                  | rewrite PlanningFacts.trace_start
                  | rewrite Hdl | rewrite Hval | rewrite Hstd | rewrite Haud
                  | rewrite Hseg | rewrite Hver | rewrite Hcommit | rewrite Hinit ];
            cbn beta zeta).
    rewrite Hfinal. cbn [traceOf fst].
    repeat (apply PlanningFacts.cons_prefix). exact (eq_refl : _ = ([] ++ _)%list).
  - split; intros doc; reflexivity.
Qed.

(** X21. A video whose probes report duration 0 (the value the probe
    falls back to when the container states none).  When every stage
    goes through, no segment is created and none is analysed, and the run
    still completes: the document ends at progress 100 with status
    [analysis_failed], the success rate printed as [NaN], zero counts in
    the processing metadata, and no [analysisError] written by the run. *)
Theorem empty_video_ends_failed_without_error (w : World) (videoId userId : string)
    (doc0 : VideoPatch) :
  stagesSucceed w 0 ->
  let t := traceOf (processVideoInBackground w videoId userId) in
  let doc := documentAfter doc0 t in
  analysesStarted t = []
  /\ p_analysisProgress doc = Some 100
  /\ p_status doc = Some analysis_failed
  /\ p_currentStep doc = Some "Analysis failed"
  /\ p_stepDetails doc
     = Some "Analyzed 0 segments: 0 successful, 0 failed (NaN% success rate)"
  /\ p_processingMetadata doc = Some (Finished (elapsedSeconds w) 0 0 0 None)
  /\ p_analysisError doc = p_analysisError doc0.
Proof.
  intros healthy t doc.
  destruct (healthy_stages_document w 0 videoId userId healthy)
    as (sequential & Htrace & Hout & Hstatus & Herror).
  pose proof (PlanningFacts.run_healthy w 0 healthy videoId userId)
    as (sequential' & final & Hrun & _ & _ & _ & Hstarted).
  change (segmentsOf userId videoId 0) with (@nil VideoSegment) in *.
  cbv zeta in Htrace. cbn [analyzeSegments segmentChunks processChunks List.length
                            ret traceOf fst List.app countSegments List.filter
                            successfulSegments failedSegments Nat.add] in Htrace.
  assert (Ht : t = (sequential ++ [Persist (finalPatch w 0 0 0); Cleanup])%list).
  { unfold t, processVideoInBackground.
    rewrite traceOf_tryCatch, outcomeOf_tryFinally, traceOf_tryFinally.
    rewrite ContractFacts.cleanup_outcome, ContractFacts.cleanup_trace.
    rewrite (PlanningFacts.downloaded_healthy w 0 healthy), Hout, Htrace.
    rewrite List.app_nil_r. now rewrite <- List.app_assoc. }
  split.
  - unfold t. rewrite Hrun. unfold analysesStarted in *.
    rewrite !List.flat_map_app, Hstarted. reflexivity.
  - unfold doc. rewrite Ht, ContractFacts.documentAfter_app.
    cbn [documentAfter List.fold_left].
    specialize (Herror doc0). unfold documentAfter in Herror.
    repeat split. cbn. exact Herror.
Qed.

Lemma empty_video_ends_failed_without_error_witness :
  let w := mkWorld (fun _ => Ok tt) 3 (Ok tt)
             (Ok (mkMetadata 0 "1280x720" "mov,mp4,m4a,3gp,3g2,mj2" "30" 2))
             (Ok tt) (Ok tt) (Ok tt) (Segmenter.mkEnv (Ok 0%Q) (fun _ => Ok tt))
             (Ok tt) (Ok tt) (Ok tt) (fun _ => Ok tt) (fun _ => Ok tt)
             (fun _ _ => VisualAnalyzer.Responded 200 "OK" "") (fun _ => Ok tt) in
  let t := traceOf (processVideoInBackground w "v1" "u1") in
  let doc := documentAfter initialPatch t in
  analysesStarted t = []
  /\ p_analysisProgress doc = Some 100
  /\ p_status doc = Some analysis_failed
  /\ p_currentStep doc = Some "Analysis failed"
  /\ p_stepDetails doc
     = Some "Analyzed 0 segments: 0 successful, 0 failed (NaN% success rate)"
  /\ p_processingMetadata doc = Some (Finished (elapsedSeconds w) 0 0 0 None)
  /\ p_analysisError doc = p_analysisError initialPatch.
Proof.
  intros w.
  apply (empty_video_ends_failed_without_error w "v1" "u1" initialPatch).
  repeat split; try reflexivity. eexists. split; reflexivity.
Defined.

End RunFacts.

(** ** The status a run ends with *)

Module RunStatusFacts.

Import Segmenter Trigger MFacts.

(** The rate [s / n] against a threshold [a / b], in whole numbers. *)
Lemma rate_ge (s n : nat) (a b : Z) :
  0 < n -> (0 < b)%Z ->
  (inject_Z a / inject_Z b <= inject_Z (Z.of_nat s) / inject_Z (Z.of_nat n))%Q ->
  (a * Z.of_nat n <= b * Z.of_nat s)%Z.
Proof.
  intros Hn Hb H.
  destruct (Z.le_gt_cases (a * Z.of_nat n) (b * Z.of_nat s)) as [Hle | Hgt];
    [exact Hle | exfalso].
  apply (Qlt_irrefl (inject_Z a / inject_Z b)).
  eapply Qle_lt_trans; [exact H |].
  apply Binary64Facts.div_lt_cross; try (apply Binary64Facts.inject_pos; lia).
  rewrite <- !inject_Z_mult, <- Zlt_Qlt. lia.
Qed.

Lemma rate_lt (s n : nat) (a b : Z) :
  0 < n -> (0 < b)%Z ->
  (inject_Z (Z.of_nat s) / inject_Z (Z.of_nat n) < inject_Z a / inject_Z b)%Q ->
  (b * Z.of_nat s < a * Z.of_nat n)%Z.
Proof.
  intros Hn Hb H.
  destruct (Z.lt_ge_cases (b * Z.of_nat s) (a * Z.of_nat n)) as [Hlt | Hge];
    [exact Hlt | exfalso].
  apply (Qlt_irrefl (inject_Z a / inject_Z b)).
  eapply Qle_lt_trans; [| exact H].
  apply Binary64Facts.div_le_cross; try (apply Binary64Facts.inject_pos; lia).
  rewrite <- !inject_Z_mult, <- Zle_Qle. lia.
Qed.

(** C3. In a run all of whose stages go through, over the [n > 0]
    segments of the video of which [s] are analyzed and saved, the last
    write of the run is the final update, which carries the counts [s] and
    [n - s]; it leaves the document at progress 100 with the status chosen
    by the success rate [s / n]: [analysis_complete] when [s / n >= 0.9],
    otherwise [analysis_partial] when [s / n >= 0.5], otherwise
    [analysis_failed].  With ten segments, nine successes give
    [analysis_complete], eight, six and five give [analysis_partial], four
    give [analysis_failed]: both boundaries are inclusive.  (The number of
    segments is the length of an array, which stays below [2^32].) *)
Theorem final_status_by_success_rate (w : World) (videoId userId : string)
    (D : Q) (doc0 : VideoPatch) :
  stagesSucceed w D ->
  let segments := segmentsOf userId videoId D in
  let n := List.length segments in
  let s := List.length (List.filter (segmentSucceeds w) segments) in
  0 < n ->
  (Z.of_nat n < 2 ^ 32)%Z ->
  let run := processVideoInBackground w videoId userId in
  let doc := documentAfter doc0 (traceOf run) in
  let rate := (inject_Z (Z.of_nat s) / inject_Z (Z.of_nat n))%Q in
  outcomeOf run = Ok tt
  /\ (exists before,
        traceOf run
        = (before ++ [Persist (finalPatch w n s (n - s)); Cleanup])%list)
  /\ p_analysisProgress doc = Some 100
  /\ ((9 # 10 <= rate)%Q -> p_status doc = Some analysis_complete)
  /\ ((rate < 9 # 10)%Q -> (1 # 2 <= rate)%Q -> p_status doc = Some analysis_partial)
  /\ ((rate < 1 # 2)%Q -> p_status doc = Some analysis_failed)
  /\ (n = 10 ->
      (s = 9 -> p_status doc = Some analysis_complete)
      /\ (s = 8 -> p_status doc = Some analysis_partial)
      /\ (s = 6 -> p_status doc = Some analysis_partial)
      /\ (s = 5 -> p_status doc = Some analysis_partial)
      /\ (s = 4 -> p_status doc = Some analysis_failed)).
Proof.
  intros healthy segments n s Hn Hbound run doc rate.
  destruct (RunFacts.healthy_stages_document w D videoId userId healthy)
    as (sequential & Htrace & Hout & _ & _).
  cbv zeta in Htrace. fold segments in Htrace.
  assert (Hs : s <= n) by apply List.filter_length_le.
  assert (Hcounts :
            successfulSegments (countSegments w segments (mkCounters 0 0 0)) = s
            /\ failedSegments (countSegments w segments (mkCounters 0 0 0)) = n - s).
  { cbn [countSegments successfulSegments failedSegments Nat.add].
    pose proof (ResumeFacts.filter_split_length (segmentSucceeds w) segments).
    fold s n in H. split; [reflexivity | lia]. }
  destruct Hcounts as [Hsucc Hfail]. rewrite Hsucc, Hfail in Htrace. fold n in Htrace.
  assert (Hrun : traceOf run
                 = ((sequential ++ traceOf (analyzeSegments w segments))
                    ++ [Persist (finalPatch w n s (n - s)); Cleanup])%list).
  { unfold run, processVideoInBackground.
    rewrite traceOf_tryCatch, outcomeOf_tryFinally, traceOf_tryFinally.
    rewrite ContractFacts.cleanup_outcome, ContractFacts.cleanup_trace.
    rewrite (PlanningFacts.downloaded_healthy w D healthy), Hout, Htrace.
    rewrite List.app_nil_r, <- !List.app_assoc. reflexivity. }
  assert (Hstatus : p_status doc = Some (finalStatus s n)).
  { unfold doc. rewrite Hrun, ContractFacts.documentAfter_app. reflexivity. }
  assert (Hcases : finalStatus s n
                   = if 9 * n <=? 10 * s then analysis_complete
                     else if n <=? 2 * s then analysis_partial
                     else analysis_failed)
    by (apply StatusFacts.finalStatus_counts; assumption).
  split.
  { unfold run, processVideoInBackground.
    rewrite outcomeOf_tryCatch, outcomeOf_tryFinally, ContractFacts.cleanup_outcome.
    now rewrite Hout. }
  split; [eexists; exact Hrun |].
  split; [unfold doc; rewrite Hrun, ContractFacts.documentAfter_app; reflexivity |].
  rewrite Hstatus, Hcases.
  split.
  { intros H. rewrite (Qmake_Qdiv 9 10) in H.
    apply rate_ge in H; [| exact Hn | lia].
    destruct (Nat.leb_spec (9 * n) (10 * s)); [reflexivity | lia]. }
  split.
  { intros H9 H5. rewrite (Qmake_Qdiv 9 10) in H9. rewrite (Qmake_Qdiv 1 2) in H5.
    apply rate_lt in H9; [| exact Hn | lia]. apply rate_ge in H5; [| exact Hn | lia].
    destruct (Nat.leb_spec (9 * n) (10 * s)); [lia |].
    destruct (Nat.leb_spec n (2 * s)); [reflexivity | lia]. }
  split.
  { intros H5. rewrite (Qmake_Qdiv 1 2) in H5.
    apply rate_lt in H5; [| exact Hn | lia].
    destruct (Nat.leb_spec (9 * n) (10 * s)); [lia |].
    destruct (Nat.leb_spec n (2 * s)); [lia | reflexivity]. }
  intros H10. rewrite H10. repeat split; intros ->; reflexivity.
Qed.

(** The sample run: a 47-second video, ten segments, of which segments 3
    and 7 fail. *)
Lemma final_status_by_success_rate_witness :
  let w := Samples.world in
  let segments := segmentsOf "u1" "v1" 47 in
  let n := List.length segments in
  let s := List.length (List.filter (segmentSucceeds w) segments) in
  let run := processVideoInBackground w "v1" "u1" in
  let doc := documentAfter noPatch (traceOf run) in
  let rate := (inject_Z (Z.of_nat s) / inject_Z (Z.of_nat n))%Q in
  outcomeOf run = Ok tt
  /\ (exists before,
        traceOf run
        = (before ++ [Persist (finalPatch w n s (n - s)); Cleanup])%list)
  /\ p_analysisProgress doc = Some 100
  /\ ((9 # 10 <= rate)%Q -> p_status doc = Some analysis_complete)
  /\ ((rate < 9 # 10)%Q -> (1 # 2 <= rate)%Q -> p_status doc = Some analysis_partial)
  /\ ((rate < 1 # 2)%Q -> p_status doc = Some analysis_failed)
  /\ (n = 10 ->
      (s = 9 -> p_status doc = Some analysis_complete)
      /\ (s = 8 -> p_status doc = Some analysis_partial)
      /\ (s = 6 -> p_status doc = Some analysis_partial)
      /\ (s = 5 -> p_status doc = Some analysis_partial)
      /\ (s = 4 -> p_status doc = Some analysis_failed)).
Proof.
  assert (healthy : stagesSucceed Samples.world 47).
  { repeat split; try reflexivity. eexists. split; reflexivity. }
  apply (final_status_by_success_rate Samples.world "v1" "u1" 47 noPatch healthy).
  - vm_compute. lia.
  - vm_compute. reflexivity.
Defined.

(** The sample run ends partially complete: eight of ten segments. *)
Example sample_status :
  p_status (documentAfter noPatch
              (traceOf (processVideoInBackground Samples.world "v1" "u1")))
  = Some analysis_partial.
Proof. vm_compute. reflexivity. Qed.

(** Runs over the ten segments of the 47-second video in which 10, 9, 8,
    6, 5, 4 and 0 segments are saved. *)
Example ten_segment_runs :
  List.map
    (fun k =>
       let w := Samples.worldSaving k in
       (List.length (List.filter (segmentSucceeds w) (segmentsOf "u1" "v1" 47)),
        p_status (documentAfter noPatch
                    (traceOf (processVideoInBackground w "v1" "u1")))))
    [10; 9; 8; 6; 5; 4; 0]
  = [(10, Some analysis_complete); (9, Some analysis_complete);
     (8, Some analysis_partial); (6, Some analysis_partial);
     (5, Some analysis_partial); (4, Some analysis_failed);
     (0, Some analysis_failed)].
Proof. vm_compute. reflexivity. Qed.

End RunStatusFacts.

(** ** The web client: polling the analysis and slicing the file *)

Module ClientFacts.

Import Trigger.

(** X22. The hook never follows the analysis of a video it has
    uploaded.  Whatever the finalize route answers, [uploadFile] does not
    start [pollAnalysisProgress]: the route sends the video id inside the
    [data] object of its answer while the hook reads it at the top level
    of the answer, so after a successful finalize it finds none and marks
    the upload as completed at once, although the answer carries the id
    of the new video. *)
Theorem finalized_upload_is_never_polled (env : Finalize.Env)
    (req : Finalize.Request) (st : Finalize.State) :
  let answer := fst (fst (Finalize.POST env req st)) in
  (forall videoId, Client.afterFinalize answer <> Client.StartPolling videoId)
  /\ (forall d, answer = RespOk d ->
        Client.afterFinalize answer = Client.MarkCompleted
        /\ Client.field "videoId" (Client.finalizeBody d) = None
        /\ match Client.field "data" (Client.finalizeBody d) with
           | Some data =>
               Client.field "videoId" data
               = Some (Client.JString (Finalize.d_videoId d))
           | None => False
           end).
Proof.
  cbv zeta. destruct (fst (fst (Finalize.POST env req st))) as [code message | d].
  - split; [discriminate | intros d H; discriminate H].
  - split; [discriminate |]. intros d' H. injection H as <-. repeat split.
Qed.

(** After the finalize of the sample upload the hook marks the upload as
    completed, with the id of the new video in the answer. *)
Example sample_upload_is_marked_completed :
  match fst (fst (Finalize.POST Samples.firstCall Samples.finalizeRequest
                    Samples.uploadedState)) with
  | RespOk d =>
      Finalize.d_videoId d = "v1"
      /\ Client.afterFinalize (RespOk d) = Client.MarkCompleted
  | RespError _ _ => False
  end.
Proof. vm_compute. split; reflexivity. Qed.

(** X23. The byte ranges the client uploads.  For a file of [size > 0]
    bytes cut into [n = ceil(size / chunkSize)] chunks, the range of chunk
    [i < n] starts at [i * chunkSize], is not empty and holds at most
    [chunkSize] bytes; each range ends where the next one starts, the
    first starts at byte 0 and the last ends at the end of the file: the
    chunks cover the file exactly once. *)
Theorem client_chunks_cover_the_file (size chunkSize : N) :
  (0 < size)%N ->
  (0 < chunkSize)%N ->
  let n := N.to_nat (ceilDiv size chunkSize) in
  Client.chunkStart chunkSize 0 = 0%N
  /\ Client.chunkEnd chunkSize size (n - 1) = size
  /\ (forall i, i < n ->
        (Client.chunkStart chunkSize i < Client.chunkEnd chunkSize size i)%N
        /\ (Client.chunkEnd chunkSize size i - Client.chunkStart chunkSize i
            <= chunkSize)%N
        /\ (i + 1 < n ->
            Client.chunkEnd chunkSize size i = Client.chunkStart chunkSize (i + 1))).
Proof.
  intros Hsize Hcs n.
  destruct (InitiateFacts.ceilDiv_spec size chunkSize Hsize Hcs) as [[Hlow Hhigh] Hone].
  unfold Client.chunkEnd, Client.chunkStart.
  set (q := ceilDiv size chunkSize) in *.
  assert (Hq : q = (q - 1 + 1)%N) by lia.
  set (p := (q - 1)%N) in *.
  assert (Hn : n = N.to_nat p + 1) by (unfold n; lia).
  rewrite Hq, N.mul_add_distr_r, N.mul_1_l in Hhigh.
  split; [reflexivity |]. split.
  - replace (N.of_nat (n - 1)) with p by lia. lia.
  - intros i Hi.
    assert (Hbelow : (N.of_nat i * chunkSize <= p * chunkSize)%N)
      by (apply N.mul_le_mono_r; lia).
    split; [lia |]. split; [lia |].
    intros Hnext.
    assert (Hfull : (N.of_nat (i + 1) * chunkSize <= p * chunkSize)%N)
      by (apply N.mul_le_mono_r; lia).
    replace (N.of_nat (i + 1)) with (N.of_nat i + 1)%N in * by lia.
    rewrite N.mul_add_distr_r, N.mul_1_l in *. lia.
Qed.

Lemma client_chunks_cover_the_file_witness :
  let n := N.to_nat (ceilDiv 12000000 (calculateChunkSize 12000000)) in
  Client.chunkStart (calculateChunkSize 12000000) 0 = 0%N
  /\ Client.chunkEnd (calculateChunkSize 12000000) 12000000 (n - 1) = 12000000%N
  /\ (forall i, i < n ->
        (Client.chunkStart (calculateChunkSize 12000000) i
         < Client.chunkEnd (calculateChunkSize 12000000) 12000000 i)%N
        /\ (Client.chunkEnd (calculateChunkSize 12000000) 12000000 i
            - Client.chunkStart (calculateChunkSize 12000000) i
            <= calculateChunkSize 12000000)%N
        /\ (i + 1 < n ->
            Client.chunkEnd (calculateChunkSize 12000000) 12000000 i
            = Client.chunkStart (calculateChunkSize 12000000) (i + 1))).
Proof.
  apply (client_chunks_cover_the_file 12000000 (calculateChunkSize 12000000));
    reflexivity.
Defined.

End ClientFacts.
Module SceneFacts.

Import Scene.

Lemma lower_ascii_idem (c : ascii) : lower_ascii (lower_ascii c) = lower_ascii c.
Proof.
  destruct c as [[] [] [] [] [] [] [] []]; vm_compute; reflexivity.
Qed.

Lemma toLowerCase_idem (s : string) : toLowerCase (toLowerCase s) = toLowerCase s.
Proof.
  induction s as [| c s IH]; [reflexivity |].
  cbn [toLowerCase]. rewrite lower_ascii_idem, IH. reflexivity.
Qed.

Lemma toLowerCase_app (s t : string) :
  toLowerCase (s ++ t) = toLowerCase s ++ toLowerCase t.
Proof.
  induction s as [| c s IH]; [reflexivity |].
  change (String c s ++ t) with (String c (s ++ t)).
  cbn [toLowerCase]. rewrite IH. reflexivity.
Qed.

Lemma prefix_app (n b : string) : String.prefix n (n ++ b) = true.
Proof.
  induction n as [| c n IH]; [destruct b; reflexivity |].
  change (String c n ++ b) with (String c (n ++ b)).
  cbn [String.prefix]. destruct (ascii_dec c c); [exact IH | congruence].
Qed.

Lemma includes_inside (n a b : string) : str_includes n (a ++ n ++ b) = true.
Proof.
  induction a as [| c a IH].
  - change ("" ++ n ++ b) with (n ++ b).
    destruct (n ++ b) eqn:E; cbn [str_includes];
      rewrite <- E, prefix_app; reflexivity.
  - change (String c a ++ n ++ b) with (String c (a ++ n ++ b)).
    cbn [str_includes]. rewrite IH. apply orb_true_r.
Qed.


Lemma includes_at_end (n a : string) : str_includes n (a ++ n) = true.
Proof.
  induction a as [| c a IH].
  - change ("" ++ n) with n.
    assert (Hp : String.prefix n n = true).
    { induction n as [| c n IHn]; [reflexivity |].
      cbn [String.prefix]. destruct (ascii_dec c c); [exact IHn | congruence]. }
    destruct n; cbn [str_includes]; rewrite Hp; reflexivity.
  - change (String c a ++ n) with (String c (a ++ n)).
    cbn [str_includes]. rewrite IH. apply orb_true_r.
Qed.

Lemma concat_tail (l : list string) (a b : string) :
  exists front, String.concat " " (l ++ [a; b]) = front ++ a ++ " " ++ b.
Proof.
  induction l as [| x l [front IH]].
  - exists "". reflexivity.
  - exists (x ++ " " ++ front).
    change ((x :: l) ++ [a; b])%list with (x :: (l ++ [a; b]))%list.
    assert (Hc : String.concat " " (x :: (l ++ [a; b]))
                 = x ++ " " ++ String.concat " " (l ++ [a; b])).
    { destruct l; reflexivity. }
    rewrite Hc, IH.
    rewrite <- !SegmentPathFacts.append_assoc. reflexivity.
Qed.

Lemma searchable_tail (transcript : string) (objects activities : list string)
    (context : SceneContext) :
  kept (location context) = true -> kept (setting context) = true ->
  exists front,
    searchableText transcript objects activities context
    = front ++ location context ++ " " ++ setting context.
Proof.
  intros Hl Hs. unfold searchableText.
  rewrite !List.filter_app. cbn [List.filter].
  rewrite Hl, Hs. rewrite List.app_assoc. apply concat_tail.
Qed.

Lemma context_cases (objects activities : list string) :
  let context := analyzeSceneContext objects activities in
  (location context = "home" \/ location context = "office"
   \/ location context = "outdoor" \/ location context = "indoor")
  /\ ((setting context = "presentation" /\ mood context = "professional")
      \/ (setting context = "meeting" /\ mood context = "professional")
      \/ (setting context = "interview" /\ mood context = "serious")
      \/ (setting context = "casual" /\ mood context = "casual")).
Proof.
  unfold analyzeSceneContext. cbv zeta. cbn [location setting mood].
  split.
  - repeat match goal with
           | |- context [if someNamed ?t ?n then _ else _] =>
               destruct (someNamed t n)
           end; auto 6.
  - repeat match goal with
           | |- context [if someNamed ?t ?n then _ else _] =>
               destruct (someNamed t n)
           end; cbn; auto 10.
Qed.

(** X24. The scene context of a segment is always decided: the location is
    one of home, office, outdoor and indoor, the setting one of
    presentation, meeting, interview and casual, and the mood follows from
    the setting; with no object detected the location is indoor and with
    no activity the setting is casual.  Both words always end the
    searchable text of the segment. *)
Theorem scene_context_is_always_decided (objects activities : list string) :
  let context := analyzeSceneContext objects activities in
  In (location context) ["home"; "office"; "outdoor"; "indoor"]
  /\ In (setting context) ["presentation"; "meeting"; "interview"; "casual"]
  /\ (mood context = "professional"
      <-> setting context = "presentation" \/ setting context = "meeting")
  /\ (mood context = "serious" <-> setting context = "interview")
  /\ (mood context = "casual" <-> setting context = "casual")
  /\ (objects = [] -> location context = "indoor")
  /\ (activities = [] -> setting context = "casual")
  /\ forall transcript : string,
       exists front,
         searchableText transcript objects activities context
         = front ++ location context ++ " " ++ setting context.
Proof.
  intros context.
  destruct (context_cases objects activities) as [Hloc Hset].
  fold context in Hloc, Hset.
  split; [destruct Hloc as [H | [H | [H | H]]]; rewrite H; cbn [In]; auto 6 |].
  split; [destruct Hset as [[H _] | [[H _] | [[H _] | [H _]]]];
          rewrite H; cbn [In]; auto 6 |].
  split; [destruct Hset as [[-> ->] | [[-> ->] | [[-> ->] | [-> ->]]]];
          split; intros H; auto; try discriminate;
          destruct H; discriminate |].
  split; [destruct Hset as [[-> ->] | [[-> ->] | [[-> ->] | [-> ->]]]];
          split; intros H; try reflexivity; discriminate |].
  split; [destruct Hset as [[-> ->] | [[-> ->] | [[-> ->] | [-> ->]]]];
          split; intros H; try reflexivity; discriminate |].
  split; [intros ->; reflexivity |].
  split; [intros ->; subst context; unfold analyzeSceneContext; reflexivity |].
  intros transcript. apply searchable_tail.
  - destruct Hloc as [-> | [-> | [-> | ->]]]; reflexivity.
  - destruct Hset as [[-> _] | [[-> _] | [[-> _] | [-> _]]]]; reflexivity.
Qed.

End SceneFacts.

Module SearchFacts.

Import Search.

Lemma isSpace_lower (c : ascii) : isSpace (lower_ascii c) = isSpace c.
Proof.
  destruct c as [[] [] [] [] [] [] [] []]; vm_compute; reflexivity.
Qed.

Lemma isBlank_lower (s : string) : isBlank (toLowerCase s) = isBlank s.
Proof.
  induction s as [| c s IH]; [reflexivity |].
  cbn [toLowerCase isBlank]. rewrite isSpace_lower, IH. reflexivity.
Qed.

Lemma hits_bound (q : string) (segment : SegmentDoc) :
  length (segmentHits q segment) <= 4.
Proof.
  unfold segmentHits.
  destruct (mentions q (s_searchableText segment)),
           (mentions q (s_transcript segment)),
           (someMentions q (s_objects segment)),
           (someMentions q (s_activities segment)); cbn; lia.
Qed.

Lemma flat_hits_bound (q : string) (l : list SegmentDoc) :
  length (List.flat_map (segmentHits q) l) <= 4 * length l.
Proof.
  induction l as [| s l IH]; [cbn; lia |].
  cbn [List.flat_map]. rewrite List.length_app. cbn [length].
  pose proof (hits_bound q s). lia.
Qed.

(** What an accepted search returns. *)
Lemma search_ok (verify : Verifier) (req : Request) (st : State) (data : Data) :
  POST verify req st = RespOk data ->
  searchQuery req = Some (d_query data)
  /\ isBlank (d_query data) = false
  /\ d_results data
     = List.flat_map (segmentHits (toLowerCase (d_query data)))
         (segmentsOf st (videoId req))
  /\ d_total data = length (d_results data)
  /\ exists header userId video,
       authorization req = Some header
       /\ String.prefix "Bearer " header = true
       /\ verify (bearerToken header) = Some userId
       /\ videos st !! videoId req = Some video
       /\ String.eqb (Finalize.v_userId video) userId = true.
Proof.
  unfold POST, search. intros H.
  destruct (authorization req) as [header |] eqn:Ha; [| discriminate].
  destruct (String.prefix "Bearer " header) eqn:Hp; [| discriminate].
  destruct (verify (bearerToken header)) as [userId |] eqn:Hv; [| discriminate].
  destruct (searchQuery req) as [query |] eqn:Hq; [| discriminate].
  destruct (isBlank query) eqn:Hb; [discriminate |].
  destruct (videos st !! videoId req) as [video |] eqn:Hvid; [| discriminate].
  destruct (String.eqb (Finalize.v_userId video) userId) eqn:Ho;
    cbn [negb] in H; [| discriminate].
  injection H as <-. cbn [d_query d_results d_total].
  repeat split; try assumption; try reflexivity.
  exists header, userId, video. repeat split; assumption.
Qed.

(** X25. An accepted search for a query of ASCII characters echoes the
    query, reports as many hits as it returns, at most four for each
    stored segment of the video, and returns the same hits for every ASCII
    query that differs from it only in the case of its letters. *)
Theorem search_ignores_case_and_is_bounded
    (verify : Verifier) (req : Request) (st : State) (data : Data) :
  POST verify req st = RespOk data ->
  isAscii (d_query data) = true ->
  searchQuery req = Some (d_query data)
  /\ d_total data = length (d_results data)
  /\ d_total data <= 4 * length (segmentsOf st (videoId req))
  /\ forall query' : string,
       isAscii query' = true ->
       toLowerCase query' = toLowerCase (d_query data) ->
       POST verify (mkRequest (authorization req) (videoId req) (Some query')) st
       = RespOk (mkData query' (d_results data) (d_total data)).
Proof.
  intros H _. destruct (search_ok _ _ _ _ H)
    as (Hq & Hb & Hres & Htot & header & userId & video & Ha & Hp & Hv & Hvid & Ho).
  split; [exact Hq |]. split; [exact Htot |].
  split; [rewrite Htot, Hres; apply flat_hits_bound |].
  intros query' _ Hlow.
  unfold POST, search. cbn [authorization videoId searchQuery].
  rewrite Ha, Hp, Hv.
  assert (Hb' : isBlank query' = false).
  { rewrite <- isBlank_lower, Hlow, isBlank_lower. exact Hb. }
  rewrite Hb', Hvid, Ho. cbn [negb].
  rewrite Hlow, <- Hres, <- Htot. reflexivity.
Qed.

Lemma search_ignores_case_and_is_bounded_witness :
  POST Samples.verifier Samples.searchRequest Samples.searchState
  = RespOk (mkData "LAPTOP"
              [mkHit scene "scene_segment_001" 0 5 "Hello there Laptop indoor casual"
                 "Visual Scene";
               mkHit object "object_segment_001" 0 5 "Objects detected: Laptop"
                 "Object Detection"] 2)
  /\ POST Samples.verifier (mkRequest Samples.bearer "v7" (Some "laptop"))
       Samples.searchState
     = RespOk (mkData "laptop"
              [mkHit scene "scene_segment_001" 0 5 "Hello there Laptop indoor casual"
                 "Visual Scene";
               mkHit object "object_segment_001" 0 5 "Objects detected: Laptop"
                 "Object Detection"] 2).
Proof.
  assert (H : POST Samples.verifier Samples.searchRequest Samples.searchState
              = RespOk (mkData "LAPTOP"
                 [mkHit scene "scene_segment_001" 0 5 "Hello there Laptop indoor casual"
                    "Visual Scene";
                  mkHit object "object_segment_001" 0 5 "Objects detected: Laptop"
                    "Object Detection"] 2)) by (vm_compute; reflexivity).
  split; [exact H |].
  exact (proj2 (proj2 (proj2
           (search_ignores_case_and_is_bounded _ _ _ _ H eq_refl)))
           "laptop" eq_refl eq_refl).
Defined.

Lemma placeholder_no_hits (q : string) (segment : Segmenter.VideoSegment) :
  isBlank q = false ->
  segmentHits (toLowerCase q) (placeholderDoc segment) = [].
Proof.
  intros Hb. destruct q as [| c q]; [discriminate |].
  unfold segmentHits, placeholderDoc, mentions, someMentions.
  cbn [s_searchableText s_transcript s_objects s_activities toLowerCase
       str_includes String.prefix List.existsb orb]. reflexivity.
Qed.

(** X26. A segment that has only been stored, which is how the run leaves
    a segment whose analysis failed, contributes no hit to any accepted
    search: the hits are those of the other segments of the video. *)
Theorem unanalysed_segments_are_not_found
    (verify : Verifier) (req : Request) (st : State) (data : Data)
    (before after : list SegmentDoc) (segment : Segmenter.VideoSegment) :
  POST verify req st = RespOk data ->
  segmentsOf st (videoId req) = (before ++ placeholderDoc segment :: after)%list ->
  d_results data
  = List.flat_map (segmentHits (toLowerCase (d_query data))) (before ++ after)%list.
Proof.
  intros H Hsegs. destruct (search_ok _ _ _ _ H) as (_ & Hb & Hres & _).
  rewrite Hres, Hsegs, !List.flat_map_app. cbn [List.flat_map].
  rewrite (placeholder_no_hits _ _ Hb). reflexivity.
Qed.

Lemma unanalysed_segments_are_not_found_witness :
  POST Samples.verifier Samples.searchRequest Samples.searchState
  = RespOk (mkData "LAPTOP"
              [mkHit scene "scene_segment_001" 0 5 "Hello there Laptop indoor casual"
                 "Visual Scene";
               mkHit object "object_segment_001" 0 5 "Objects detected: Laptop"
                 "Object Detection"] 2)
  /\ [mkHit scene "scene_segment_001" 0 5 "Hello there Laptop indoor casual"
        "Visual Scene";
      mkHit object "object_segment_001" 0 5 "Objects detected: Laptop"
        "Object Detection"]
     = List.flat_map (segmentHits (toLowerCase "LAPTOP")) [Samples.analysedDoc].
Proof.
  assert (H : POST Samples.verifier Samples.searchRequest Samples.searchState
              = RespOk (mkData "LAPTOP"
                 [mkHit scene "scene_segment_001" 0 5 "Hello there Laptop indoor casual"
                    "Visual Scene";
                  mkHit object "object_segment_001" 0 5 "Objects detected: Laptop"
                    "Object Detection"] 2)) by (vm_compute; reflexivity).
  split; [exact H |].
  exact (unanalysed_segments_are_not_found _ _ _ _ [Samples.analysedDoc] []
           Samples.storedSegment H eq_refl).
Defined.

(** X27. A segment whose analysis succeeded is found by a search for the
    location or for the setting of its scene context, in any case of the
    letters, whatever was heard or seen in it: the search returns its scene
    hit. *)
Theorem analysed_segment_is_found_by_its_context
    (verify : Verifier) (req : Request) (st : State) (data : Data)
    (segment : Segmenter.VideoSegment) (transcript : string)
    (objects activities : list string) :
  POST verify req st = RespOk data ->
  In (analysedRecord segment transcript objects activities)
     (segmentsOf st (videoId req)) ->
  toLowerCase (d_query data)
  = Scene.location (Scene.analyzeSceneContext objects activities)
  \/ toLowerCase (d_query data)
     = Scene.setting (Scene.analyzeSceneContext objects activities) ->
  In (mkHit scene
        ("scene_" ++ Segmenter.segmentFileName (Segmenter.segmentNumber segment))
        (orNumber (Some (Segmenter.startTime segment)) 0)
        (orNumber (Some (Segmenter.endTime segment)) 30)
        (Scene.searchableText transcript objects activities
           (Scene.analyzeSceneContext objects activities))
        "Visual Scene")
     (d_results data).
Proof.
  intros H Hin Hq. destruct (search_ok _ _ _ _ H) as (_ & _ & Hres & _).
  rewrite Hres. apply List.in_flat_map.
  exists (analysedRecord segment transcript objects activities).
  split; [exact Hin |].
  set (context := Scene.analyzeSceneContext objects activities) in *.
  destruct (SceneFacts.context_cases objects activities) as [Hloc Hset].
  fold context in Hloc, Hset.
  assert (Hkl : Scene.kept (Scene.location context) = true
                /\ toLowerCase (Scene.location context) = Scene.location context).
  { destruct Hloc as [-> | [-> | [-> | ->]]]; split; reflexivity. }
  assert (Hks : Scene.kept (Scene.setting context) = true
                /\ toLowerCase (Scene.setting context) = Scene.setting context).
  { destruct Hset as [[-> _] | [[-> _] | [[-> _] | [-> _]]]]; split; reflexivity. }
  destruct Hkl as [Hkl Hll], Hks as [Hks Hls].
  destruct (SceneFacts.searchable_tail transcript objects activities context Hkl Hks)
    as [front Htext].
  assert (Hm : mentions (toLowerCase (d_query data))
                 (Some (Scene.searchableText transcript objects activities context))
               = true).
  { unfold mentions. rewrite Htext, !SceneFacts.toLowerCase_app, Hll, Hls.
    destruct Hq as [-> | ->].
    - apply SceneFacts.includes_inside.
    - rewrite <- !SegmentPathFacts.append_assoc. apply SceneFacts.includes_at_end. }
  unfold segmentHits, analysedRecord.
  cbn [s_searchableText s_id s_startTime s_endTime textOf].
  fold context. rewrite Hm. left. reflexivity.
Qed.

Lemma analysed_segment_is_found_by_its_context_witness :
  POST Samples.verifier (mkRequest Samples.bearer "v7" (Some "Indoor"))
    Samples.searchState
  = RespOk (mkData "Indoor"
              [mkHit scene "scene_segment_001" 0 5 "Hello there Laptop indoor casual"
                 "Visual Scene"] 1)
  /\ In (mkHit scene "scene_segment_001" 0 5 "Hello there Laptop indoor casual"
           "Visual Scene")
        [mkHit scene "scene_segment_001" 0 5 "Hello there Laptop indoor casual"
           "Visual Scene"].
Proof.
  assert (H : POST Samples.verifier (mkRequest Samples.bearer "v7" (Some "Indoor"))
                Samples.searchState
              = RespOk (mkData "Indoor"
                  [mkHit scene "scene_segment_001" 0 5
                     "Hello there Laptop indoor casual" "Visual Scene"] 1))
    by (vm_compute; reflexivity).
  split; [exact H |].
  exact (analysed_segment_is_found_by_its_context _ _ _ _ Samples.firstSegment
           "Hello there" ["Laptop"] [] H (or_introl eq_refl) (or_introl eq_refl)).
Defined.

End SearchFacts.
